(** * Ragged-batch codec and surface sampler of pytorch3d, verified

    Shallow embedding of

    - [pytorch3d/structures/utils.py]: [list_to_padded], [padded_to_list],
      [list_to_packed], [packed_to_list], [padded_to_packed];
    - [pytorch3d/ops/sample_points_from_meshes.py]: [compute_mean_curvature],
      [sample_points_from_meshes], [_rand_barycentric_coords].

    A torch tensor is a shape together with its elements, addressed by
    multi-index ([ndarray]).  Python exceptions are values of [error]; a
    function that may raise returns a [result].  Floating-point tensors are
    idealised to tensors of real numbers: rounding, [nan] and [inf] are outside
    the model, and the dtype casts [.double()] and [.half()] are the identity.
    Integer tensors hold [Z]. *)

From Stdlib Require Import String.
From Stdlib Require Import List ZArith Lia Bool Arith.
From Stdlib Require Import Reals Lra Psatz.
Import ListNotations.

Set Implicit Arguments.

(** ** Exceptions and results *)

Inductive error : Type :=
| ValueError (msg : string)
| IndexError
| TypeError
| RuntimeError (msg : string)
| AssertionError
| ZeroDivisionError.

Inductive result (A : Type) : Type :=
| Ok (a : A)
| Err (e : error).

Arguments Ok {A} a.
Arguments Err {A} e.

Definition bind {A B} (r : result A) (k : A -> result B) : result B :=
  match r with
  | Ok a => k a
  | Err e => Err e
  end.

Declare Scope result_scope.
Delimit Scope result_scope with result.
Notation "x <- r ;; k" := (bind r (fun x => k))
  (at level 61, r at next level, right associativity) : result_scope.
Notation "r ;;; k" := (bind r (fun _ => k))
  (at level 61, right associativity) : result_scope.
Open Scope result_scope.

(** [raise_if c e]: the Python idiom [if c: raise e]. *)
Definition raise_if (c : bool) (e : error) : result unit :=
  if c then Err e else Ok tt.

Definition is_ok {A} (r : result A) : bool :=
  match r with Ok _ => true | Err _ => false end.

(** The value of a result, [d] when it is an error. *)
Definition unwrap {A} (d : A) (r : result A) : A :=
  match r with Ok a => a | Err _ => d end.

Fixpoint mapM {A B} (f : A -> result B) (l : list A) : result (list B) :=
  match l with
  | [] => Ok []
  | a :: l' => b <- f a ;; bs <- mapM f l' ;; Ok (b :: bs)
  end.

Lemma bind_Ok_inv {A B} (r : result A) (k : A -> result B) (b : B) :
  bind r k = Ok b -> exists a, r = Ok a /\ k a = Ok b.
Proof. destruct r as [a|e]; simpl; [eauto | discriminate]. Qed.

Lemma raise_if_Ok c e u : raise_if c e = Ok u -> c = false.
Proof. destruct c; simpl; [discriminate | reflexivity]. Qed.

(** Inversion of a chain of binds that returned [Ok]. *)
Ltac inv_ok :=
  repeat match goal with
  | H : bind _ _ = Ok _ |- _ =>
      let a := fresh "a" in
      let Ha := fresh "Ha" in
      apply bind_Ok_inv in H; destruct H as (a & Ha & H)
  | H : raise_if _ _ = Ok _ |- _ => apply raise_if_Ok in H
  | H : Ok _ = Ok _ |- _ => injection H as H
  | H : Err _ = Ok _ |- _ => discriminate H
  end.

(** ** Tensors *)

Module Torch.

Record ndarray (A : Type) : Type := mk_ndarray {
  shape : list nat;
  get : list nat -> A
}.

Arguments mk_ndarray {A} shape get.
Arguments shape {A} n.
Arguments get {A} n _.

Section Basics.
Context {A : Type}.

Definition ndim (t : ndarray A) : nat := List.length (shape t).

Definition prod (s : list nat) : nat := fold_right Nat.mul 1 s.

Definition numel (t : ndarray A) : nat := prod (shape t).

  (** [size0 t] is [t.shape[0]]; a 0-dim tensor has none, callers check
      [ndim] first. *)
Definition size0 (t : ndarray A) : nat := hd 0 (shape t).

  (** Python's [len(t)]: a 0-dim tensor raises [TypeError]. *)
Definition len (t : ndarray A) : result nat :=
    match shape t with
    | [] => Err TypeError
    | n :: _ => Ok n
    end.

  (** A multi-index addresses an element when it has one component per axis,
      each below the extent of its axis. *)
Definition in_bounds (s : list nat) (i : list nat) : Prop := Forall2 lt i s.

Fixpoint in_boundsb (s : list nat) (i : list nat) : bool :=
    match i, s with
    | [], [] => true
    | k :: i', d :: s' => (k <? d) && in_boundsb s' i'
    | _, _ => false
    end.

  (** All multi-indices of a shape, in row-major order. *)
Fixpoint indices (s : list nat) : list (list nat) :=
    match s with
    | [] => [[]]
    | d :: s' => flat_map (fun k => map (cons k) (indices s')) (seq 0 d)
    end.

Definition elements (t : ndarray A) : list A :=
    map (get t) (indices (shape t)).

Definition all_entries (p : A -> bool) (t : ndarray A) : bool :=
    forallb p (elements t).

  (** Two tensors are elementwise equal when they have the same elements at
      the same positions. *)
Definition elementwise_equal (a b : ndarray A) : Prop :=
    (forall i, in_bounds (shape a) i <-> in_bounds (shape b) i) /\
    (forall i, in_bounds (shape b) i -> get a i = get b i).

Definition full (s : list nat) (v : A) : ndarray A :=
    mk_ndarray s (fun _ => v).

Definition tmap {B} (f : A -> B) (t : ndarray A) : ndarray B :=
    mk_ndarray (shape t) (fun i => f (get t i)).

End Basics.

Lemma in_boundsb_spec s : forall i, in_boundsb s i = true <-> in_bounds s i.
Proof.
  induction s as [|d s IH]; intros [|k i]; simpl; split; intros H;
    try discriminate; try constructor; try solve [inversion H].
  - apply andb_true_iff in H as [H1 H2]. now apply Nat.ltb_lt.
  - apply andb_true_iff in H as [H1 H2]. now apply IH.
  - inversion H; subst. apply andb_true_iff. split.
    + now apply Nat.ltb_lt.
    + now apply IH.
Qed.

Lemma in_indices s : forall i, In i (indices s) <-> in_bounds s i.
Proof.
  induction s as [|d s IH]; intros i; simpl.
  - split.
    + intros [<-|[]]. constructor.
    + intros H. inversion H. now left.
  - rewrite in_flat_map. split.
    + intros (k & Hk & Hi). apply in_map_iff in Hi as (j & <- & Hj).
      apply in_seq in Hk. constructor; [lia | now apply IH].
    + intros H. inversion H as [|k d' j s' Hk Hj]; subst.
      exists k. split; [apply in_seq; lia |].
      apply in_map. now apply IH.
Qed.

Lemma all_entries_spec {A} (p : A -> bool) (t : ndarray A) :
  all_entries p t = true <->
  forall i, in_bounds (shape t) i -> p (get t i) = true.
Proof.
  unfold all_entries, elements. rewrite forallb_forall. split.
  - intros H i Hi. apply H. apply in_map. now apply in_indices.
  - intros H a Ha. apply in_map_iff in Ha as (i & <- & Hi).
    apply H. now apply in_indices.
Qed.

Lemma elementwise_equal_refl {A} (t : ndarray A) : elementwise_equal t t.
Proof. split; [tauto | reflexivity]. Qed.

(** ** Indexing, broadcasting and reductions *)

Section Ops.
Context {A : Type}.

(** Positions of the [True] entries of a mask. *)
Definition nonzero (mask : list bool) : list nat :=
  filter (fun k => nth k mask false) (seq 0 (length mask)).

(** [t[idx]] for a list [idx] of row numbers (all in range). *)
Definition take_rows (t : ndarray A) (idx : list nat) : ndarray A :=
  mk_ndarray (length idx :: tl (shape t))
    (fun i => match i with
              | [] => get t []
              | j :: r => get t (nth j idx 0 :: r)
              end).

(** [x_packed[mask]] for a boolean [mask] over axis 0. *)
Definition getitem_mask (t : ndarray A) (mask : list bool)
    : result (ndarray A) :=
  raise_if (negb (size0 t =? length mask)) IndexError ;;;
  Ok (take_rows t (nonzero mask)).

(** [x_packed[idx]] for an int64 tensor [idx] without negative entries. *)
Definition getitem_index (t : ndarray A) (idx : list nat)
    : result (ndarray A) :=
  raise_if (existsb (fun k => size0 t <=? k) idx) IndexError ;;;
  Ok (take_rows t idx).

(** Python's index wrap-around: [-n <= z < n] addresses an element of an axis
    of extent [n]. *)
Definition valid_index (n : nat) (z : Z) : bool :=
  ((- Z.of_nat n <=? z) && (z <? Z.of_nat n))%Z.

Definition wrap_index (n : nat) (z : Z) : nat :=
  if (z <? 0)%Z then Z.to_nat (z + Z.of_nat n) else Z.to_nat z.

Definition insert_at {B} (dim : nat) (b : B) (l : list B) : list B :=
  firstn dim l ++ b :: skipn dim l.

Definition remove_at {B} (dim : nat) (l : list B) : list B :=
  firstn dim l ++ skipn (S dim) l.

(** [t[idx]] for an int64 tensor [idx] (advanced indexing along axis 0). *)
Definition getitem_tensor (t : ndarray A) (idx : ndarray Z)
    : result (ndarray A) :=
  raise_if (ndim t =? 0) IndexError ;;;
  raise_if (negb (all_entries (valid_index (size0 t)) idx)) IndexError ;;;
  Ok (mk_ndarray (shape idx ++ tl (shape t))
        (fun i => get t (wrap_index (size0 t) (get idx (firstn (ndim idx) i))
                         :: skipn (ndim idx) i))).

(** [t[:, ..., :, k]] with [dim] full slices before the integer [k]. *)
Definition select (dim : nat) (k : nat) (t : ndarray A) : result (ndarray A) :=
  raise_if (ndim t <=? dim) IndexError ;;;
  raise_if (nth dim (shape t) 0 <=? k) IndexError ;;;
  Ok (mk_ndarray (remove_at dim (shape t))
        (fun i => get t (insert_at dim k i))).

(** [t.unsqueeze(dim)]; [t[:, :, None]] is [unsqueeze 2]. *)
Definition unsqueeze (dim : nat) (t : ndarray A) : result (ndarray A) :=
  raise_if (ndim t <? dim) IndexError ;;;
  Ok (mk_ndarray (insert_at dim 1 (shape t)) (fun i => get t (remove_at dim i))).

(** [t.squeeze(-1)]: drops the last axis when its extent is 1. *)
Definition squeeze_last (t : ndarray A) : ndarray A :=
  let d := ndim t - 1 in
  if (0 <? ndim t) && (nth d (shape t) 0 =? 1)
  then mk_ndarray (remove_at d (shape t)) (fun i => get t (insert_at d 0 i))
  else t.

(** Broadcasting of two shapes, aligned at the last axis (both reversed). *)
Fixpoint broadcast_rev (a b : list nat) : option (list nat) :=
  match a, b with
  | [], _ => Some b
  | _, [] => Some a
  | x :: a', y :: b' =>
      match broadcast_rev a' b' with
      | None => None
      | Some r =>
          if x =? y then Some (x :: r)
          else if x =? 1 then Some (y :: r)
          else if y =? 1 then Some (x :: r)
          else None
      end
  end.

Definition broadcast_shapes (a b : list nat) : option (list nat) :=
  option_map (@rev nat) (broadcast_rev (rev a) (rev b)).

(** The element of an operand of shape [s] that position [i] of the broadcast
    result reads. *)
Definition broadcast_index (s : list nat) (i : list nat) : list nat :=
  map (fun '(d, k) => if d =? 1 then 0 else k)
      (combine s (skipn (length i - length s) i)).

(** [t[mask] = v] for a boolean [mask] over axis 0: [v] is broadcast to the
    selected rows. *)
Definition setitem_mask (t : ndarray A) (mask : list bool) (v : ndarray A)
    : result (ndarray A) :=
  raise_if (ndim t =? 0) IndexError ;;;
  raise_if (negb (size0 t =? length mask)) IndexError ;;;
  let region := length (nonzero mask) :: tl (shape t) in
  raise_if
    (match broadcast_shapes (shape v) region with
     | Some s => if list_eq_dec Nat.eq_dec s region then false else true
     | None => true
     end)
    (RuntimeError "shape mismatch: value tensor cannot be broadcast to indexing result") ;;;
  Ok (mk_ndarray (shape t)
        (fun i =>
           match i with
           | j :: r =>
               if nth j mask false
               then get v (broadcast_index (shape v)
                             (length (nonzero (firstn j mask)) :: r))
               else get t i
           | [] => get t i
           end)).

(** Row-major position of a multi-index, and back. *)
Fixpoint ravel (s : list nat) (i : list nat) : nat :=
  match s, i with
  | _ :: s', k :: i' => k * prod s' + ravel s' i'
  | _, _ => 0
  end.

Fixpoint unravel (s : list nat) (n : nat) : list nat :=
  match s with
  | [] => []
  | _ :: s' => n / prod s' :: unravel s' (n mod prod s')
  end.

(** [t.view(size)] *)
Definition view (t : ndarray A) (size : list nat) : result (ndarray A) :=
  raise_if (negb (prod size =? numel t))
    (RuntimeError "shape is invalid for input size") ;;;
  Ok (mk_ndarray size (fun i => get t (unravel (shape t) (ravel size i)))).

(** [torch.stack(ts, dim)] of three tensors. *)
Definition stack3 (dim : nat) (t0 t1 t2 : ndarray A) : result (ndarray A) :=
  raise_if (negb ((if list_eq_dec Nat.eq_dec (shape t1) (shape t0)
                   then true else false) &&
                  (if list_eq_dec Nat.eq_dec (shape t2) (shape t0)
                   then true else false)))
    (RuntimeError "stack expects each tensor to be equal size") ;;;
  raise_if (ndim t0 <? dim) IndexError ;;;
  Ok (mk_ndarray (insert_at dim 3 (shape t0))
        (fun i => get (match nth dim i 0 with
                       | 0 => t0
                       | 1 => t1
                       | _ => t2
                       end) (remove_at dim i))).

(** [torch.gather(input, dim, index)] *)
Definition gather_fits (dim : nat) (idx inp : list nat) : bool :=
  forallb (fun '(d, (a, b)) => (d =? dim) || (a <=? b))
          (combine (seq 0 (length idx)) (combine idx inp)).

Definition gather (input : ndarray A) (dim : nat) (index : ndarray Z)
    : result (ndarray A) :=
  raise_if (negb (ndim input =? ndim index))
    (RuntimeError "Index tensor must have the same number of dimensions as input tensor") ;;;
  raise_if (ndim input <=? dim) IndexError ;;;
  raise_if (negb (gather_fits dim (shape index) (shape input)))
    (RuntimeError "Size does not match at dimension") ;;;
  raise_if (negb (all_entries
                    (fun z => (0 <=? z)%Z &&
                              (z <? Z.of_nat (nth dim (shape input) 0%nat))%Z)
                    index))
    (RuntimeError "index out of range in gather") ;;;
  Ok (mk_ndarray (shape index)
        (fun i => get input (firstn dim i ++ Z.to_nat (get index i)
                             :: skipn (S dim) i))).

(** An elementwise binary operation with broadcasting. *)
Definition map2 {B C} (f : A -> B -> C) (a : ndarray A) (b : ndarray B)
    : result (ndarray C) :=
  match broadcast_shapes (shape a) (shape b) with
  | None => Err (RuntimeError "The size of tensor a must match the size of tensor b")
  | Some s =>
      Ok (mk_ndarray s
            (fun i => f (get a (broadcast_index (shape a) i))
                        (get b (broadcast_index (shape b) i))))
  end.

(** The values along axis [dim] at the position [i] of the reduced tensor. *)
Definition along (dim : nat) (t : ndarray A) (i : list nat) : list A :=
  map (fun k => get t (insert_at dim k i)) (seq 0 (nth dim (shape t) 0)).

(** A reduction over axis [dim]; [keepdim] keeps the axis with extent 1. *)
Definition reduce {B} (f : list A -> B) (dim : nat) (keepdim : bool)
    (t : ndarray A) : result (ndarray B) :=
  raise_if (ndim t <=? dim) IndexError ;;;
  Ok (if keepdim
      then mk_ndarray (firstn dim (shape t) ++ 1 :: skipn (S dim) (shape t))
             (fun i => f (along dim t (remove_at dim i)))
      else mk_ndarray (remove_at dim (shape t)) (fun i => f (along dim t i))).

End Ops.

End Torch.

(** ** pytorch3d/structures/utils.py *)

Module StructUtils.
Import Torch.

Definition shape_eq_dec : forall a b : list nat, {a = b} + {a <> b} :=
  list_eq_dec Nat.eq_dec.

(** [l[i] = v] on a Python list or 1-D tensor, for [i] in range. *)
Fixpoint set_nth {B} (i : nat) (v : B) (l : list B) : list B :=
  match l, i with
  | [], _ => []
  | _ :: l', O => v :: l'
  | b :: l', S i' => b :: set_nth i' v l'
  end.

(** The [split_size] argument of [packed_to_list]: an int or a list of ints. *)
Inductive split_arg : Type :=
| SplitInt (n : Z)
| SplitSizes (l : list Z).

Section Packed.
Context {A : Type}.

  (** *** torch.cat(ts, dim=0) *)

  (** Element [k :: r] of the concatenation: walk the list, skipping the
      leading extents. *)
Fixpoint cat_get (d : list nat -> A) (ts : list (ndarray A)) (k : nat)
      (r : list nat) : A :=
    match ts with
    | [] => d (k :: r)
    | t :: ts' =>
        if k <? size0 t then get t (k :: r)
        else cat_get d ts' (k - size0 t) r
    end.

  (** torch skips 1-D tensors without elements (shape [(0,)]) in [cat]. *)
Definition legacy_empty (t : ndarray A) : bool :=
    if shape_eq_dec (shape t) [0] then true else false.

Definition cat (ts : list (ndarray A)) : result (ndarray A) :=
  match ts with
  | [] => Err (RuntimeError "torch.cat(): expected a non-empty list of Tensors")
  | t0 :: _ =>
      raise_if (existsb (fun t => ndim t =? 0) ts)
        (RuntimeError "zero-dimensional tensor cannot be concatenated") ;;;
      let total := list_sum (map size0 ts) in
      let elems := fun i => match i with
                            | [] => get t0 []
                            | k :: r => cat_get (get t0) ts k r
                            end in
      match filter (fun t => negb (legacy_empty t)) ts with
      | [] => Ok (mk_ndarray [0] elems)
      | t1 :: rest =>
          raise_if
            (negb (forallb
               (fun t => if shape_eq_dec (tl (shape t)) (tl (shape t1))
                         then true else false) rest))
            (RuntimeError "Sizes of tensors must match except in dimension 0") ;;;
          Ok (mk_ndarray (total :: tl (shape t1)) elems)
      end
  end.

  (** *** Tensor.split(split_size, dim=0) *)

Fixpoint chunks (x : ndarray A) (off : nat) (sizes : list nat)
      : list (ndarray A) :=
    match sizes with
    | [] => []
    | s :: sizes' =>
        mk_ndarray (s :: tl (shape x))
          (fun i => match i with
                    | [] => get x []
                    | k :: r => get x ((off + k) :: r)
                    end)
        :: chunks x (off + s) sizes'
    end.

  (** Chunk sizes of [split] with an int: equal chunks, the last one smaller;
      one chunk when the axis is empty. *)
Definition int_split_sizes (n s : nat) : list nat :=
    match s with
    | O => [0]
    | _ =>
        let num_splits := Nat.max ((n + s - 1) / s) 1 in
        repeat s (num_splits - 1) ++ [n - s * (num_splits - 1)]
    end.

Definition split (x : ndarray A) (split_size : split_arg)
      : result (list (ndarray A)) :=
    match shape x with
    | [] => Err (RuntimeError "split expects at least a 1-dimensional tensor")
    | n :: _ =>
        match split_size with
        | SplitSizes l =>
            raise_if (existsb (fun z => z <? 0)%Z l)
              (RuntimeError "split_with_sizes expects split_sizes have only non-negative entries") ;;;
            raise_if (negb (fold_right Z.add 0%Z l =? Z.of_nat n)%Z)
              (RuntimeError "split_with_sizes expects split_sizes to sum exactly to the size of the dimension") ;;;
            Ok (chunks x 0 (map Z.to_nat l))
        | SplitInt s =>
            raise_if (s <? 0)%Z
              (RuntimeError "split expects split_size be non-negative") ;;;
            raise_if ((s =? 0)%Z && negb (n =? 0))
              (RuntimeError "split_size can only be 0 if dimension size is 0") ;;;
            Ok (chunks x 0 (int_split_sizes n (Z.to_nat s)))
        end
    end.

  (** *** list_to_packed *)

Record packed : Type := mk_packed {
    x_packed : ndarray A;
    num_items : list Z;
    item_packed_first_idx : list Z;
    item_packed_to_list_idx : list Z
  }.

  (** State of the [for i, y in enumerate(x)] loop: [num_items],
      [item_packed_first_idx], the list [item_packed_to_list_idx] of 1-D
      tensors, and [cur]. *)
Definition loop_state : Type := (list Z * list Z * list (list Z) * nat)%type.

Fixpoint list_to_packed_loop (i : nat) (ys : list (ndarray A))
      (st : loop_state) : result loop_state :=
    match ys with
    | [] => Ok st
    | y :: ys' =>
        let '(num_items, first_idx, to_list_idx, cur) := st in
        num <- len y ;;
        list_to_packed_loop (S i) ys'
          (set_nth i (Z.of_nat num) num_items,
           set_nth i (Z.of_nat cur) first_idx,
           to_list_idx ++ [repeat (Z.of_nat i) num],
           cur + num)
    end.

Definition list_to_packed (x : list (ndarray A)) : result packed :=
    match x with
    | [] => Err IndexError (* x[0].device *)
    | _ :: _ =>
        let N := List.length x in
        st <- list_to_packed_loop 0 x (repeat 0%Z N, repeat 0%Z N, [], 0) ;;
        let '(num_items, first_idx, to_list_idx, _) := st in
        x_packed <- cat x ;;
        Ok (mk_packed x_packed num_items first_idx (concat to_list_idx))
    end.

  (** *** packed_to_list *)

Definition packed_to_list (x : ndarray A) (split_size : split_arg)
      : result (list (ndarray A)) :=
    split x split_size.

End Packed.

(** *** list_to_padded *)

(** One entry of [split_size] in [padded_to_list]: an int (axis 0 only) or a
    tuple of ints (one per leading axis). *)
Inductive split_item : Type :=
| SizeInt (s : Z)
| SizeTuple (l : list Z).

(** Python's [max] over a generator: [ValueError] when it yields nothing. *)
Definition py_max (l : list nat) : result nat :=
  match l with
  | [] => Err (ValueError "max() arg is an empty sequence")
  | a :: l' => Ok (fold_left Nat.max l' a)
  end.

(** The stop of [slice(0, s)] on an axis of extent [n]. *)
Definition slice_stop (s : Z) (n : nat) : nat :=
  if (s <? 0)%Z then Z.to_nat (Z.of_nat n + s) else Nat.min (Z.to_nat s) n.

Fixpoint slice_shape (stops : list Z) (s : list nat) : list nat :=
  match stops, s with
  | stop :: stops', n :: s' => slice_stop stop n :: slice_shape stops' s'
  | _, _ => s
  end.

Fixpoint fits (src dst : list nat) : bool :=
  match src, dst with
  | [], [] => true
  | a :: src', b :: dst' => ((a <=? b) || (a =? 1)) && fits src' dst'
  | _, _ => false
  end.

Section Padded.
Context {A : Type}.

(** [torch.stack(x, 0)] *)
Definition stack (x : list (ndarray A)) : result (ndarray A) :=
  match x with
  | [] => Err (RuntimeError "stack expects a non-empty TensorList")
  | x0 :: _ =>
      raise_if
        (negb (forallb (fun y => if shape_eq_dec (shape y) (shape x0)
                                 then true else false) x))
        (RuntimeError "stack expects each tensor to be equal size") ;;;
      Ok (mk_ndarray (length x :: shape x0)
            (fun i => match i with
                      | [] => get x0 []
                      | k :: r => get (nth k x x0) r
                      end))
  end.

(** [t[slice(0, s_1), ..., slice(0, s_k)]]: more slices than axes is an
    [IndexError]. *)
Definition slice_prefix (stops : list Z) (t : ndarray A) : result (ndarray A) :=
  raise_if (ndim t <? length stops) IndexError ;;;
  Ok (mk_ndarray (slice_shape stops (shape t)) (get t)).

(** [x_padded[(i, slice(0, y.shape[0]), ..., slice(0, y.shape[-1]))] = y], for
    [y] with one axis less than [x_padded] (both callers ensure it).  [y] must
    fit the region or broadcast to it. *)
Definition setitem_prefix (x_padded : ndarray A) (i : nat) (y : ndarray A)
    : result (ndarray A) :=
  match shape x_padded with
  | [] => Err IndexError
  | N :: dims =>
      raise_if (negb (i <? N)) IndexError ;;;
      raise_if (negb (ndim y =? length dims)) IndexError ;;;
      raise_if (negb (fits (shape y) dims))
        (RuntimeError "The expanded size of the tensor must match the existing size") ;;;
      Ok (mk_ndarray (shape x_padded)
            (fun idx =>
               match idx with
               | j :: r =>
                   if (j =? i) && in_boundsb (shape y) r && in_boundsb dims r
                   then get y r
                   else get x_padded idx
               | [] => get x_padded idx
               end))
  end.

(** The loop [for i, y in enumerate(x): if len(y) > 0: x_padded[slices] = y]. *)
Fixpoint fill_loop (i : nat) (ys : list (ndarray A)) (x_padded : ndarray A)
    : result (ndarray A) :=
  match ys with
  | [] => Ok x_padded
  | y :: ys' =>
      n <- len y ;;
      x_padded' <- (if 0 <? n then setitem_prefix x_padded i y
                    else Ok x_padded) ;;
      fill_loop (S i) ys' x_padded'
  end.

(** [x[i * chunk_size : (i + 1) * chunk_size] for i in range(n_chunks)] *)
Definition chunk_list (x : list (ndarray A)) (chunk_size n_chunks : nat)
    : list (list (ndarray A)) :=
  map (fun i => firstn chunk_size (skipn (i * chunk_size) x)) (seq 0 n_chunks).

(** [y.new_zeros([0] * element_ndim) if (y.ndim == 1 and y.nelement() == 0)
    else y] *)
Definition fix_empty (element_ndim : nat) (y : ndarray A) : ndarray A :=
  if (ndim y =? 1) && (numel y =? 0)
  then mk_ndarray (repeat 0 element_ndim) (get y)
  else y.

(** [[max(y.shape[dim] for y in x if len(y) > 0) for dim in range(nd)]] *)
Definition max_dims (x : list (ndarray A)) (nd : nat) : result (list nat) :=
  mapM (fun dim => py_max
          (map (fun y => nth dim (shape y) 0)
               (filter (fun y => 0 <? size0 y) x)))
       (seq 0 nd).

(** The body of [list_to_padded]; [recurse] is the call
    [list_to_padded(chunk, pad_size[1:], pad_value, equisized)]. *)
Definition list_to_padded_body
    (recurse : list (ndarray A) -> result (ndarray A))
    (x : list (ndarray A)) (pad_size : option (list nat)) (pad_value : A)
    (equisized : bool) : result (ndarray A) :=
  match x with
  | [] => Err IndexError (* x[0].ndim *)
  | x0 :: _ =>
      let ydim := ndim x0 in
      fast <- (if equisized then
                 match pad_size with
                 | None => Err TypeError (* len(None) *)
                 | Some ps => Ok (ydim =? length ps)
                 end
               else Ok false) ;;
      if fast then stack x
      else
        (* all items are tensors: nothing else inhabits [ndarray A] *)
        let element_ndim := fold_left Nat.max (map ndim x) 0 in
        let x := map (fix_empty element_ndim) x in
        let x0' := hd x0 x in
        raise_if (existsb (fun y => negb (ndim y =? ndim x0')) x)
          (ValueError "All items have to have the same number of dimensions!") ;;;
        x_dims <-
          match pad_size with
          | None =>
              (* len(y) cannot raise here: every y has the rank of x[0], and
                 the generator only runs when that rank is not 0 *)
              pad_dims <- max_dims x (ndim x0') ;;
              Ok (x, pad_dims)
          | Some ps =>
              x <- (if ydim <? length ps then
                      (* torch.prod over an empty slice is the float 1.0, and
                         range(n_chunks) refuses a float *)
                      raise_if (ydim =? 0) TypeError ;;;
                      let chunk_size := prod (firstn (length ps - ydim) ps) in
                      raise_if (chunk_size =? 0) ZeroDivisionError ;;;
                      raise_if (negb (length x mod chunk_size =? 0))
                        AssertionError ;;;
                      let n_chunks := length x / chunk_size in
                      mapM recurse (chunk_list x chunk_size n_chunks)
                    else Ok x) ;;
              raise_if (existsb (fun y => negb (length ps =? ndim y)) x)
                (ValueError "Pad size must contain target size for all dimensions.") ;;;
              Ok (x, ps)
          end ;;
        let '(x, pad_dims) := x_dims in
        match x with
        | [] => Err IndexError (* x[0].new_full *)
        | _ :: _ =>
            let N := length x in
            fill_loop 0 x (full (N :: pad_dims) pad_value)
        end
  end.

Fixpoint list_to_padded_sized (pad_size : list nat) (x : list (ndarray A))
    (pad_value : A) (equisized : bool) : result (ndarray A) :=
  list_to_padded_body
    (fun chunk =>
       match pad_size with
       | [] => Err IndexError (* not reached: needs len(pad_size) > ydim *)
       | _ :: rest => list_to_padded_sized rest chunk pad_value equisized
       end)
    x (Some pad_size) pad_value equisized.

Definition list_to_padded (x : list (ndarray A)) (pad_size : option (list nat))
    (pad_value : A) (equisized : bool) : result (ndarray A) :=
  match pad_size with
  | None =>
      list_to_padded_body (fun _ => Err IndexError) x None pad_value equisized
  | Some ps => list_to_padded_sized ps x pad_value equisized
  end.

(** *** padded_to_list *)

(** [x.unbind(0)] *)
Definition unbind (x : ndarray A) : result (list (ndarray A)) :=
  match shape x with
  | [] => Err IndexError
  | N :: dims =>
      Ok (map (fun i => mk_ndarray dims (fun r => get x (i :: r))) (seq 0 N))
  end.

Definition padded_to_list (x : ndarray A) (split_size : option (list split_item))
    : result (list (ndarray A)) :=
  x_list <- unbind x ;;
  match split_size with
  | None => Ok x_list
  | Some split_size =>
      let N := length split_size in
      raise_if (negb (size0 x =? N))
        (ValueError "Split size must be of same length as inputs first dimension") ;;;
      (* for i in range(N): x_list[i] = x_list[i][...] *)
      mapM (fun '(x_i, s) =>
              match s with
              | SizeInt n => slice_prefix [n] x_i
              | SizeTuple l => slice_prefix l x_i
              end)
           (combine x_list split_size)
  end.

End Padded.

(** *** padded_to_packed *)

Section PaddedToPacked.
Context {A : Type}.
Variable A_eq_dec : forall a b : A, {a = b} + {a <> b}.

(** [x.reshape(-1, D)] of a tensor of shape [(N, M, D)]: with [D = 0] the
    extent standing for [-1] is ambiguous and torch raises. *)
Definition reshape_rows (x : ndarray A) (M D : nat) (N : nat)
    : result (ndarray A) :=
  raise_if (D =? 0)
    (RuntimeError "cannot reshape tensor of 0 elements into shape [-1, 0]") ;;;
  Ok (mk_ndarray [N * M; D]
        (fun i => match i with
                  | [k; d] => get x [k / M; k mod M; d]
                  | _ => get x i
                  end)).

(** [x_packed.ne(pad_value).any(-1)], as the list of its [N * M] entries. *)
Definition ne_any (x_packed : ndarray A) (pad_value : A) : list bool :=
  map (fun k =>
         existsb (fun d => if A_eq_dec (get x_packed [k; d]) pad_value
                           then false else true)
                 (seq 0 (nth 1 (shape x_packed) 0)))
      (seq 0 (size0 x_packed)).

(** [torch.arange(v)] *)
Definition arange (v : Z) : result (list nat) :=
  raise_if (v <? 0)%Z
    (RuntimeError "upper bound and larger bound inconsistent with step sign") ;;;
  Ok (seq 0 (Z.to_nat v)).

Definition is_int (s : split_item) : bool :=
  match s with SizeInt _ => true | SizeTuple _ => false end.

Definition int_of (s : split_item) : Z :=
  match s with SizeInt v => v | SizeTuple _ => 0%Z end.

(** [torch.cat([torch.arange(v) + i * M for (i, v) in enumerate(split_size)])] *)
Fixpoint padded_to_packed_idx (M : nat) (i : nat) (split_size : list split_item)
    : result (list nat) :=
  match split_size with
  | [] => Ok []
  | s :: rest =>
      r <- arange (int_of s) ;;
      idx <- padded_to_packed_idx M (S i) rest ;;
      Ok (map (fun m => m + i * M) r ++ idx)
  end.

Definition padded_to_packed (x : ndarray A)
    (split_size : option (list split_item)) (pad_value : option A)
    : result (ndarray A) :=
  match shape x with
  | [N; M; D] =>
      raise_if (match split_size, pad_value with
                | Some _, Some _ => true
                | _, _ => false
                end)
        (ValueError "Only one of split_size or pad_value should be provided.") ;;;
      x_packed <- reshape_rows x M D N ;;
      match pad_value, split_size with
      | None, None => Ok x_packed
      | Some pad_value, _ =>
          getitem_mask x_packed (ne_any x_packed pad_value)
      | None, Some split_size =>
          raise_if (negb (N =? length split_size))
            (ValueError "Split size must be of same length as inputs first dimension") ;;;
          raise_if (negb (forallb is_int split_size))
            (ValueError "Support only 1-dimensional unbinded tensor. Split size for more dimensions provided") ;;;
          raise_if (length split_size =? 0)
            (RuntimeError "torch.cat(): expected a non-empty list of Tensors") ;;;
          padded_to_packed_idx <- padded_to_packed_idx M 0 split_size ;;
          getitem_index x_packed padded_to_packed_idx
      end
  | _ => Err (ValueError "Supports only 3-dimensional input tensors")
  end.

(** The rows of a rank-2 tensor, and row [m] of item [i] of a rank-3 one. *)
Definition rows (t : ndarray A) : list (list A) :=
  map (fun k => map (fun d => get t [k; d]) (seq 0 (nth 1 (shape t) 0)))
      (seq 0 (size0 t)).

Definition row_of_item (x : ndarray A) (i m : nat) : list A :=
  map (fun d => get x [i; m; d]) (seq 0 (nth 2 (shape x) 0)).

(** Row [k] of the flattening is row [k mod M] of item [k / M]. *)
Definition flat_row (x : ndarray A) (k : nat) : list A :=
  let M := nth 1 (shape x) 0 in
  row_of_item x (k / M) (k mod M).

(** A row is padding when it equals the pad value on every channel. *)
Definition is_padding (pad_value : A) (row : list A) : bool :=
  forallb (fun a => if A_eq_dec a pad_value then true else false) row.

End PaddedToPacked.

(** *** Round trip: packing then unpacking *)

Section PackedFacts.
Context {A : Type}.

Lemma set_nth_length {B} (v : B) : forall l i, length (set_nth i v l) = length l.
Proof. induction l as [|b l IH]; intros [|i]; simpl; auto. Qed.

Lemma firstn_set_nth {B} (v : B) : forall l i,
  i < length l -> firstn (S i) (set_nth i v l) = firstn i l ++ [v].
Proof.
  induction l as [|b l IH]; intros [|i] Hi; simpl in *; try lia; auto.
  f_equal. apply IH. lia.
Qed.

Lemma len_Ok (y : ndarray A) n : len y = Ok n -> size0 y = n /\ ndim y <> 0.
Proof.
  unfold len, size0, ndim. destruct (shape y); simpl; intros H;
    [discriminate | injection H as ->; split; [reflexivity | discriminate]].
Qed.

(** The loop fills [num_items] with the items' lengths, in order. *)
Lemma list_to_packed_loop_num_items : forall (ys : list (ndarray A)) i ni fi il cur st,
  list_to_packed_loop i ys (ni, fi, il, cur) = Ok st ->
  length ni = i + length ys ->
  fst (fst (fst st)) = firstn i ni ++ map (fun y => Z.of_nat (size0 y)) ys.
Proof.
  induction ys as [|y ys IH]; intros i ni fi il cur st H Hlen; simpl in *.
  - injection H as <-. simpl. rewrite app_nil_r.
    rewrite firstn_all2; [reflexivity | lia].
  - inv_ok. apply len_Ok in Ha as [Hy _]. subst a.
    apply IH in H; [| rewrite set_nth_length; lia].
    rewrite H, firstn_set_nth by lia.
    now rewrite <- app_assoc.
Qed.

(** Where an item's elements lie in the concatenation. *)
Lemma cat_get_app d : forall (pre : list (ndarray A)) t post k r,
  k < size0 t ->
  cat_get d (pre ++ t :: post) (list_sum (map size0 pre) + k) r = get t (k :: r).
Proof.
  induction pre as [|p pre IH]; intros t post k r Hk; simpl.
  - apply Nat.ltb_lt in Hk. now rewrite Hk.
  - destruct (Nat.ltb_spec (size0 p + list_sum (map size0 pre) + k) (size0 p));
      [lia |].
    replace (size0 p + list_sum (map size0 pre) + k - size0 p)
      with (list_sum (map size0 pre) + k) by lia.
    now apply IH.
Qed.

Lemma legacy_empty_true (t : ndarray A) : legacy_empty t = true -> shape t = [0].
Proof. unfold legacy_empty. now destruct (shape_eq_dec (shape t) [0]). Qed.

Lemma legacy_empty_false (t : ndarray A) : legacy_empty t = false -> shape t <> [0].
Proof. unfold legacy_empty. now destruct (shape_eq_dec (shape t) [0]). Qed.

(** What [cat] returns: the extents add up, every item is a 1-D tensor without
    elements or has the common trailing shape, and elements are found by
    [cat_get]. *)
Lemma cat_Ok (ts : list (ndarray A)) p :
  cat ts = Ok p ->
  exists trailing d,
    shape p = list_sum (map size0 ts) :: trailing /\
    Forall (fun t => ndim t <> 0 /\
                     (shape t = [0] \/ tl (shape t) = trailing)) ts /\
    forall k r, get p (k :: r) = cat_get d ts k r.
Proof.
  unfold cat. destruct ts as [|t0 ts0]; [discriminate |].
  set (ts := t0 :: ts0). intros H. inv_ok.
  assert (Hnd : Forall (fun t : ndarray A => ndim t <> 0) ts).
  { apply Forall_forall. intros t Ht Hz.
    assert (existsb (fun t : ndarray A => ndim t =? 0) ts = true) as Hex.
    { apply existsb_exists. exists t. split; [exact Ht | now apply Nat.eqb_eq]. }
    congruence. }
  assert (Hleg : forall t, In t ts -> legacy_empty t = false ->
                 In t (filter (fun t => negb (legacy_empty t)) ts)).
  { intros t Ht Hl. apply filter_In. split; [exact Ht | now rewrite Hl]. }
  destruct (filter (fun t => negb (legacy_empty t)) ts) as [|t1 rest] eqn:Hf.
  - injection H as <-. exists [], (get t0). cbn [shape get].
    assert (Hall : Forall (fun t : ndarray A => shape t = [0]) ts).
    { apply Forall_forall. intros t Ht.
      destruct (legacy_empty t) eqn:Hl; [now apply legacy_empty_true |].
      destruct (Hleg t Ht Hl). }
    split; [| split].
    + f_equal. clear - Hall. induction Hall as [|t l Ht _ IH]; simpl; [reflexivity |].
      unfold size0 at 1. rewrite Ht. simpl. exact IH.
    + apply Forall_forall. intros t Ht. split.
      * eapply Forall_forall in Hnd; eauto.
      * left. eapply Forall_forall in Hall; eauto.
    + reflexivity.
  - inv_ok. subst p. exists (tl (shape t1)), (get t0). cbn [shape get].
    apply negb_false_iff in Ha0. rewrite forallb_forall in Ha0.
    split; [reflexivity | split; [| reflexivity]].
    apply Forall_forall. intros t Ht. split.
    + eapply Forall_forall in Hnd; eauto.
    + destruct (legacy_empty t) eqn:Hl; [left; now apply legacy_empty_true |].
      right. destruct (Hleg t Ht Hl) as [<- | Hin]; [reflexivity |].
      apply Ha0 in Hin. now destruct (shape_eq_dec (tl (shape t)) (tl (shape t1))).
Qed.

Lemma in_bounds_cons_inv (s : list nat) (i : list nat) n :
  in_bounds (n :: s) i -> exists k r, i = k :: r /\ k < n /\ in_bounds s r.
Proof. intros H. inversion H; subst. eauto. Qed.





(** [list_to_packed] returns exactly on the lists [cat] accepts. *)
Lemma list_to_packed_Ok (x : list (ndarray A)) p :
  list_to_packed x = Ok p ->
  cat x = Ok (x_packed p) /\
  num_items p = map Z.of_nat (map size0 x).
Proof.
  unfold list_to_packed. destruct x as [|t0 ts0]; [discriminate |].
  set (x := t0 :: ts0). intros H. inv_ok.
  destruct a as [[[ni fi] il] cur]. inv_ok. subst p. cbn [x_packed num_items].
  split; [exact Ha0 |].
  apply list_to_packed_loop_num_items in Ha;
    [| rewrite repeat_length; reflexivity].
  simpl in Ha. now rewrite map_map.
Qed.

End PackedFacts.


(** Two items of lengths 2 and 1, packed. *)
Definition two_items : list (ndarray Z) :=
  [ mk_ndarray [2; 1] (fun i => match i with [k; _] => Z.of_nat (k + 1) | _ => 0 end)%Z;
    mk_ndarray [1; 1] (fun _ => 9%Z) ].

Definition two_items_packed : packed :=
  match list_to_packed two_items with
  | Ok p => p
  | Err _ => mk_packed (full [] 0%Z) [] [] []
  end.


(** *** Round trip: padding then unpadding *)

Section PaddedFacts.
Context {A : Type}.

Lemma mapM_length {B C} (f : B -> result C) : forall l r,
  mapM f l = Ok r -> length r = length l.
Proof.
  induction l as [|b l IH]; intros r H; simpl in H.
  - now injection H as <-.
  - inv_ok. subst r. simpl. f_equal. now apply IH.
Qed.

Lemma mapM_nth {B C} (f : B -> result C) (dB : B) (dC : C) : forall l r,
  mapM f l = Ok r ->
  forall k, k < length l -> f (nth k l dB) = Ok (nth k r dC).
Proof.
  induction l as [|b l IH]; intros r H k Hk; simpl in *; [lia |].
  inv_ok. subst r. destruct k as [|k]; simpl; [exact Ha |].
  apply IH; [exact Ha0 | lia].
Qed.

Lemma fold_left_max_ge : forall l a,
  a <= fold_left Nat.max l a /\ Forall (fun b => b <= fold_left Nat.max l a) l.
Proof.
  induction l as [|b l IH]; intros a; simpl; [split; [lia | constructor] |].
  destruct (IH (Nat.max a b)) as [H1 H2]. split; [lia |].
  constructor; [lia | exact H2].
Qed.

Lemma py_max_ge l m : py_max l = Ok m -> Forall (fun a => a <= m) l.
Proof.
  destruct l as [|a l]; simpl; intros H; [discriminate |].
  injection H as <-. destruct (fold_left_max_ge l a) as [H1 H2].
  now constructor.
Qed.

(** The maxima taken by [max_dims] dominate the shape of every item that is
    not empty along its first axis. *)
Lemma max_dims_bound (x : list (ndarray A)) nd pad_dims :
  max_dims x nd = Ok pad_dims ->
  length pad_dims = nd /\
  forall y, In y x -> 0 < size0 y ->
  forall dim, dim < nd -> nth dim (shape y) 0 <= nth dim pad_dims 0.
Proof.
  unfold max_dims. intros H. split.
  - apply mapM_length in H. now rewrite length_seq in H.
  - intros y Hy Hs dim Hd.
    apply mapM_nth with (dB := 0) (dC := 0) (k := dim) in H;
      [| now rewrite length_seq].
    rewrite seq_nth in H by exact Hd. simpl in H.
    apply py_max_ge in H. rewrite Forall_forall in H. apply H.
    apply in_map_iff. exists y. split; [reflexivity |].
    apply filter_In. split; [exact Hy | now apply Nat.ltb_lt].
Qed.

Lemma Forall2_le_nth : forall (a b : list nat),
  length a = length b ->
  (forall dim, dim < length a -> nth dim a 0 <= nth dim b 0) ->
  Forall2 le a b.
Proof.
  induction a as [|n a IH]; intros [|m b] Hl H; simpl in *; try discriminate;
    constructor.
  - apply (H 0). lia.
  - apply IH; [lia |]. intros dim Hd. apply (H (S dim)). lia.
Qed.

Lemma fits_le : forall s P, Forall2 le s P -> fits s P = true.
Proof.
  induction 1 as [|a b s P Hab _ IH]; simpl; [reflexivity |].
  rewrite IH, andb_true_r. apply orb_true_iff. left. now apply Nat.leb_le.
Qed.

Lemma in_bounds_le : forall s P r,
  Forall2 le s P -> in_bounds s r -> in_bounds P r.
Proof.
  intros s P r H. revert r. induction H as [|a b s P Hab _ IH]; intros r Hr;
    inversion Hr; subst; constructor; [lia | now apply IH].
Qed.

Lemma slice_shape_le : forall s P,
  Forall2 le s P -> slice_shape (map Z.of_nat s) P = s.
Proof.
  induction 1 as [|a b s P Hab _ IH]; simpl; [reflexivity |].
  rewrite IH. f_equal. unfold slice_stop.
  destruct (Z.ltb_spec (Z.of_nat a) 0); lia.
Qed.

(** What the slice assignment writes and what it leaves. *)
Lemma setitem_prefix_Ok (t : ndarray A) i y t' :
  setitem_prefix t i y = Ok t' ->
  shape t' = shape t /\
  (forall j r, j <> i -> get t' (j :: r) = get t (j :: r)) /\
  (forall r, in_bounds (shape y) r -> in_bounds (tl (shape t)) r ->
             get t' (i :: r) = get y r).
Proof.
  unfold setitem_prefix. destruct (shape t) as [|N dims] eqn:Ht; [discriminate |].
  intros H. inv_ok. subst t'. cbn [shape get tl]. split; [easy | split].
  - intros j r Hj. apply Nat.eqb_neq in Hj. now rewrite Hj.
  - intros r Hy Hd. apply in_boundsb_spec in Hy, Hd.
    now rewrite Nat.eqb_refl, Hy, Hd.
Qed.

Lemma fill_loop_frame : forall (ys : list (ndarray A)) i t p,
  fill_loop i ys t = Ok p ->
  shape p = shape t /\
  Forall (fun y => ndim y <> 0) ys /\
  forall j r, j < i -> get p (j :: r) = get t (j :: r).
Proof.
  induction ys as [|y ys IH]; intros i t p H; simpl in H.
  - injection H as <-. repeat split. constructor.
  - inv_ok. apply len_Ok in Ha as [Hs Hnd].
    apply IH in H as (Hsh & Hall & Hfr).
    assert (Ht : shape a0 = shape t /\
                 forall j r, j < i -> get a0 (j :: r) = get t (j :: r)).
    { destruct (0 <? a).
      - apply setitem_prefix_Ok in Ha0 as (E1 & E2 & _). split; [exact E1 |].
        intros j r Hj. apply E2. lia.
      - injection Ha0 as <-. now split. }
    destruct Ht as [Ht1 Ht2]. split; [congruence | split].
    + now constructor.
    + intros j r Hj. rewrite Hfr by lia. now apply Ht2.
Qed.

(** After the loop, the region of every item that is not empty along its
    first axis holds the item. *)
Lemma fill_loop_written : forall (ys : list (ndarray A)) i t p,
  fill_loop i ys t = Ok p ->
  forall k y, nth_error ys k = Some y -> 0 < size0 y ->
  forall r, in_bounds (shape y) r -> in_bounds (tl (shape t)) r ->
            get p ((i + k) :: r) = get y r.
Proof.
  induction ys as [|y0 ys IH]; intros i t p H k y Hk Hs r Hy Ht; simpl in H.
  - destruct k; discriminate.
  - inv_ok. apply len_Ok in Ha as [Hs0 _]. destruct k as [|k]; simpl in Hk.
    + injection Hk as ->. rewrite Hs0 in Hs. apply Nat.ltb_lt in Hs.
      rewrite Hs in Ha0. rewrite Nat.add_0_r.
      apply fill_loop_frame in H as (_ & _ & Hfr). rewrite Hfr by lia.
      apply setitem_prefix_Ok in Ha0 as (_ & _ & Hw). now apply Hw.
    + replace (i + S k) with (S i + k) by lia.
      eapply IH; eauto.
      assert (E : shape a0 = shape t).
      { destruct (0 <? a).
        - now apply setitem_prefix_Ok in Ha0 as (E1 & _).
        - now injection Ha0 as <-. }
      now rewrite E.
Qed.

Lemma fix_empty_nonempty e (y : ndarray A) :
  0 < size0 y -> fix_empty e y = y.
Proof.
  unfold fix_empty, size0, ndim, numel. intros H.
  destruct (shape y) as [|n [|m s']]; simpl in *; [lia | | reflexivity].
  destruct (Nat.eqb_spec (n * 1) 0); [lia | reflexivity].
Qed.

Lemma fix_empty_ndim e (y : ndarray A) nd :
  ndim (fix_empty e y) = nd -> nd <> 0 -> ndim y <> 0 /\ ndim y <= nd.
Proof.
  unfold fix_empty. intros H Hnd.
  destruct (Nat.eqb_spec (ndim y) 1) as [E | E]; simpl in H.
  - rewrite E. lia.
  - subst nd. lia.
Qed.

(** What a returning call [list_to_padded(x, None, pad_value, False)] did. *)
Lemma list_to_padded_None_inv (x : list (ndarray A)) v p :
  list_to_padded x None v false = Ok p ->
  exists nd pad_dims,
    let x' := map (fix_empty (fold_left Nat.max (map ndim x) 0)) x in
    x <> [] /\
    Forall (fun y => ndim y = nd) x' /\
    max_dims x' nd = Ok pad_dims /\
    fill_loop 0 x' (full (length x' :: pad_dims) v) = Ok p.
Proof.
  unfold list_to_padded, list_to_padded_body.
  destruct x as [|x0 xs]; [discriminate |].
  set (x := x0 :: xs). set (e := fold_left Nat.max (map ndim x) 0).
  cbn [bind]. intros H. inv_ok. subst a0.
  exists (ndim (hd x0 (map (fix_empty e) x))), a1. cbn zeta.
  split; [discriminate | split; [| split; [exact Ha1 |]]].
  - apply Forall_forall. intros y Hy.
    destruct (Nat.eqb_spec (ndim y) (ndim (hd x0 (map (fix_empty e) x))))
      as [E | E]; [exact E |].
    assert (existsb (fun y => negb (ndim y =? ndim (hd x0 (map (fix_empty e) x))))
              (map (fix_empty e) x) = true) as Hex; [| congruence].
    apply existsb_exists. exists y. split; [exact Hy |].
    now apply negb_true_iff, Nat.eqb_neq.
  - exact H.
Qed.

End PaddedFacts.

(** C10. On a non-empty list whose tensors all have zero length along their
    first axis, [list_to_padded] with [pad_size=None] raises: the per-axis
    maximum is taken over nothing. *)
Theorem list_to_padded_all_empty_raises {A} (x : list (ndarray A)) (v : A)
    (equisized : bool) :
  x <> [] ->
  Forall (fun y => exists rest, shape y = 0 :: rest) x ->
  exists e, list_to_padded x None v equisized = Err e /\
            (equisized = false -> exists msg, e = ValueError msg).
Proof.
  intros Hne Hall. unfold list_to_padded, list_to_padded_body.
  destruct x as [|x0 xs]; [easy |].
  set (x := x0 :: xs) in *. set (e := fold_left Nat.max (map ndim x) 0).
  destruct equisized; cbn [bind];
    [eexists; split; [reflexivity | discriminate] |].
  destruct (existsb _ (map (fix_empty e) x)); cbn [raise_if bind];
    [eexists; split; [reflexivity | eauto] |].
  assert (Hempty : forall e0, filter (fun y : ndarray A => 0 <? size0 y)
                                (map (fix_empty e0) x) = []).
  { intros e0. clear - Hall.
    induction Hall as [|y l [rest Hy] _ IH]; simpl; [reflexivity |].
    rewrite IH. unfold fix_empty, size0.
    destruct ((ndim y =? 1) && (numel y =? 0)); cbn [shape].
    - destruct e0; reflexivity.
    - now rewrite Hy. }
  assert (Hnd : ndim (hd x0 (map (fix_empty e) x)) <> 0).
  { simpl. inversion Hall as [|? ? [rest Hy] _]; subst.
    unfold fix_empty, ndim.
    destruct ((length (shape x0) =? 1) && (numel x0 =? 0)) eqn:E; cbn [shape].
    - apply andb_true_iff in E as [E _]. apply Nat.eqb_eq in E.
      rewrite repeat_length. unfold e. simpl.
      pose proof (fold_left_max_ge (map (@ndim A) xs) (ndim x0)) as [Hge _].
      unfold ndim in Hge at 1. lia.
    - now rewrite Hy. }
  unfold max_dims. rewrite Hempty.
  destruct (ndim (hd x0 (map (fix_empty e) x))) as [|n]; [easy |].
  simpl. eexists. split; [reflexivity | eauto].
Qed.

(** Three ragged items: shapes [(2, 1)], [(0, 3)] and [(1, 2)]. *)
Definition ragged_items : list (ndarray Z) :=
  [ mk_ndarray [2; 1] (fun i => match i with [k; _] => Z.of_nat (k + 1) | _ => 0 end)%Z;
    mk_ndarray [0; 3] (fun _ => 0%Z);
    mk_ndarray [1; 2] (fun i => match i with [_; d] => Z.of_nat (d + 7) | _ => 0 end)%Z ].

Definition ragged_padded : ndarray Z :=
  unwrap (full [] 0%Z) (list_to_padded ragged_items None (-1)%Z false).

(** Two items without elements: shapes [(0, 3)] and [(0,)]. *)
Definition empty_items : list (ndarray Z) :=
  [ mk_ndarray [0; 3] (fun _ => 0%Z); mk_ndarray [0] (fun _ => 0%Z) ].

Lemma list_to_padded_all_empty_raises_witness :
  exists e, list_to_padded empty_items None 0%Z false = Err e /\
            (false = false -> exists msg, e = ValueError msg).
Proof.
  apply (@list_to_padded_all_empty_raises Z empty_items 0%Z false).
  - discriminate.
  - repeat constructor; eexists; reflexivity.
Defined.

(** *** What [padded_to_packed] keeps *)

(** Row [m] of item [i] is within the declared size of its item. *)
Definition within_split (sizes : list Z) (M k : nat) : bool :=
  (Z.of_nat (k mod M) <? nth (k / M) sizes 0)%Z.

Section PaddedToPackedFacts.
Context {A : Type}.
Variable A_eq_dec : forall a b : A, {a = b} + {a <> b}.

Lemma map_nth_seq {B C} (f : B -> C) (d : B) (l : list B) :
  map (fun j => f (nth j l d)) (seq 0 (length l)) = map f l.
Proof.
  induction l as [|b l IH]; simpl; [reflexivity |].
  f_equal. rewrite <- seq_shift, map_map. exact IH.
Qed.

Lemma filter_map_swap {B C} (f : B -> C) (p : C -> bool) (l : list B) :
  map f (filter (fun b => p (f b)) l) = filter p (map f l).
Proof.
  induction l as [|b l IH]; simpl; [reflexivity |].
  destruct (p (f b)); simpl; now rewrite IH.
Qed.

Lemma filter_const_true {B} (l : list B) : filter (fun _ => true) l = l.
Proof. induction l; simpl; congruence. Qed.

Lemma filter_const_false {B} (l : list B) : filter (fun _ => false) l = [].
Proof. induction l; simpl; congruence. Qed.

Lemma map_add_seq c : forall n a,
  map (fun m => m + c) (seq a n) = seq (a + c) n.
Proof. induction n as [|n IH]; intros a; simpl; [| rewrite IH]; reflexivity. Qed.

Lemma filter_ext_in_seq (p q : nat -> bool) a n :
  (forall k, a <= k < a + n -> p k = q k) ->
  filter p (seq a n) = filter q (seq a n).
Proof.
  intros H. apply filter_ext_in. intros k Hk. apply in_seq in Hk. now apply H.
Qed.

(** The rows [take_rows] selects. *)
Lemma rows_take_rows (x : ndarray A) N M D (x_packed : ndarray A) idx :
  shape x = [N; M; D] ->
  reshape_rows x M D N = Ok x_packed ->
  rows (take_rows x_packed idx) = map (flat_row x) idx.
Proof.
  intros Hx H. unfold reshape_rows in H. inv_ok. subst x_packed.
  unfold rows, take_rows, size0, flat_row, row_of_item. cbn [shape get hd tl nth].
  rewrite Hx. cbn [nth]. now rewrite (map_nth_seq
    (fun k => map (fun d => get x [k / M; k mod M; d]) (seq 0 D)) 0 idx).
Qed.

Lemma ne_any_nth (x : ndarray A) N M D (x_packed : ndarray A) pad k :
  shape x = [N; M; D] ->
  reshape_rows x M D N = Ok x_packed ->
  k < N * M ->
  nth k (ne_any A_eq_dec x_packed pad) false =
  negb (is_padding A_eq_dec pad (flat_row x k)).
Proof.
  intros Hx H Hk. unfold reshape_rows in H. inv_ok. subst x_packed.
  unfold ne_any, size0, flat_row, row_of_item, is_padding.
  cbn [shape get hd tl nth]. rewrite Hx. cbn [nth].
  match goal with |- nth k (map ?F _) false = _ =>
    rewrite (nth_indep _ false (F 0)) by
      (rewrite length_map, length_seq; exact Hk);
    rewrite (map_nth F (seq 0 (N * M)) 0 k)
  end.
  rewrite seq_nth by exact Hk. simpl.
  induction (seq 0 D) as [|d l IH]; simpl; [reflexivity |].
  rewrite IH. destruct (A_eq_dec (get x [k / M; k mod M; d]) pad); reflexivity.
Qed.

Lemma ne_any_length (x_packed : ndarray A) pad :
  length (ne_any A_eq_dec x_packed pad) = size0 x_packed.
Proof. unfold ne_any. now rewrite length_map, length_seq. Qed.

(** With a pad value, the rows kept are those that are not padding. *)
Lemma padded_to_packed_pad_value (x : ndarray A) N M D pad out :
  shape x = [N; M; D] ->
  padded_to_packed A_eq_dec x None (Some pad) = Ok out ->
  rows out =
  filter (fun row => negb (is_padding A_eq_dec pad row))
         (map (flat_row x) (seq 0 (N * M))).
Proof.
  intros Hx H. unfold padded_to_packed in H. rewrite Hx in H. inv_ok.
  unfold getitem_mask in H. inv_ok. subst out.
  erewrite rows_take_rows; [| exact Hx | exact Ha0]. unfold nonzero.
  rewrite ne_any_length.
  assert (Hs : size0 a0 = N * M).
  { unfold reshape_rows in Ha0. inv_ok. now subst a0. }
  rewrite Hs, <- filter_map_swap. f_equal.
  apply filter_ext_in_seq. intros k Hk.
  eapply ne_any_nth; [exact Hx | exact Ha0 | lia].
Qed.

(** The index tensor built from split sizes that fit the padded extent lists
    exactly the rows within the declared sizes. *)
Lemma padded_to_packed_idx_within M : forall sizes i idx,
  padded_to_packed_idx M i (map SizeInt sizes) = Ok idx ->
  Forall (fun v => (v <= Z.of_nat M)%Z) sizes ->
  idx = filter (fun k => within_split sizes M (k - i * M))
               (seq (i * M) (length sizes * M)).
Proof.
  induction sizes as [|v sizes IH]; intros i idx H Hall; simpl in H.
  - now injection H as <-.
  - inv_ok. subst idx. unfold arange in Ha. inv_ok. subst a.
    inversion Hall as [|? ? Hv Hall']; subst.
    apply Z.ltb_ge in Ha1.
    apply IH in Ha0; [| exact Hall']. subst a0.
    cbn [length]. replace (S (length sizes) * M) with (M + length sizes * M) by lia.
    rewrite seq_app, filter_app. f_equal.
    + assert (Hm : Z.to_nat v <= M) by lia.
      assert (E : seq (i * M) M =
                  seq (i * M) (Z.to_nat v) ++
                  seq (i * M + Z.to_nat v) (M - Z.to_nat v))
        by (rewrite <- seq_app; f_equal; lia).
      rewrite E, filter_app. clear E.
      rewrite (@filter_ext_in_seq _ (fun _ => true) (i * M) (Z.to_nat v)).
      2:{ intros k Hk. unfold within_split.
          replace (k - i * M) with (k - i * M + 0 * M) by lia.
          rewrite Nat.div_add, Nat.Div0.mod_add by lia.
          rewrite Nat.div_small, Nat.mod_small by lia. simpl.
          apply Z.ltb_lt. lia. }
      rewrite (@filter_ext_in_seq _ (fun _ => false) (i * M + Z.to_nat v)
                 (M - Z.to_nat v)).
      2:{ intros k Hk. unfold within_split.
          replace (k - i * M) with (k - i * M + 0 * M) by lia.
          rewrite Nat.div_add, Nat.Div0.mod_add by lia.
          rewrite Nat.div_small, Nat.mod_small by lia. simpl.
          apply Z.ltb_ge. lia. }
      rewrite filter_const_true, filter_const_false, app_nil_r. clear.
      apply (map_add_seq (i * M) (Z.to_nat v) 0).
    + replace (i * M + M) with (S i * M) by lia.
      apply filter_ext_in_seq. intros k Hk. unfold within_split.
      destruct (Nat.eq_dec M 0) as [-> | HM]; [lia |].
      replace (k - i * M) with ((k - S i * M) + 1 * M) by lia.
      rewrite Nat.div_add, Nat.Div0.mod_add by lia.
      rewrite Nat.add_1_r. reflexivity.
Qed.

End PaddedToPackedFacts.

(** A padded tensor of shape [(2, 2, 1)] holding 1, 2 / 3, 4, and what
    [padded_to_packed] makes of it. *)
Definition padded_2x2x1 : ndarray Z :=
  mk_ndarray [2; 2; 1]
    (fun i => match i with
              | [i0; m; _] => Z.of_nat (2 * i0 + m + 1)
              | _ => 0%Z
              end).

Definition packed_by_pad_value : ndarray Z :=
  unwrap padded_2x2x1 (padded_to_packed Z.eq_dec padded_2x2x1 None (Some 3%Z)).

Definition packed_by_split_size : ndarray Z :=
  unwrap padded_2x2x1
    (padded_to_packed Z.eq_dec padded_2x2x1 (Some (map SizeInt [2; 1]%Z)) None).

(** C5 (as amended). For a padded tensor [x] of shape [(N, M, D)]:
    with [pad_value], [padded_to_packed] keeps a flattened row exactly when the
    row is not equal to [pad_value] on every channel; with [split_size] whose
    entries do not exceed [M], it keeps row [m] of item [i] exactly when
    [m < split_size[i]]; and giving both is a [ValueError]. *)
Theorem padded_to_packed_keeps {A} (A_eq_dec : forall a b : A, {a = b} + {a <> b})
    (x : ndarray A) (N M D : nat) :
  shape x = [N; M; D] ->
  (forall pad out,
      padded_to_packed A_eq_dec x None (Some pad) = Ok out ->
      rows out =
      filter (fun row => negb (is_padding A_eq_dec pad row))
             (map (flat_row x) (seq 0 (N * M)))) /\
  (forall sizes out,
      Forall (fun v => (v <= Z.of_nat M)%Z) sizes ->
      padded_to_packed A_eq_dec x (Some (map SizeInt sizes)) None = Ok out ->
      rows out =
      map (flat_row x) (filter (within_split sizes M) (seq 0 (N * M)))) /\
  (forall split_size pad,
      exists msg,
        padded_to_packed A_eq_dec x (Some split_size) (Some pad) =
        Err (ValueError msg)).
Proof.
  intros Hx. split; [| split].
  - intros pad out H. eapply padded_to_packed_pad_value; eassumption.
  - intros sizes out Hfit H. unfold padded_to_packed in H. rewrite Hx in H.
    inv_ok. unfold getitem_index in H. inv_ok. subst out.
    erewrite rows_take_rows; [| exact Hx | exact Ha0].
    apply padded_to_packed_idx_within in Ha4; [| exact Hfit].
    apply negb_false_iff, Nat.eqb_eq in Ha1. rewrite length_map in Ha1.
    subst a4. rewrite <- Ha1. simpl. f_equal.
    apply filter_ext. intros k. now rewrite Nat.sub_0_r.
  - intros split_size pad. unfold padded_to_packed. rewrite Hx. simpl.
    eexists. reflexivity.
Qed.

Lemma padded_to_packed_keeps_witness :
  rows packed_by_pad_value = [[1]; [2]; [4]]%Z /\
  rows packed_by_split_size = [[1]; [2]; [3]]%Z /\
  exists msg,
    padded_to_packed Z.eq_dec padded_2x2x1 (Some [SizeInt 2; SizeInt 1])
      (Some 0%Z) = Err (ValueError msg).
Proof.
  destruct (padded_to_packed_keeps Z.eq_dec padded_2x2x1 eq_refl)
    as (Hpad & Hsplit & Hboth).
  split; [| split].
  - rewrite (Hpad 3%Z packed_by_pad_value eq_refl). reflexivity.
  - rewrite (Hsplit [2; 1]%Z packed_by_split_size); [reflexivity | | reflexivity].
    repeat constructor; simpl; lia.
  - apply Hboth.
Defined.

(** C5, as stated, fails when a split size exceeds the padded extent [M]:
    with [split_size = [3, 0]] on a [(2, 2, 1)] tensor the index tensor is
    [0, 1, 2], so row 0 of item 1 is kept although its declared size is 0; the
    rows with [m < split_size[i]] are only rows 0 and 1 of item 0. *)
Lemma padded_to_packed_split_size_overflow :
  exists out,
    padded_to_packed Z.eq_dec padded_2x2x1 (Some [SizeInt 3; SizeInt 0]) None
    = Ok out /\
    rows out = [[1]; [2]; [3]]%Z /\
    map (flat_row padded_2x2x1) (filter (within_split [3; 0]%Z 2) (seq 0 (2 * 2)))
    = [[1]; [2]]%Z.
Proof. eexists. split; [reflexivity | split; reflexivity]. Qed.

(** *** The layout [list_to_packed] records *)

Section PackedLayout.
Context {A : Type}.

Lemma nth_set_nth_eq {B} (v d : B) : forall l i,
  i < length l -> nth i (set_nth i v l) d = v.
Proof.
  induction l as [|b l IH]; intros [|i] Hi; simpl in *; try lia; auto.
  apply IH. lia.
Qed.

Lemma nth_set_nth_neq {B} (v d : B) : forall l i j,
  j <> i -> nth j (set_nth i v l) d = nth j l d.
Proof.
  induction l as [|b l IH]; intros [|i] [|j] Hj; simpl; try lia; auto.
Qed.

(** The loop writes into [item_packed_first_idx] the running total of the
    lengths seen so far, and leaves the earlier entries alone. *)
Lemma list_to_packed_loop_first_idx : forall (ys : list (ndarray A)) i ni fi il cur st,
  list_to_packed_loop i ys (ni, fi, il, cur) = Ok st ->
  length fi = i + length ys ->
  (forall j, j < i -> nth j (snd (fst (fst st))) 0%Z = nth j fi 0%Z) /\
  (forall k, k < length ys ->
     nth (i + k) (snd (fst (fst st))) 0%Z =
     Z.of_nat (cur + list_sum (map size0 (firstn k ys)))).
Proof.
  induction ys as [|y ys IH]; intros i ni fi il cur st H Hlen; simpl in *.
  - injection H as <-. simpl. split; [reflexivity | intros; lia].
  - inv_ok. apply len_Ok in Ha as [Hy _]. subst a.
    apply IH in H; [| rewrite set_nth_length; lia].
    destruct H as [Hfr Hk]. split.
    + intros j Hj. rewrite Hfr by lia. apply nth_set_nth_neq. lia.
    + intros [|k] Hk'.
      * rewrite Nat.add_0_r, Hfr by lia. simpl. rewrite Nat.add_0_r.
        apply nth_set_nth_eq. lia.
      * replace (i + S k) with (S i + k) by lia. rewrite Hk by lia.
        simpl. f_equal. lia.
Qed.

Lemma list_to_packed_loop_lengths : forall (ys : list (ndarray A)) i ni fi il cur st,
  list_to_packed_loop i ys (ni, fi, il, cur) = Ok st ->
  length (fst (fst (fst st))) = length ni /\
  length (snd (fst (fst st))) = length fi.
Proof.
  induction ys as [|y ys IH]; intros i ni fi il cur st H; simpl in *.
  - injection H as <-. auto.
  - inv_ok. apply IH in H. now rewrite !set_nth_length in H.
Qed.

(** The loop appends, for the item at position [k], [len] copies of [k]. *)
Lemma list_to_packed_loop_to_list_idx : forall (ys : list (ndarray A)) i ni fi il cur st,
  list_to_packed_loop i ys (ni, fi, il, cur) = Ok st ->
  snd (fst st) =
  il ++ map (fun ky => repeat (Z.of_nat (fst ky)) (size0 (snd ky)))
            (combine (seq i (length ys)) ys).
Proof.
  induction ys as [|y ys IH]; intros i ni fi il cur st H; simpl in *.
  - injection H as <-. simpl. now rewrite app_nil_r.
  - inv_ok. apply len_Ok in Ha as [Hy _]. subst a.
    apply IH in H. rewrite H, <- app_assoc. reflexivity.
Qed.

Lemma length_concat_blocks {B} (blocks : list (list B)) :
  length (concat blocks) = list_sum (map (@length B) blocks).
Proof.
  induction blocks as [|b bs IH]; simpl; [reflexivity |].
  now rewrite length_app, IH.
Qed.

(** Element [k] of block [i] of a concatenation. *)
Lemma nth_concat_block {B} (d : B) : forall (blocks : list (list B)) i k,
  k < length (nth i blocks []) ->
  nth (list_sum (map (@length B) (firstn i blocks)) + k) (concat blocks) d =
  nth k (nth i blocks []) d.
Proof.
  induction blocks as [|b bs IH]; intros [|i] k Hk; simpl in *; try lia.
  - now apply app_nth1.
  - rewrite app_nth2 by lia.
    replace (length b + list_sum (map (@length B) (firstn i bs)) + k - length b)
      with (list_sum (map (@length B) (firstn i bs)) + k) by lia.
    now apply IH.
Qed.

Lemma map_length_blocks : forall (ys : list (ndarray A)) i,
  map (@length Z)
      (map (fun ky : nat * ndarray A =>
              repeat (Z.of_nat (fst ky)) (size0 (snd ky)))
           (combine (seq i (length ys)) ys)) = map size0 ys.
Proof.
  induction ys as [|y ys IH]; intros i; simpl; [reflexivity |].
  now rewrite repeat_length, IH.
Qed.

Lemma nth_blocks : forall (ys : list (ndarray A)) i k y,
  nth_error ys k = Some y ->
  nth k (map (fun ky : nat * ndarray A =>
                repeat (Z.of_nat (fst ky)) (size0 (snd ky)))
             (combine (seq i (length ys)) ys)) []
  = repeat (Z.of_nat (i + k)) (size0 y).
Proof.
  induction ys as [|y0 ys IH]; intros i [|k] y Hk; simpl in *; try discriminate.
  - injection Hk as ->. now rewrite Nat.add_0_r.
  - rewrite (IH (S i) k y Hk). f_equal. f_equal. lia.
Qed.

Lemma nth_error_split_at {B} : forall (l : list B) i b,
  nth_error l i = Some b -> l = firstn i l ++ b :: skipn (S i) l.
Proof.
  induction l as [|a l IH]; intros [|i] b H; simpl in *; try discriminate.
  - now injection H as ->.
  - f_equal. now apply IH.
Qed.

End PackedLayout.

(** X1. Item [i] of the list occupies the rows of the packed tensor that start at
    [item_packed_first_idx[i]], the sum of the lengths of the items before
    it: [num_items[i]] rows, each the corresponding row of the item, and
    [item_packed_to_list_idx] maps each of them back to [i]. *)
Theorem list_to_packed_layout {A} (x : list (ndarray A)) (p : packed) :
  list_to_packed x = Ok p ->
  length (num_items p) = length x /\
  length (item_packed_first_idx p) = length x /\
  length (item_packed_to_list_idx p) = size0 (x_packed p) /\
  forall i y, nth_error x i = Some y ->
    let first := list_sum (map size0 (firstn i x)) in
    nth i (num_items p) 0%Z = Z.of_nat (size0 y) /\
    nth i (item_packed_first_idx p) 0%Z = Z.of_nat first /\
    forall k, k < size0 y ->
      first + k < size0 (x_packed p) /\
      nth (first + k) (item_packed_to_list_idx p) 0%Z = Z.of_nat i /\
      forall r, get (x_packed p) ((first + k) :: r) = get y (k :: r).
Proof.
  intros H. pose proof (list_to_packed_Ok _ H) as [Hcat Hnum].
  unfold list_to_packed in H. destruct x as [|t0 ts0]; [discriminate |].
  set (x := t0 :: ts0) in *. inv_ok.
  match goal with
  | Hl : list_to_packed_loop _ _ _ = Ok ?st |- _ =>
      destruct st as [[[ni fi] il] cur]; rename Hl into Hloop
  end.
  inv_ok. subst p.
  cbn [x_packed num_items item_packed_first_idx item_packed_to_list_idx] in *.
  set (xp := _ : ndarray A) in Hcat |- *.
  pose proof (list_to_packed_loop_lengths _ _ _ _ _ _ Hloop) as [Hl1 Hl2].
  pose proof (list_to_packed_loop_first_idx _ _ _ _ _ _ Hloop) as [_ Hfi];
    [rewrite repeat_length; reflexivity |].
  pose proof (list_to_packed_loop_to_list_idx _ _ _ _ _ _ Hloop) as Hil.
  cbn [fst snd app Nat.add] in Hl1, Hl2, Hfi, Hil.
  rewrite repeat_length in Hl1, Hl2.
  apply cat_Ok in Hcat as (trailing & d & Hsh & Hall & Hget).
  assert (Hs0 : size0 xp = list_sum (map size0 x))
    by (unfold size0 at 1; now rewrite Hsh).
  split; [exact Hl1 | split; [exact Hl2 | split]].
  - rewrite Hil, length_concat_blocks, map_length_blocks. now rewrite Hs0.
  - intros i y Hi. set (first := list_sum (map size0 (firstn i x))).
    assert (Hlt : i < length x) by (apply nth_error_Some; congruence).
    pose proof (nth_error_split_at _ _ Hi) as Hx.
    split; [| split].
    + rewrite Hnum, map_map.
      rewrite (nth_indep _ 0%Z (Z.of_nat (size0 y)))
        by (rewrite length_map; exact Hlt).
      now rewrite (map_nth (fun t => Z.of_nat (size0 t)) x y i),
        (nth_error_nth _ _ _ Hi).
    + exact (Hfi i Hlt).
    + intros k Hk.
      assert (Hsum : list_sum (map size0 x) =
                     first + size0 y + list_sum (map size0 (skipn (S i) x))).
      { rewrite Hx at 1. rewrite map_app, list_sum_app. simpl. unfold first. lia. }
      split; [lia | split].
      * rewrite Hil. unfold first.
        rewrite <- firstn_map, <- (map_length_blocks x 0), firstn_map.
        rewrite nth_concat_block; rewrite (nth_blocks x 0 i Hi);
          [| now rewrite repeat_length].
        apply nth_repeat_lt. exact Hk.
      * intros r. rewrite Hget.
        pose proof (cat_get_app d (firstn i x) y (skipn (S i) x) r Hk) as Hc.
        rewrite <- Hx in Hc. exact Hc.
Qed.

Lemma list_to_packed_layout_witness :
  list_to_packed two_items = Ok two_items_packed /\
  length (item_packed_to_list_idx two_items_packed) =
    size0 (x_packed two_items_packed) /\
  nth 1 (item_packed_first_idx two_items_packed) 0%Z = 2%Z /\
  get (x_packed two_items_packed) [2; 0] = 9%Z.
Proof.
  split; [reflexivity |].
  destruct (@list_to_packed_layout Z two_items two_items_packed eq_refl)
    as (_ & _ & Hlen & Hitems).
  split; [exact Hlen |].
  destruct (Hitems 1 (mk_ndarray [1; 1] (fun _ => 9%Z)) eq_refl)
    as (_ & Hfirst & Hrows).
  split; [exact Hfirst |].
  destruct (Hrows 0 ltac:(cbn; lia)) as (_ & _ & Hget).
  exact (Hget [0]).
Defined.

(** *** Round trip: unpacking then packing *)

Section SplitFacts.
Context {A : Type}.

Lemma chunks_shapes (x : ndarray A) : forall sizes off,
  Forall (fun t => exists s, shape t = s :: tl (shape x)) (chunks x off sizes).
Proof.
  induction sizes as [|s sizes IH]; intros off; simpl; constructor;
    [cbn [shape]; eauto | apply IH].
Qed.

Lemma chunks_sizes (x : ndarray A) : forall sizes off,
  map size0 (chunks x off sizes) = sizes.
Proof.
  induction sizes as [|s sizes IH]; intros off; simpl; [reflexivity |].
  now rewrite IH.
Qed.

(** The concatenation of the chunks reads the tensor they were cut from. *)
Lemma cat_get_chunks d (x : ndarray A) : forall sizes off k r,
  k < list_sum sizes ->
  cat_get d (chunks x off sizes) k r = get x ((off + k) :: r).
Proof.
  induction sizes as [|s sizes IH]; intros off k r Hk;
    cbn [chunks cat_get]; [simpl in Hk; lia |].
  change (list_sum (s :: sizes)) with (s + list_sum sizes) in Hk.
  unfold size0. cbn [shape hd].
  destruct (Nat.ltb_spec k s) as [Hlt | Hge]; [reflexivity |].
  rewrite IH by lia. do 2 f_equal. lia.
Qed.

(** [torch.cat] accepts tensors that agree on every axis but the first. *)
Lemma cat_same_trailing (ts : list (ndarray A)) (trailing : list nat) :
  ts <> [] ->
  Forall (fun t => exists s, shape t = s :: trailing) ts ->
  exists p, cat ts = Ok p /\
            shape p = list_sum (map size0 ts) :: trailing /\
            exists d, forall k r, get p (k :: r) = cat_get d ts k r.
Proof.
  intros Hne Hsh. destruct ts as [|t0 ts0]; [easy |].
  set (ts := t0 :: ts0) in *. unfold cat. unfold ts at 1. cbv beta iota.
  assert (Hnd : existsb (fun t : ndarray A => ndim t =? 0) ts = false).
  { apply not_true_is_false. intros Hex.
    apply existsb_exists in Hex as (t & Ht & Hz).
    rewrite Forall_forall in Hsh. destruct (Hsh t Ht) as [s Hs].
    unfold ndim in Hz. rewrite Hs in Hz. discriminate. }
  rewrite Hnd. cbn [raise_if bind].
  destruct (filter (fun t => negb (legacy_empty t)) ts) as [|t1 rest] eqn:Hf.
  - eexists. split; [reflexivity |]. cbn [shape get]. split; [| eauto].
    assert (Hall : forall t, In t ts -> shape t = [0]).
    { intros t Ht. destruct (legacy_empty t) eqn:Hl;
        [now apply legacy_empty_true |].
      assert (In t (filter (fun t => negb (legacy_empty t)) ts)) as Hin
        by (apply filter_In; split; [exact Ht | now rewrite Hl]).
      rewrite Hf in Hin. destruct Hin. }
    assert (Htl : trailing = []).
    { rewrite Forall_forall in Hsh. destruct (Hsh t0 (or_introl eq_refl)) as [s Hs].
      rewrite (Hall t0 (or_introl eq_refl)) in Hs. now injection Hs as _ <-. }
    rewrite Htl. f_equal. clear - Hall.
    induction ts as [|t ts IH]; simpl; [reflexivity |].
    unfold size0 at 1. rewrite (Hall t (or_introl eq_refl)). simpl.
    apply IH. intros t' Ht'. apply Hall. now right.
  - assert (Htl : forall t, In t (t1 :: rest) -> tl (shape t) = trailing).
    { intros t Ht. rewrite <- Hf in Ht. apply filter_In in Ht as [Ht _].
      rewrite Forall_forall in Hsh. destruct (Hsh t Ht) as [s Hs].
      now rewrite Hs. }
    assert (Hfb : forallb
              (fun t => if shape_eq_dec (tl (shape t)) (tl (shape t1))
                        then true else false) rest = true).
    { apply forallb_forall. intros t Ht.
      rewrite (Htl t (or_intror Ht)), (Htl t1 (or_introl eq_refl)).
      now destruct (shape_eq_dec trailing trailing). }
    rewrite Hfb. cbn [negb raise_if bind]. eexists. split; [reflexivity |].
    cbn [shape get]. split; [| eauto].
    now rewrite (Htl t1 (or_introl eq_refl)).
Qed.

(** [torch.cat] accepts the chunks of a tensor. *)
Lemma cat_chunks (x : ndarray A) sizes off :
  sizes <> [] ->
  exists p, cat (chunks x off sizes) = Ok p /\
            shape p = list_sum sizes :: tl (shape x) /\
            exists d, forall k r,
              get p (k :: r) = cat_get d (chunks x off sizes) k r.
Proof.
  intros Hne.
  destruct (@cat_same_trailing (chunks x off sizes) (tl (shape x)))
    as (p & Hp & Hsh & Hget).
  - destruct sizes; [easy | discriminate].
  - apply chunks_shapes.
  - rewrite chunks_sizes in Hsh. eauto.
Qed.

Lemma list_sum_repeat s k : list_sum (repeat s k) = s * k.
Proof. induction k as [|k IH]; simpl; [lia | rewrite IH; lia]. Qed.

(** The chunk sizes [split] derives from an int cover the axis. *)
Lemma int_split_sizes_sum n s :
  0 < s \/ n = 0 -> list_sum (int_split_sizes n s) = n.
Proof.
  intros H. unfold int_split_sizes. destruct s as [|s']; [simpl; lia |].
  set (s := S s') in *. rewrite list_sum_app, list_sum_repeat.
  cbn [list_sum fold_right].
  pose proof (Nat.Div0.mul_div_le (n + s - 1) s) as Hd.
  assert (Hq : s * (Nat.max ((n + s - 1) / s) 1 - 1) <= n).
  { destruct (Nat.max_spec ((n + s - 1) / s) 1) as [[_ ->] | [_ ->]]; nia. }
  set (q := Nat.max ((n + s - 1) / s) 1 - 1) in *. lia.
Qed.

Lemma int_split_sizes_nonempty n s : int_split_sizes n s <> [].
Proof.
  unfold int_split_sizes. destruct s; [discriminate |].
  now destruct (repeat _ _).
Qed.

Lemma list_to_packed_loop_returns : forall (ys : list (ndarray A)) i st,
  Forall (fun y => ndim y <> 0) ys ->
  exists st', list_to_packed_loop i ys st = Ok st'.
Proof.
  induction ys as [|y ys IH]; intros i [[[ni fi] il] cur] Hall; simpl; [eauto |].
  inversion Hall as [|? ? Hy Hall']; subst.
  unfold len. unfold ndim in Hy. destruct (shape y) as [|n s]; [easy |].
  cbn [bind]. now apply IH.
Qed.

(** What [split] cuts: chunks of the tensor whose sizes cover axis 0. *)
Lemma split_Ok (x : ndarray A) split_size l :
  split x split_size = Ok l ->
  exists n sizes, shape x = n :: tl (shape x) /\
                  l = chunks x 0 sizes /\ list_sum sizes = n /\
                  (l <> [] -> sizes <> []).
Proof.
  unfold split. destruct (shape x) as [|n s'] eqn:Hs; [discriminate |].
  destruct split_size as [s | sz]; intros H; inv_ok; subst l.
  - exists n, (int_split_sizes n (Z.to_nat s)). cbn [tl].
    split; [reflexivity | split; [reflexivity | split]].
    + apply int_split_sizes_sum.
      match goal with Hc : _ && _ = false |- _ => rename Hc into Hzero end.
      match goal with Hc : (s <? 0)%Z = false |- _ => rename Hc into Hneg end.
      apply Z.ltb_ge in Hneg. apply andb_false_iff in Hzero as [Hz | Hz].
      * left. apply Z.eqb_neq in Hz. lia.
      * right. apply negb_false_iff, Nat.eqb_eq in Hz. exact Hz.
    + intros _. apply int_split_sizes_nonempty.
  - exists n, (map Z.to_nat sz). cbn [tl].
    split; [reflexivity | split; [reflexivity | split]].
    + match goal with Hc : negb _ = false |- _ => rename Hc into Hsum end.
      match goal with Hc : existsb _ sz = false |- _ => rename Hc into Hnn end.
      apply negb_false_iff, Z.eqb_eq in Hsum.
      apply Nat2Z.inj. rewrite <- Hsum. clear - Hnn.
      induction sz as [|z sz IH]; simpl in *; [reflexivity |].
      apply orb_false_iff in Hnn as [Hz Hnn]. apply Z.ltb_ge in Hz.
      rewrite Nat2Z.inj_add, IH by exact Hnn. lia.
    + intros Hl Hm. apply Hl. now rewrite Hm.
Qed.

End SplitFacts.

(** X2. Unpacking a packed tensor with [packed_to_list] and packing the pieces
    again with [list_to_packed] gives the packed tensor back, whenever the
    split yields at least one piece ([list_to_packed] refuses the empty
    list). *)
Theorem list_to_packed_packed_to_list {A} (x : ndarray A) (split_size : split_arg)
    (l : list (ndarray A)) :
  packed_to_list x split_size = Ok l ->
  l <> [] ->
  exists p, list_to_packed l = Ok p /\
            elementwise_equal (x_packed p) x /\
            num_items p = map (fun y => Z.of_nat (size0 y)) l.
Proof.
  unfold packed_to_list. intros H Hne.
  apply split_Ok in H as (n & sizes & Hx & -> & Hsum & Hsz).
  specialize (Hsz Hne).
  destruct (cat_chunks x 0 Hsz) as (p & Hcat & Hsh & d & Hget).
  destruct (@list_to_packed_loop_returns A (chunks x 0 sizes) 0
              (repeat 0%Z (length (chunks x 0 sizes)),
               repeat 0%Z (length (chunks x 0 sizes)), [], 0))
    as [[[[ni fi] il] cur] Hloop].
  { eapply Forall_impl; [| apply chunks_shapes].
    intros t [s Hs]. unfold ndim. now rewrite Hs. }
  assert (Hpk : list_to_packed (chunks x 0 sizes) =
                Ok (mk_packed p ni fi (concat il))).
  { unfold list_to_packed. destruct (chunks x 0 sizes) eqn:Hc; [easy |].
    rewrite Hloop. cbn [bind]. rewrite Hcat. reflexivity. }
  eexists. split; [exact Hpk |]. cbn [x_packed num_items]. split.
  - rewrite Hsum in Hsh. split.
    + intros i. now rewrite Hsh, <- Hx.
    + intros i Hi. rewrite Hx in Hi.
      apply in_bounds_cons_inv in Hi as (k & r & -> & Hk & _).
      rewrite Hget, cat_get_chunks by lia. reflexivity.
  - apply list_to_packed_Ok in Hpk as [_ Hnum]. cbn [num_items] in Hnum.
    now rewrite Hnum, map_map.
Qed.

(** A packed tensor of three rows, cut into pieces of two rows. *)
Definition three_rows : ndarray Z :=
  mk_ndarray [3; 1]
    (fun i => match i with [k; _] => Z.of_nat (k + 1) | _ => 0%Z end).

Definition three_rows_pieces : list (ndarray Z) :=
  unwrap [] (packed_to_list three_rows (SplitInt 2)).

Lemma list_to_packed_packed_to_list_witness :
  packed_to_list three_rows (SplitInt 2) = Ok three_rows_pieces /\
  map shape three_rows_pieces = [[2; 1]; [1; 1]] /\
  exists p, list_to_packed three_rows_pieces = Ok p /\
            elementwise_equal (x_packed p) three_rows /\
            num_items p = map (fun y => Z.of_nat (size0 y)) three_rows_pieces.
Proof.
  split; [reflexivity | split; [reflexivity |]].
  apply (@list_to_packed_packed_to_list Z three_rows (SplitInt 2)
           three_rows_pieces); [reflexivity | discriminate].
Defined.

(** *** What [list_to_padded] writes *)

Section PaddedContents.
Context {A : Type}.

(** The slice assignment, position by position. *)
Lemma setitem_prefix_get (t : ndarray A) i y t' :
  setitem_prefix t i y = Ok t' ->
  shape t' = shape t /\
  forall j r, get t' (j :: r) =
    if (j =? i) && in_boundsb (shape y) r && in_boundsb (tl (shape t)) r
    then get y r else get t (j :: r).
Proof.
  unfold setitem_prefix. destruct (shape t) as [|N dims] eqn:Ht; [discriminate |].
  intros H. inv_ok. subst t'. cbn [shape get tl]. split; [easy | reflexivity].
Qed.

(** After the loop, row [i + k] holds item [k] in its leading corner, when the
    item has a first row, and what it held before elsewhere. *)
Lemma fill_loop_get : forall (ys : list (ndarray A)) i t p,
  fill_loop i ys t = Ok p ->
  forall k y, nth_error ys k = Some y ->
  forall r, get p ((i + k) :: r) =
    if (0 <? size0 y) && in_boundsb (shape y) r && in_boundsb (tl (shape t)) r
    then get y r else get t ((i + k) :: r).
Proof.
  induction ys as [|y0 ys IH]; intros i t p H k y Hk r; simpl in H.
  - destruct k; discriminate.
  - inv_ok.
    match goal with Hl : len y0 = Ok ?n |- _ =>
      apply len_Ok in Hl as [Hs0 _]; subst n end.
    match goal with Hf : fill_loop (S i) ys ?t1 = Ok p |- _ =>
      rename t1 into t'; rename Hf into Hfill end.
    match goal with Hs : (if 0 <? size0 y0 then _ else _) = Ok t' |- _ =>
      rename Hs into Hset end.
    assert (Ht' : shape t' = shape t /\
                  forall j r, get t' (j :: r) =
                    if (0 <? size0 y0) && (j =? i) && in_boundsb (shape y0) r
                       && in_boundsb (tl (shape t)) r
                    then get y0 r else get t (j :: r)).
    { destruct (0 <? size0 y0).
      - apply setitem_prefix_get in Hset as [E1 E2]. split; [exact E1 |].
        intros j r0. now rewrite E2.
      - injection Hset as <-. split; reflexivity. }
    destruct Ht' as [Hsh Hget]. destruct k as [|k]; simpl in Hk.
    + injection Hk as ->. rewrite Nat.add_0_r.
      apply fill_loop_frame in Hfill as (_ & _ & Hfr). rewrite Hfr by lia.
      rewrite Hget, Nat.eqb_refl, andb_true_r. reflexivity.
    + replace (i + S k) with (S i + k) by lia.
      rewrite (IH _ _ _ Hfill k y Hk r), Hsh, Hget.
      destruct (Nat.eqb_spec (S i + k) i) as [E | _]; [lia |].
      now rewrite andb_false_r.
Qed.

(** The loop returns when every item has the rank of the region and fits. *)
Lemma fill_loop_returns : forall (ys : list (ndarray A)) i t N dims,
  shape t = N :: dims ->
  i + length ys <= N ->
  Forall (fun y => Forall2 le (shape y) dims) ys ->
  dims <> [] ->
  exists p, fill_loop i ys t = Ok p.
Proof.
  induction ys as [|y ys IH]; intros i t N dims Ht Hi Hall Hd; simpl; [eauto |].
  inversion Hall as [|? ? Hy Hall']; subst.
  assert (Hlen : length (shape y) = length dims)
    by (eapply Forall2_length; eauto).
  unfold len. destruct (shape y) as [|n s] eqn:Hs;
    [destruct dims; [easy | discriminate] |].
  cbn [bind]. simpl in Hi.
  destruct (0 <? n).
  - unfold setitem_prefix. rewrite Ht.
    destruct (Nat.ltb_spec i N) as [_ | Hge]; [| lia].
    unfold ndim. rewrite Hs, Hlen, Nat.eqb_refl, (fits_le Hy).
    cbn [negb raise_if bind].
    eapply IH with (N := N) (dims := dims); eauto. lia.
  - cbn [bind]. eapply IH with (N := N) (dims := dims); eauto. lia.
Qed.

Lemma in_boundsb_empty (s : list nat) r :
  hd 0 s = 0 -> s <> [] -> in_boundsb s r = false.
Proof.
  intros H0 Hn. destruct s as [|n s]; [easy |]. simpl in H0. subst n.
  destruct r; reflexivity.
Qed.

Lemma size0_fix_empty e (y : ndarray A) :
  size0 y = 0 -> size0 (fix_empty e y) = 0.
Proof.
  unfold fix_empty. intros H. destruct ((ndim y =? 1) && (numel y =? 0));
    [| exact H].
  unfold size0. cbn [shape]. now destruct e.
Qed.

Lemma fold_left_max_In : forall l a,
  fold_left Nat.max l a = a \/ In (fold_left Nat.max l a) l.
Proof.
  induction l as [|b l IH]; intros a; simpl; [now left |].
  destruct (IH (Nat.max a b)) as [E | Hin]; [| now right; right].
  rewrite E. destruct (Nat.max_spec a b) as [[_ ->] | [_ ->]]; auto.
Qed.

(** Python's [max] returns one of the values. *)
Lemma py_max_In l m : py_max l = Ok m -> In m l.
Proof.
  destruct l as [|a l]; simpl; intros H; [discriminate |].
  injection H as <-. destruct (fold_left_max_In l a) as [-> | Hin]; auto.
Qed.

(** Each maximum taken by [max_dims] is the extent of an item that is not
    empty along its first axis. *)
Lemma max_dims_attained (x : list (ndarray A)) nd pad_dims :
  max_dims x nd = Ok pad_dims ->
  forall dim, dim < nd ->
  exists y, In y x /\ 0 < size0 y /\ nth dim (shape y) 0 = nth dim pad_dims 0.
Proof.
  unfold max_dims. intros H dim Hd.
  apply mapM_nth with (dB := 0) (dC := 0) (k := dim) in H;
    [| now rewrite length_seq].
  rewrite seq_nth in H by exact Hd. simpl in H.
  apply py_max_In in H. apply in_map_iff in H as (y & Hy & Hin).
  apply filter_In in Hin as [Hin Hpos]. apply Nat.ltb_lt in Hpos. eauto.
Qed.

Lemma fix_empty_size0_pos e (y : ndarray A) :
  0 < size0 (fix_empty e y) -> fix_empty e y = y.
Proof.
  intros H. destruct (Nat.eq_dec (size0 y) 0) as [E | E].
  - apply (size0_fix_empty e) in E. lia.
  - apply fix_empty_nonempty. lia.
Qed.

End PaddedContents.

(** What a returning call [list_to_padded(x, None, pad_value, False)]
    returns. *)
Lemma list_to_padded_None_run {A} (x : list (ndarray A)) (v : A)
    (p : ndarray A) :
  list_to_padded x None v false = Ok p ->
  exists pad_dims,
    shape p = length x :: pad_dims /\
    pad_dims <> [] /\
    (forall y, In y x -> 0 < size0 y -> Forall2 le (shape y) pad_dims) /\
    (forall dim, dim < length pad_dims ->
       exists y, In y x /\ 0 < size0 y /\
                 nth dim (shape y) 0 = nth dim pad_dims 0) /\
    (forall i y r, nth_error x i = Some y -> in_bounds pad_dims r ->
       get p (i :: r) = if in_boundsb (shape y) r then get y r else v).
Proof.
  intros H. apply list_to_padded_None_inv in H
    as (nd & pad_dims & Hne & Hnd & Hmax & Hfill).
  set (e := fold_left Nat.max (map ndim x) 0) in *.
  pose proof (@max_dims_attained _ _ _ _ Hmax) as Hatt.
  apply max_dims_bound in Hmax as [Hlen Hbound].
  pose proof (fill_loop_frame _ _ _ Hfill) as (Hsh & Hpos & _).
  cbn [full shape] in Hsh. rewrite length_map in Hsh.
  assert (Hnd0 : nd <> 0).
  { destruct x as [|x0 xs]; [easy |]. simpl in Hnd, Hpos.
    inversion Hnd; inversion Hpos; subst. congruence. }
  assert (Hfixed : forall y, In y x -> 0 < size0 y ->
                   In y (map (fix_empty e) x) /\ ndim y = nd).
  { intros y Hy Hs. assert (In (fix_empty e y) (map (fix_empty e) x)) as Hin
      by now apply in_map.
    rewrite (fix_empty_nonempty e y Hs) in Hin. split; [exact Hin |].
    rewrite Forall_forall in Hnd. now apply Hnd. }
  exists pad_dims. split; [exact Hsh | split; [| split; [| split]]].
  - intros E. rewrite E in Hlen. simpl in Hlen. congruence.
  - intros y Hy Hs. destruct (Hfixed y Hy Hs) as [Hin Hr].
    apply Forall2_le_nth; [unfold ndim in Hr; lia |].
    intros dim Hd. apply Hbound; [exact Hin | exact Hs |].
    unfold ndim in Hr. lia.
  - intros dim Hd. rewrite Hlen in Hd.
    destruct (Hatt dim Hd) as (y' & Hin & Hs & Hy').
    apply in_map_iff in Hin as (y & <- & Hy).
    pose proof (fix_empty_size0_pos e y Hs) as Hfx. rewrite Hfx in Hs, Hy'.
    eauto.
  - intros i y r Hi Hr.
    assert (Hi' : nth_error (map (fix_empty e) x) i = Some (fix_empty e y))
      by (rewrite nth_error_map, Hi; reflexivity).
    pose proof (fill_loop_get _ _ _ Hfill i Hi' r) as Hg.
    cbn [Nat.add full shape tl get] in Hg. rewrite Hg.
    apply in_boundsb_spec in Hr. rewrite Hr, andb_true_r.
    destruct (Nat.eq_dec (size0 y) 0) as [Hz | Hz].
    + rewrite (size0_fix_empty e y Hz). cbn [Nat.ltb Nat.leb andb].
      assert (Hndy : ndim (fix_empty e y) = nd).
      { rewrite Forall_forall in Hnd. apply Hnd. eapply nth_error_In; eauto. }
      destruct (fix_empty_ndim _ _ Hndy Hnd0) as [Hy0 _].
      rewrite in_boundsb_empty; [reflexivity | exact Hz |].
      unfold ndim in Hy0. now destruct (shape y).
    + rewrite (fix_empty_nonempty e y) by lia.
      destruct (Nat.ltb_spec 0 (size0 y)) as [_ | Hle]; [reflexivity | lia].
Qed.

(** X3. With [pad_size=None], [list_to_padded] returns a tensor of shape
    [(N, P_1, ..., P_D)], [D >= 1], where [P_d] is the largest extent of axis
    [d] among the items that are not empty along their first axis; row [i]
    holds item [i] in its leading corner and [pad_value] everywhere else. *)
Theorem list_to_padded_contents {A} (x : list (ndarray A)) (v : A)
    (p : ndarray A) :
  list_to_padded x None v false = Ok p ->
  exists pad_dims,
    shape p = length x :: pad_dims /\
    pad_dims <> [] /\
    (forall y, In y x -> 0 < size0 y -> Forall2 le (shape y) pad_dims) /\
    (forall dim, dim < length pad_dims ->
       exists y, In y x /\ 0 < size0 y /\
                 nth dim (shape y) 0 = nth dim pad_dims 0) /\
    (forall i y r, nth_error x i = Some y -> in_bounds pad_dims r ->
       get p (i :: r) = if in_boundsb (shape y) r then get y r else v).
Proof. apply list_to_padded_None_run. Qed.

Lemma list_to_padded_contents_witness :
  list_to_padded ragged_items None (-1)%Z false = Ok ragged_padded /\
  exists pad_dims,
    shape ragged_padded = length ragged_items :: pad_dims /\
    pad_dims <> [] /\
    (forall y, In y ragged_items -> 0 < size0 y ->
       Forall2 le (shape y) pad_dims) /\
    (forall dim, dim < length pad_dims ->
       exists y, In y ragged_items /\ 0 < size0 y /\
                 nth dim (shape y) 0 = nth dim pad_dims 0) /\
    (forall i y r, nth_error ragged_items i = Some y -> in_bounds pad_dims r ->
       get ragged_padded (i :: r) =
       if in_boundsb (shape y) r then get y r else (-1)%Z).
Proof.
  split; [reflexivity |].
  apply (@list_to_padded_contents Z ragged_items (-1)%Z ragged_padded).
  reflexivity.
Defined.

(** *** [list_to_padded] with a pad size *)

Section PadSize.
Context {A : Type}.

Lemma fold_left_max_const n : forall (l : list nat) a,
  Forall (fun m => m = n) l -> a <= n -> l <> [] -> fold_left Nat.max l a = n.
Proof.
  induction l as [|m l IH]; intros a Hall Ha Hne; [easy |].
  inversion Hall as [|? ? Hm Hall']; subst. simpl.
  destruct l as [|m' l]; [simpl; lia |].
  apply IH; [exact Hall' | lia | discriminate].
Qed.

(** One unfolding of the recursion on the pad size. *)
Lemma list_to_padded_sized_eq (ps : list nat) (x : list (ndarray A)) (v : A)
    (equisized : bool) :
  list_to_padded_sized ps x v equisized =
  list_to_padded_body
    (fun chunk =>
       match ps with
       | [] => Err IndexError
       | _ :: rest => list_to_padded_sized rest chunk v equisized
       end)
    x (Some ps) v equisized.
Proof. destruct ps; reflexivity. Qed.

(** What the corrected item reads like, for the loop. *)
Lemma fix_empty_read e (y : ndarray A) r :
  ndim y <> 0 ->
  (0 <? size0 (fix_empty e y)) && in_boundsb (shape (fix_empty e y)) r
    = in_boundsb (shape y) r /\
  get (fix_empty e y) r = get y r.
Proof.
  intros Hnd. split.
  - destruct (Nat.eq_dec (size0 y) 0) as [Hz | Hz].
    + rewrite (size0_fix_empty e y Hz). cbn [Nat.ltb Nat.leb andb].
      symmetry. apply in_boundsb_empty; [exact Hz |].
      unfold ndim in Hnd. now destruct (shape y).
    + rewrite (fix_empty_nonempty e y) by lia.
      destruct (Nat.ltb_spec 0 (size0 y)) as [_ | Hle]; [reflexivity | lia].
  - unfold fix_empty. now destruct ((ndim y =? 1) && (numel y =? 0)).
Qed.

Lemma fix_empty_shape e (y : ndarray A) ps :
  e = length ps -> Forall2 le (shape y) ps ->
  Forall2 le (shape (fix_empty e y)) ps.
Proof.
  intros -> H. unfold fix_empty.
  destruct ((ndim y =? 1) && (numel y =? 0)); [| exact H]. cbn [shape].
  clear. induction ps as [|q ps IH]; simpl; constructor; [lia | exact IH].
Qed.

(** With a pad size of the items' rank that every item fits,
    [list_to_padded] returns, and pads every item to that size. *)
Lemma list_to_padded_pad_size_run (x : list (ndarray A)) (ps : list nat) (v : A) :
  x <> [] -> ps <> [] ->
  Forall (fun y => Forall2 le (shape y) ps) x ->
  exists p, list_to_padded x (Some ps) v false = Ok p /\
    shape p = length x :: ps /\
    forall i y r, nth_error x i = Some y -> in_bounds ps r ->
      get p (i :: r) = if in_boundsb (shape y) r then get y r else v.
Proof.
  intros Hx Hps Hall.
  assert (Hrank : Forall (fun y : ndarray A => ndim y = length ps) x).
  { eapply Forall_impl; [| exact Hall]. intros y Hy.
    unfold ndim. exact (Forall2_length Hy). }
  assert (He : fold_left Nat.max (map ndim x) 0 = length ps).
  { apply fold_left_max_const; [| lia | now destruct x].
    apply Forall_map. exact Hrank. }
  assert (Hrank' : Forall (fun y : ndarray A => Forall2 le (shape y) ps)
                     (map (fix_empty (length ps)) x)).
  { apply Forall_map. eapply Forall_impl; [| exact Hall].
    intros y Hy. now apply fix_empty_shape. }
  assert (Hnd' : forall y, In y (map (fix_empty (length ps)) x) ->
                           ndim y = length ps).
  { intros y Hy. rewrite Forall_forall in Hrank'. unfold ndim.
    exact (Forall2_length (Hrank' y Hy)). }
  destruct (@fill_loop_returns A (map (fix_empty (length ps)) x) 0
              (full (length (map (fix_empty (length ps)) x) :: ps) v)
              (length (map (fix_empty (length ps)) x)) ps eq_refl)
    as [p Hfill]; [simpl; lia | exact Hrank' | exact Hps |].
  exists p. split; [| split].
  - unfold list_to_padded. rewrite list_to_padded_sized_eq.
    unfold list_to_padded_body. destruct x as [|x0 xs]; [easy |].
    set (x := x0 :: xs) in *. cbn [bind]. rewrite He.
    assert (Hx0 : ndim x0 = length ps) by (now inversion Hrank).
    assert (Hh : ndim (hd x0 (map (fix_empty (length ps)) x)) = length ps)
      by (apply Hnd'; now left).
    assert (Hex1 : existsb
              (fun y : ndarray A =>
                 negb (ndim y =? ndim (hd x0 (map (fix_empty (length ps)) x))))
              (map (fix_empty (length ps)) x) = false).
    { apply not_true_is_false. intros Hex.
      apply existsb_exists in Hex as (y & Hy & Hn).
      rewrite Hh, (Hnd' y Hy), Nat.eqb_refl in Hn. discriminate. }
    rewrite Hex1. cbn [raise_if bind]. rewrite Hx0, Nat.ltb_irrefl.
    cbn [bind].
    assert (Hex2 : existsb
              (fun y : ndarray A => negb (length ps =? ndim y))
              (map (fix_empty (length ps)) x) = false).
    { apply not_true_is_false. intros Hex.
      apply existsb_exists in Hex as (y & Hy & Hn).
      rewrite (Hnd' y Hy), Nat.eqb_refl in Hn. discriminate. }
    rewrite Hex2. cbn [raise_if bind]. exact Hfill.
  - apply fill_loop_frame in Hfill as (Hsh & _). rewrite Hsh. cbn [full shape].
    now rewrite length_map.
  - intros i y r Hi Hr.
    assert (Hi' : nth_error (map (fix_empty (length ps)) x) i
                  = Some (fix_empty (length ps) y))
      by (rewrite nth_error_map, Hi; reflexivity).
    pose proof (fill_loop_get _ _ _ Hfill i Hi' r) as Hg.
    cbn [Nat.add full shape tl get] in Hg. rewrite Hg.
    apply in_boundsb_spec in Hr. rewrite Hr, andb_true_r.
    assert (Hndy : ndim y <> 0).
    { rewrite Forall_forall in Hrank. rewrite (Hrank y (nth_error_In _ _ Hi)).
      now destruct ps. }
    destruct (fix_empty_read (length ps) y r Hndy) as [-> ->]. reflexivity.
Qed.

End PadSize.

(** X4. Given a pad size of the items' rank that no item exceeds,
    [list_to_padded] returns a tensor of shape [(N, *pad_size)] that holds
    item [i] in the leading corner of row [i] and [pad_value] elsewhere. *)
Theorem list_to_padded_pad_size {A} (x : list (ndarray A)) (ps : list nat)
    (v : A) :
  x <> [] -> ps <> [] ->
  Forall (fun y => Forall2 le (shape y) ps) x ->
  exists p, list_to_padded x (Some ps) v false = Ok p /\
    shape p = length x :: ps /\
    forall i y r, nth_error x i = Some y -> in_bounds ps r ->
      get p (i :: r) = if in_boundsb (shape y) r then get y r else v.
Proof. apply list_to_padded_pad_size_run. Qed.

Lemma list_to_padded_pad_size_witness :
  exists p, list_to_padded ragged_items (Some [4; 3]) 0%Z false = Ok p /\
    shape p = length ragged_items :: [4; 3] /\
    forall i y r, nth_error ragged_items i = Some y -> in_bounds [4; 3] r ->
      get p (i :: r) = if in_boundsb (shape y) r then get y r else 0%Z.
Proof.
  apply (@list_to_padded_pad_size Z ragged_items [4; 3] 0%Z).
  - discriminate.
  - discriminate.
  - repeat constructor.
Defined.

(** X5. For items of one shape [s] and [pad_size = s], the flag [equisized] only
    chooses the route: with it the items are stacked, without it they are
    written one by one into a tensor of [pad_value], and both calls return
    the same tensor of shape [(N, *s)], row [i] being item [i].  Without a
    pad size the flag makes the call raise [TypeError] (it takes
    [len(pad_size)]). *)
Theorem list_to_padded_equisized {A} (x : list (ndarray A)) (s : list nat)
    (v : A) :
  x <> [] -> s <> [] ->
  Forall (fun y => shape y = s) x ->
  (exists fast slow,
     list_to_padded x (Some s) v true = Ok fast /\
     list_to_padded x (Some s) v false = Ok slow /\
     shape fast = length x :: s /\
     elementwise_equal fast slow /\
     forall i y r, nth_error x i = Some y -> get fast (i :: r) = get y r) /\
  list_to_padded x None v true = Err TypeError.
Proof.
  intros Hx Hs Hall. split.
  - destruct (@list_to_padded_pad_size_run A x s v Hx Hs)
      as (slow & Hslow & Hsh & Hget).
    { eapply Forall_impl; [| exact Hall]. intros y ->.
      clear. induction s; constructor; [lia | assumption]. }
    destruct x as [|x0 xs]; [easy |]. set (x := x0 :: xs) in *.
    assert (Hx0 : shape x0 = s) by (now inversion Hall).
    assert (Hst : forallb
              (fun y : ndarray A =>
                 if shape_eq_dec (shape y) (shape x0) then true else false) x
              = true).
    { apply forallb_forall. intros y Hy. rewrite Forall_forall in Hall.
      rewrite (Hall y Hy), Hx0. now destruct (shape_eq_dec s s). }
    eexists. exists slow. split; [| split; [exact Hslow | split; [| split]]].
    + unfold list_to_padded. rewrite list_to_padded_sized_eq.
      unfold list_to_padded_body. unfold x at 1. cbv beta iota.
      unfold ndim at 1. rewrite Hx0, Nat.eqb_refl. cbn [bind].
      unfold stack. unfold x at 1. cbv beta iota.
      rewrite Hst. cbn [negb raise_if bind]. reflexivity.
    + cbn [shape]. now rewrite Hx0.
    + split; cbn [shape get].
      * intros i. now rewrite Hsh, Hx0.
      * intros i Hi. rewrite Hsh in Hi.
        apply in_bounds_cons_inv in Hi as (k & r & -> & Hk & Hr).
        destruct (nth_error x k) as [y |] eqn:Hy;
          [| apply nth_error_None in Hy; lia].
        rewrite (Hget k y r Hy Hr).
        assert (Hys : shape y = s).
        { rewrite Forall_forall in Hall. apply Hall. eapply nth_error_In; eauto. }
        rewrite Hys. apply in_boundsb_spec in Hr. rewrite Hr.
        now rewrite (nth_error_nth _ _ x0 Hy).
    + intros i y r Hy. cbn [get]. now rewrite (nth_error_nth _ _ x0 Hy).
  - destruct x as [|x0 xs]; [easy | reflexivity].
Qed.

(** Two items of shape [(1, 2)]. *)
Definition equal_items : list (ndarray Z) :=
  [ mk_ndarray [1; 2] (fun i => match i with [_; d] => Z.of_nat d | _ => 0 end)%Z;
    mk_ndarray [1; 2] (fun i => match i with [_; d] => Z.of_nat (d + 5) | _ => 0 end)%Z ].

Lemma list_to_padded_equisized_witness :
  (exists fast slow,
     list_to_padded equal_items (Some [1; 2]) 0%Z true = Ok fast /\
     list_to_padded equal_items (Some [1; 2]) 0%Z false = Ok slow /\
     shape fast = length equal_items :: [1; 2] /\
     elementwise_equal fast slow /\
     forall i y r, nth_error equal_items i = Some y ->
                   get fast (i :: r) = get y r) /\
  list_to_padded equal_items None 0%Z true = Err TypeError.
Proof.
  apply (@list_to_padded_equisized Z equal_items [1; 2] 0%Z).
  - discriminate.
  - discriminate.
  - repeat constructor.
Defined.

(** *** [padded_to_list] with int split sizes *)

Section Unpad.
Context {A : Type}.

Lemma mapM_returns {B C} (f : B -> result C) (g : B -> C) : forall l,
  (forall b, In b l -> f b = Ok (g b)) -> mapM f l = Ok (map g l).
Proof.
  induction l as [|b l IH]; intros H; simpl; [reflexivity |].
  rewrite (H b (or_introl eq_refl)). cbn [bind].
  rewrite IH by (intros b' Hb'; apply H; now right). reflexivity.
Qed.

Lemma slice_stop_le s n : slice_stop s n <= n.
Proof. unfold slice_stop. destruct (Z.ltb_spec s 0); lia. Qed.

Lemma nth_error_combine {B C} : forall (l : list B) (l' : list C) i b c,
  nth_error l i = Some b -> nth_error l' i = Some c ->
  nth_error (combine l l') i = Some (b, c).
Proof.
  induction l as [|b0 l IH]; intros [|c0 l'] [|i] b c Hb Hc; simpl in *;
    try discriminate.
  - now injection Hb as ->; injection Hc as ->.
  - now apply IH.
Qed.

End Unpad.

(** X6. On a padded tensor of shape [(N, S_1, ...)], [padded_to_list] with one int
    per item returns: item [i] is the first [split_size[i]] rows of [x[i]],
    and a split size beyond [S_1] is clipped to [S_1] (a slice never reads
    past the end). *)
Theorem padded_to_list_clips {A} (x : ndarray A) (N S1 : nat) (rest : list nat)
    (sizes : list Z) :
  shape x = N :: S1 :: rest ->
  length sizes = N ->
  exists l,
    padded_to_list x (Some (map SizeInt sizes)) = Ok l /\
    length l = N /\
    forall i s, nth_error sizes i = Some s ->
      exists y, nth_error l i = Some y /\
        shape y = slice_stop s S1 :: rest /\
        slice_stop s S1 <= S1 /\
        ((0 <= s)%Z -> slice_stop s S1 = Nat.min (Z.to_nat s) S1) /\
        forall r, get y r = get x (i :: r).
Proof.
  intros Hx Hlen.
  set (item := fun i : nat => mk_ndarray (S1 :: rest) (fun r => get x (i :: r))).
  set (cut := fun xs : ndarray A * split_item =>
                mk_ndarray (slice_shape [int_of (snd xs)] (shape (fst xs)))
                           (get (fst xs))).
  exists (map cut (combine (map item (seq 0 N)) (map SizeInt sizes))).
  assert (Hcl : length (combine (map item (seq 0 N)) (map SizeInt sizes)) = N)
    by (rewrite length_combine, !length_map, length_seq; lia).
  split; [| split].
  - unfold padded_to_list, unbind. rewrite Hx. cbn [bind]. fold item.
    unfold size0. rewrite Hx. cbn [hd]. rewrite length_map, Hlen, Nat.eqb_refl.
    cbn [negb raise_if bind].
    apply mapM_returns. intros [x_i s] Hin.
    apply in_combine_l in Hin as Hl. apply in_combine_r in Hin as Hr.
    apply in_map_iff in Hl as (i & <- & _).
    apply in_map_iff in Hr as (z & <- & _). reflexivity.
  - now rewrite length_map.
  - intros i s Hi.
    assert (HiN : i < N) by (rewrite <- Hlen; apply nth_error_Some; congruence).
    exists (cut (item i, SizeInt s)). split; [| split; [| split; [| split]]].
    + rewrite nth_error_map.
      rewrite (@nth_error_combine _ _ (map item (seq 0 N)) (map SizeInt sizes)
                 i (item i) (SizeInt s)); [reflexivity | |].
      * rewrite nth_error_map, nth_error_seq.
        destruct (Nat.ltb_spec i N); [reflexivity | lia].
      * now rewrite nth_error_map, Hi.
    + reflexivity.
    + apply slice_stop_le.
    + intros Hs. unfold slice_stop. destruct (Z.ltb_spec s 0); [lia | reflexivity].
    + reflexivity.
Qed.

Lemma padded_to_list_clips_witness :
  exists l,
    padded_to_list padded_2x2x1 (Some (map SizeInt [1; 5]%Z)) = Ok l /\
    length l = 2 /\
    forall i s, nth_error [1; 5]%Z i = Some s ->
      exists y, nth_error l i = Some y /\
        shape y = slice_stop s 2 :: [1] /\
        slice_stop s 2 <= 2 /\
        ((0 <= s)%Z -> slice_stop s 2 = Nat.min (Z.to_nat s) 2) /\
        forall r, get y r = get padded_2x2x1 (i :: r).
Proof.
  apply (@padded_to_list_clips Z padded_2x2x1 2 2 [1] [1; 5]%Z); reflexivity.
Defined.

(** *** From padded to packed *)

Section PaddedPacked.
Context {A : Type}.
Variable A_eq_dec : forall a b : A, {a = b} + {a <> b}.

(** The position [k] of a concatenation of blocks of the given sizes lies in
    one of the blocks. *)
Lemma list_sum_locate : forall (sizes : list nat) k,
  k < list_sum sizes ->
  exists i m, nth_error sizes i <> None /\ m < nth i sizes 0 /\
              k = list_sum (firstn i sizes) + m.
Proof.
  induction sizes as [|s sizes IH]; intros k Hk; [simpl in Hk; lia |].
  change (list_sum (s :: sizes)) with (s + list_sum sizes) in Hk.
  destruct (Nat.lt_ge_cases k s) as [Hlt | Hge].
  - exists 0, k. simpl. repeat split; [discriminate | exact Hlt].
  - destruct (IH (k - s)) as (i & m & Hi & Hm & E); [lia |].
    exists (S i), m. cbn [nth_error nth firstn].
    change (list_sum (s :: firstn i sizes)) with (s + list_sum (firstn i sizes)).
    repeat split; [exact Hi | exact Hm | lia].
Qed.

(** The rows of item [j] in the padded layout: [m + j * M] for [m < s]. *)
Definition item_rows (M : nat) (js : nat * nat) : list nat :=
  map (fun m => m + fst js * M) (seq 0 (snd js)).

Lemma padded_to_packed_idx_blocks M : forall (ms : list nat) i,
  padded_to_packed_idx M i (map SizeInt (map Z.of_nat ms)) =
  Ok (concat (map (item_rows M) (combine (seq i (length ms)) ms))).
Proof.
  induction ms as [|m ms IH]; intros i; [reflexivity |].
  cbn [map padded_to_packed_idx int_of length seq combine concat].
  unfold arange. destruct (Z.ltb_spec (Z.of_nat m) 0) as [Hneg | _]; [lia |].
  cbn [raise_if bind]. rewrite Nat2Z.id, IH. reflexivity.
Qed.

Lemma item_rows_lengths M : forall (ms : list nat) i,
  map (@length nat) (map (item_rows M) (combine (seq i (length ms)) ms)) = ms.
Proof.
  induction ms as [|m ms IH]; intros i; simpl; [reflexivity |].
  unfold item_rows at 1. cbn [fst snd]. now rewrite length_map, length_seq, IH.
Qed.

Lemma item_rows_nth M : forall (ms : list nat) i k,
  k < length ms ->
  nth k (map (item_rows M) (combine (seq i (length ms)) ms)) [] =
  item_rows M (i + k, nth k ms 0).
Proof.
  induction ms as [|m ms IH]; intros i [|k] Hk; simpl in *; try lia.
  - now rewrite Nat.add_0_r.
  - rewrite IH by lia. do 2 f_equal. lia.
Qed.

Lemma item_rows_bound M N (ms : list nat) k :
  length ms = N -> Forall (fun m => m <= M) ms ->
  In k (concat (map (item_rows M) (combine (seq 0 N) ms))) -> k < N * M.
Proof.
  intros Hlen Hall Hk. apply in_concat in Hk as (blk & Hblk & Hin).
  apply in_map_iff in Hblk as ([j s] & <- & Hjs).
  apply in_combine_l in Hjs as Hj. apply in_combine_r in Hjs as Hs.
  apply in_seq in Hj. rewrite Forall_forall in Hall. apply Hall in Hs.
  unfold item_rows in Hin. cbn [fst snd] in Hin.
  apply in_map_iff in Hin as (m & <- & Hm). apply in_seq in Hm. nia.
Qed.

End PaddedPacked.

(** X7. Padding a list of [(M_i, D)] items with [list_to_padded] and packing the
    result with [padded_to_packed], the items' lengths as split sizes, gives
    the tensor [list_to_packed] builds from the list directly: the padded and
    the packed representation of a batch agree. *)
Theorem padded_to_packed_list_to_padded {A}
    (A_eq_dec : forall a b : A, {a = b} + {a <> b})
    (x : list (ndarray A)) (D : nat) (v : A) (p : ndarray A) :
  0 < D ->
  Forall (fun y => exists m, shape y = [m; D]) x ->
  list_to_padded x None v false = Ok p ->
  exists q pk,
    padded_to_packed A_eq_dec p
      (Some (map (fun y => SizeInt (Z.of_nat (size0 y))) x)) None = Ok q /\
    list_to_packed x = Ok pk /\
    elementwise_equal q (x_packed pk).
Proof.
  intros HD Hall Hpad.
  apply list_to_padded_None_run in Hpad
    as (pad_dims & Hsh & Hne & Hbound & Hatt & Hget).
  (* the padded tensor has shape (N, M, D) *)
  assert (Hx : x <> []).
  { intros ->. destruct pad_dims as [|P0 Ps]; [easy |].
    destruct (Hatt 0) as (y & [] & _); simpl; lia. }
  assert (Hshape : forall y, In y x -> shape y = [size0 y; D]).
  { intros y Hy. rewrite Forall_forall in Hall. destruct (Hall y Hy) as [m Hm].
    unfold size0. now rewrite Hm. }
  assert (HM : exists M, pad_dims = [M; D]).
  { destruct pad_dims as [|M Ps]; [easy |].
    destruct (Hatt 0) as (y & Hy & Hpos & _); [simpl; lia |].
    pose proof (Hbound y Hy Hpos) as Hle. rewrite (Hshape y Hy) in Hle.
    inversion Hle as [|? ? ? ? _ Hle']; subst.
    inversion Hle' as [|? D' ? ? _ Hle'']; subst. inversion Hle''; subst.
    destruct (Hatt 1) as (y' & Hy' & _ & E); [simpl; lia |].
    rewrite (Hshape y' Hy') in E. simpl in E. subst D'. eauto. }
  destruct HM as [M ->].
  set (ms := map size0 x).
  assert (Hms : Forall (fun m => m <= M) ms).
  { apply Forall_map, Forall_forall. intros y Hy.
    destruct (Nat.eq_dec (size0 y) 0) as [-> | Hz]; [lia |].
    assert (Hpos : 0 < size0 y) by lia.
    pose proof (Hbound y Hy Hpos) as Hle. rewrite (Hshape y Hy) in Hle.
    now inversion Hle. }
  assert (Hsizes : map (fun y : ndarray A => SizeInt (Z.of_nat (size0 y))) x
                   = map SizeInt (map Z.of_nat ms))
    by (unfold ms; now rewrite !map_map).
  set (idx := concat (map (item_rows M) (combine (seq 0 (length ms)) ms))).
  assert (Hlms : length ms = length x) by (unfold ms; apply length_map).
  assert (Hidx_len : length idx = list_sum ms).
  { unfold idx. now rewrite length_concat_blocks, item_rows_lengths. }
  (* [list_to_packed] returns *)
  destruct (@cat_same_trailing A x [D] Hx) as (c & Hcat & Hcsh & d & Hcget).
  { apply Forall_forall. intros y Hy. rewrite (Hshape y Hy). eauto. }
  destruct (@list_to_packed_loop_returns A x 0
              (repeat 0%Z (length x), repeat 0%Z (length x), [], 0))
    as [[[[ni fi] il] cur] Hloop].
  { apply Forall_forall. intros y Hy. unfold ndim. now rewrite (Hshape y Hy). }
  assert (Hpk : list_to_packed x = Ok (mk_packed c ni fi (concat il))).
  { unfold list_to_packed. destruct x; [easy |].
    rewrite Hloop. cbn [bind]. rewrite Hcat. reflexivity. }
  (* [padded_to_packed] returns *)
  set (rows_ := mk_ndarray [length x * M; D]
                  (fun i => match i with
                            | [k; d] => get p [k / M; k mod M; d]
                            | _ => get p i
                            end)).
  assert (Hq : padded_to_packed A_eq_dec p
                 (Some (map (fun y => SizeInt (Z.of_nat (size0 y))) x)) None
               = Ok (take_rows rows_ idx)).
  { unfold padded_to_packed. rewrite Hsh. cbn [raise_if bind].
    unfold reshape_rows. destruct (Nat.eqb_spec D 0) as [E | _]; [lia |].
    cbn [raise_if bind]. fold rows_.
    rewrite length_map, Nat.eqb_refl. cbn [negb raise_if bind].
    assert (Hint : forallb is_int
                     (map (fun y : ndarray A => SizeInt (Z.of_nat (size0 y))) x)
                   = true).
    { apply forallb_forall. intros s Hs.
      apply in_map_iff in Hs as (y & <- & _). reflexivity. }
    rewrite Hint. cbn [negb raise_if bind].
    destruct (Nat.eqb_spec (length x) 0) as [E | _];
      [destruct x; [easy | discriminate] |].
    cbn [raise_if bind].
    rewrite Hsizes, padded_to_packed_idx_blocks. cbn [bind]. fold idx.
    unfold getitem_index.
    assert (Hin : existsb (fun k => size0 rows_ <=? k) idx = false).
    { apply not_true_is_false. intros Hex.
      apply existsb_exists in Hex as (k & Hk & Hle).
      apply Nat.leb_le in Hle. unfold size0, rows_ in Hle. cbn [shape hd] in Hle.
      unfold idx in Hk. rewrite Hlms in Hk.
      apply (@item_rows_bound M (length x) ms k Hlms Hms) in Hk. lia. }
    rewrite Hin. reflexivity. }
  exists (take_rows rows_ idx), (mk_packed c ni fi (concat il)).
  split; [exact Hq | split; [exact Hpk |]]. cbn [x_packed].
  assert (Hsame : shape (take_rows rows_ idx) = shape c).
  { unfold take_rows, rows_. cbn [shape tl]. now rewrite Hidx_len, Hcsh. }
  split; [intros i; now rewrite Hsame |].
  intros i Hi. rewrite Hcsh in Hi.
  apply in_bounds_cons_inv in Hi as (k & r & -> & Hk & Hr).
  apply in_bounds_cons_inv in Hr as (dd & r' & -> & Hd & Hr').
  inversion Hr'; subst. fold ms in Hk.
  destruct (list_sum_locate ms Hk) as (i & m & Hi & Hm & ->).
  assert (HiN : i < length x) by (rewrite <- Hlms; now apply nth_error_Some).
  destruct (nth_error x i) as [y |] eqn:Hy; [| apply nth_error_None in Hy; lia].
  assert (Hmy : nth i ms 0 = size0 y).
  { unfold ms. rewrite (nth_indep _ 0 (size0 y)) by (rewrite length_map; lia).
    now rewrite (map_nth size0 x y i), (nth_error_nth _ _ _ Hy). }
  rewrite Hmy in Hm.
  assert (HyM : size0 y <= M).
  { rewrite Forall_forall in Hms. apply Hms. unfold ms. apply in_map.
    eapply nth_error_In; eauto. }
  (* the packed side *)
  rewrite Hcget.
  pose proof (nth_error_split_at _ _ Hy) as Hsplit.
  pose proof (cat_get_app d (firstn i x) y (skipn (S i) x) [dd] Hm) as Hc.
  rewrite <- Hsplit in Hc. unfold ms. rewrite firstn_map, Hc.
  (* the padded side *)
  assert (Hnth : nth (list_sum (firstn i ms) + m) idx 0 = m + i * M).
  { pose proof (@nth_concat_block nat 0
                  (map (item_rows M) (combine (seq 0 (length ms)) ms)) i m)
      as Hn.
    rewrite <- firstn_map, item_rows_lengths, item_rows_nth in Hn by lia.
    fold idx in Hn. cbn [Nat.add] in Hn. rewrite Hmy in Hn.
    unfold item_rows in Hn. cbn [fst snd] in Hn.
    rewrite length_map, length_seq in Hn. rewrite (Hn Hm).
    rewrite (nth_indep _ 0 (0 + i * M))
      by (rewrite length_map, length_seq; exact Hm).
    rewrite (map_nth (fun m0 => m0 + i * M) (seq 0 (size0 y)) 0 m).
    now rewrite seq_nth by exact Hm. }
  rewrite <- firstn_map. fold ms. unfold take_rows. cbn [get]. rewrite Hnth.
  unfold rows_. cbn [get].
  rewrite Nat.div_add, Nat.Div0.mod_add, Nat.div_small, Nat.mod_small by lia.
  cbn [Nat.add].
  rewrite (Hget i y [m; dd] Hy) by (repeat constructor; lia).
  rewrite (Hshape y (nth_error_In _ _ Hy)). cbn [in_boundsb].
  destruct (Nat.ltb_spec m (size0 y)) as [_ | ?]; [| lia].
  destruct (Nat.ltb_spec dd D) as [_ | ?]; [reflexivity | lia].
Qed.

(** Two items of shapes [(2, 1)] and [(1, 1)], padded. *)
Definition two_items_padded : ndarray Z :=
  unwrap (full [] 0%Z) (list_to_padded two_items None 0%Z false).

Lemma padded_to_packed_list_to_padded_witness :
  list_to_padded two_items None 0%Z false = Ok two_items_padded /\
  shape two_items_padded = [2; 2; 1] /\
  exists q pk,
    padded_to_packed Z.eq_dec two_items_padded
      (Some (map (fun y => SizeInt (Z.of_nat (size0 y))) two_items)) None
    = Ok q /\
    list_to_packed two_items = Ok pk /\
    elementwise_equal q (x_packed pk).
Proof.
  split; [reflexivity | split; [reflexivity |]].
  apply (@padded_to_packed_list_to_padded Z Z.eq_dec two_items 1 0%Z
           two_items_padded).
  - lia.
  - repeat constructor; eexists; reflexivity.
  - reflexivity.
Defined.

(** *** Padding, then unpadding *)

Section RoundTrip.
Context {A : Type}.

(** Unpadding visits the items in order. *)
Lemma mapM_items_rel (Rel : ndarray A -> ndarray A -> Prop)
    (F : ndarray A * split_item -> result (ndarray A))
    (item : nat -> ndarray A) (sz : ndarray A -> split_item) :
  forall xs i,
    (forall k y, nth_error xs k = Some y ->
       exists r, F (item (i + k), sz y) = Ok r /\ Rel r y) ->
    exists l,
      mapM F (combine (map item (seq i (length xs))) (map sz xs)) = Ok l /\
      Forall2 Rel l xs.
Proof.
  induction xs as [|y xs IH]; intros i H; simpl.
  - exists []. split; [reflexivity | constructor].
  - destruct (H 0 y eq_refl) as (r & Hr & Hre). rewrite Nat.add_0_r in Hr.
    destruct (IH (S i)) as (l & Hl & Hle).
    { intros k y' Hk. replace (S i + k) with (i + S k) by lia. now apply H. }
    exists (r :: l). rewrite Hr, Hl. split; [reflexivity | now constructor].
Qed.

(** What comes back for one item: the same elements; the shape is the
    item's shape cut to the padded extents, which is the item's own shape
    when the item is not empty along its first axis. *)
Definition unpadded (pad_dims : list nat) (r y : ndarray A) : Prop :=
  elementwise_equal r y /\
  shape r = slice_shape (map Z.of_nat (shape y)) pad_dims /\
  (0 < size0 y -> shape r = shape y).

Lemma padded_to_list_of_padded (x : list (ndarray A)) (v : A) (p : ndarray A) :
  list_to_padded x None v false = Ok p ->
  exists l,
    padded_to_list p
      (Some (map (fun y => SizeTuple (map Z.of_nat (shape y))) x)) = Ok l /\
    Forall2 (unpadded (tl (shape p))) l x.
Proof.
  intros H. apply list_to_padded_None_inv in H
    as (nd & pad_dims & Hne & Hnd & Hmax & Hfill).
  set (e := fold_left Nat.max (map ndim x) 0) in *.
  apply max_dims_bound in Hmax as [Hlen Hbound].
  pose proof (fill_loop_frame _ _ _ Hfill) as (Hsh & Hpos & _).
  cbn [full shape] in Hsh. rewrite length_map in Hsh.
  assert (Hnd0 : nd <> 0).
  { destruct x as [|x0 xs]; [easy |]. simpl in Hnd, Hpos.
    inversion Hnd; inversion Hpos; subst. congruence. }
  unfold padded_to_list, unbind. rewrite Hsh. cbn [bind tl].
  unfold size0. rewrite Hsh. cbn [hd]. rewrite length_map, Nat.eqb_refl.
  cbn [negb raise_if bind].
  apply mapM_items_rel
    with (sz := fun y => SizeTuple (map Z.of_nat (shape y))).
  intros k y Hk. cbn [Nat.add].
  assert (Hy' : nth_error (map (fix_empty e) x) k = Some (fix_empty e y))
    by (rewrite nth_error_map, Hk; reflexivity).
  assert (Hin' : In (fix_empty e y) (map (fix_empty e) x))
    by (eapply nth_error_In; eauto).
  assert (Hndy : ndim (fix_empty e y) = nd)
    by (rewrite Forall_forall in Hnd; now apply Hnd).
  destruct (fix_empty_ndim _ _ Hndy Hnd0) as [Hy0 Hyle].
  unfold slice_prefix, ndim at 1. cbn [shape]. rewrite Hlen, length_map.
  fold (ndim y). destruct (Nat.ltb_spec nd (ndim y)) as [Hlt | _]; [lia |].
  cbn [raise_if bind]. eexists. split; [reflexivity |].
  unfold unpadded. cbn [shape].
  destruct (Nat.eq_dec (size0 y) 0) as [Hz | Hz].
  - (* the item has no element: neither has what comes back *)
    split; [| split; [reflexivity | intros Hp; lia]].
    unfold size0, ndim in *.
    destruct (shape y) as [|n s'] eqn:Hs; [easy |]. simpl in Hz. subst n.
    destruct pad_dims as [|P0 Ps]; [simpl in Hlen; lia |].
    split; cbn [shape get map slice_shape].
    + intros i. change (slice_stop (Z.of_nat 0) P0) with 0.
      rewrite ?Hs.
      split; intros Hi; apply in_bounds_cons_inv in Hi as (? & ? & _ & Hk0 & _);
        lia.
    + intros i Hi. rewrite ?Hs in Hi.
      apply in_bounds_cons_inv in Hi as (? & ? & _ & Hk0 & _). lia.
  - (* the item has elements: it was written to its region, and fits *)
    assert (Hpos_y : 0 < size0 y) by lia.
    pose proof (fix_empty_nonempty e y Hpos_y) as Hfix. rewrite Hfix in *.
    assert (Hle : Forall2 le (shape y) pad_dims).
    { apply Forall2_le_nth; [unfold ndim in Hndy; lia |].
      intros dim Hd. apply Hbound; [exact Hin' | exact Hpos_y |].
      unfold ndim in Hndy. lia. }
    split; [| split; [reflexivity | intros _; now apply slice_shape_le]].
    split; cbn [shape get].
    + intros i. now rewrite slice_shape_le.
    + intros i Hi.
      change (get p (0 + k :: i) = get y i).
      eapply fill_loop_written; eauto.
      cbn [full shape tl]. eapply in_bounds_le; eauto.
Qed.

(** The loop returns when every item that is written has the rank of the
    region and fits; the items without rows are skipped. *)
Lemma fill_loop_skips_empty : forall (ys : list (ndarray A)) i t N dims,
  shape t = N :: dims ->
  i + length ys <= N ->
  Forall (fun y => ndim y <> 0 /\
                   (0 < size0 y -> Forall2 le (shape y) dims)) ys ->
  exists p, fill_loop i ys t = Ok p.
Proof.
  induction ys as [|y ys IH]; intros i t N dims Ht Hi Hall; simpl; [eauto |].
  inversion Hall as [|? ? [Hy0 Hy] Hall']; subst.
  unfold len, ndim, size0 in *. destruct (shape y) as [|n s] eqn:Hs; [easy |].
  cbn [bind hd] in *. simpl in Hi.
  destruct (Nat.ltb_spec 0 n) as [Hn | Hn].
  - specialize (Hy Hn).
    assert (Hlen : length (n :: s) = length dims)
      by (eapply Forall2_length; eauto).
    unfold setitem_prefix. rewrite Ht.
    destruct (Nat.ltb_spec i N) as [_ | Hge]; [| lia].
    unfold ndim. rewrite Hs, Hlen, Nat.eqb_refl, (fits_le Hy).
    cbn [negb raise_if bind].
    eapply IH with (N := N) (dims := dims); eauto. lia.
  - cbn [bind]. eapply IH with (N := N) (dims := dims); eauto. lia.
Qed.

Lemma py_max_returns (l : list nat) : l <> [] -> exists m, py_max l = Ok m.
Proof. destruct l; [easy | simpl; eauto]. Qed.

Lemma max_dims_returns (x : list (ndarray A)) (nd : nat) :
  Exists (fun y => 0 < size0 y) x -> exists pad_dims, max_dims x nd = Ok pad_dims.
Proof.
  intros Hex. unfold max_dims.
  assert (Hne : filter (fun y : ndarray A => 0 <? size0 y) x <> []).
  { apply Exists_exists in Hex as (y & Hy & Hp).
    assert (Hin : In y (filter (fun y : ndarray A => 0 <? size0 y) x))
      by (apply filter_In; split; [exact Hy | now apply Nat.ltb_lt]).
    intros E. rewrite E in Hin. destruct Hin. }
  set (g := fun dim =>
              match map (fun y : ndarray A => nth dim (shape y) 0)
                        (filter (fun y : ndarray A => 0 <? size0 y) x) with
              | [] => 0
              | a :: l' => fold_left Nat.max l' a
              end).
  exists (map g (seq 0 nd)). apply mapM_returns. intros dim _. unfold g.
  destruct (filter (fun y : ndarray A => 0 <? size0 y) x); [easy |].
  reflexivity.
Qed.

Lemma fix_empty_same_rank (nd : nat) (y : ndarray A) :
  ndim y = nd -> ndim (fix_empty nd y) = nd.
Proof.
  intros H. unfold fix_empty.
  destruct ((ndim y =? 1) && (numel y =? 0)); [| exact H].
  unfold ndim. cbn [shape]. apply repeat_length.
Qed.

(** [list_to_padded] returns on items of one rank of which one has a row. *)
Lemma list_to_padded_None_returns (x : list (ndarray A)) (v : A) (nd : nat) :
  Forall (fun y => ndim y = nd) x ->
  Exists (fun y => 0 < size0 y) x ->
  exists p, list_to_padded x None v false = Ok p.
Proof.
  intros Hrank Hex.
  assert (Hnd0 : nd <> 0).
  { apply Exists_exists in Hex as (y & Hy & Hp).
    rewrite Forall_forall in Hrank. rewrite <- (Hrank y Hy).
    unfold size0, ndim in *. destruct (shape y); simpl in *; [lia | easy]. }
  destruct x as [|x0 xs]; [inversion Hex |].
  set (x := x0 :: xs) in *.
  assert (He : fold_left Nat.max (map ndim x) 0 = nd).
  { apply fold_left_max_const; [| lia | discriminate].
    apply Forall_map. exact Hrank. }
  assert (Hrank' : forall y, In y (map (fix_empty nd) x) -> ndim y = nd).
  { intros y Hy. apply in_map_iff in Hy as (y0 & <- & Hy0).
    apply fix_empty_same_rank. rewrite Forall_forall in Hrank. now apply Hrank. }
  assert (Hex' : Exists (fun y => 0 < size0 y) (map (fix_empty nd) x)).
  { apply Exists_exists in Hex as (y & Hy & Hp). apply Exists_exists.
    exists y. split; [| exact Hp]. apply in_map_iff. exists y.
    split; [now apply fix_empty_nonempty | exact Hy]. }
  destruct (max_dims_returns nd Hex') as [pad_dims Hmax].
  pose proof (max_dims_bound _ _ Hmax) as [Hlen Hbound].
  destruct (@fill_loop_skips_empty (map (fix_empty nd) x) 0
              (full (length (map (fix_empty nd) x) :: pad_dims) v)
              (length (map (fix_empty nd) x)) pad_dims eq_refl)
    as [p Hfill]; [simpl; lia | |].
  { apply Forall_forall. intros y Hy. split; [rewrite (Hrank' y Hy); exact Hnd0 |].
    intros Hp. apply Forall2_le_nth.
    - pose proof (Hrank' y Hy) as Hr. unfold ndim in Hr. lia.
    - intros dim Hd. apply Hbound; [exact Hy | exact Hp |].
      pose proof (Hrank' y Hy) as Hr. unfold ndim in Hr. lia. }
  exists p. unfold list_to_padded, list_to_padded_body. fold x.
  cbn [bind]. rewrite He. unfold x at 1. cbv beta iota. fold x.
  assert (Hh : ndim (hd x0 (map (fix_empty nd) x)) = nd)
    by (apply Hrank'; now left).
  assert (Hex1 : existsb
            (fun y : ndarray A =>
               negb (ndim y =? ndim (hd x0 (map (fix_empty nd) x))))
            (map (fix_empty nd) x) = false).
  { apply not_true_is_false. intros Hx.
    apply existsb_exists in Hx as (y & Hy & Hn).
    rewrite Hh, (Hrank' y Hy), Nat.eqb_refl in Hn. discriminate. }
  rewrite Hex1. cbn [raise_if bind]. rewrite Hh, Hmax. cbn [bind].
  exact Hfill.
Qed.

Lemma slice_shape_min : forall (s P : list nat),
  length s = length P ->
  slice_shape (map Z.of_nat s) P =
  map (fun sP => Nat.min (fst sP) (snd sP)) (combine s P).
Proof.
  induction s as [|a s IH]; intros [|b P] H; simpl in *; try discriminate;
    [reflexivity |].
  rewrite IH by lia. f_equal. unfold slice_stop.
  destruct (Z.ltb_spec (Z.of_nat a) 0); [lia |]. now rewrite Nat2Z.id.
Qed.

End RoundTrip.

(** Items of the shapes [(0, 5)] and [(2, 3)], and one item of the shape
    [(0, 3)]. *)
Definition wide_empty_items : list (ndarray Z) :=
  [ mk_ndarray [0; 5] (fun _ => 0%Z);
    mk_ndarray [2; 3]
      (fun i => match i with [k; d] => Z.of_nat (3 * k + d) | _ => 0 end)%Z ].

Definition one_empty_item : list (ndarray Z) :=
  [ mk_ndarray [0; 3] (fun _ => 0%Z) ].

(** C7 (as amended). For a list of tensors of one rank of which at least
    one has a row, [list_to_padded(x, pad_value=v)] returns, and
    [padded_to_list] of the result, each item's own per-axis lengths as
    split sizes, returns one tensor per item.  An item with a row comes back
    as it was: the same shape, the same elements.  An item without rows
    comes back without elements and with the same rank, its other extents cut
    to the padded extents [P_d]: [min(s_d, P_d)]. *)
Theorem padded_to_list_list_to_padded {A} (x : list (ndarray A)) (v : A)
    (nd : nat) :
  Forall (fun y => ndim y = nd) x ->
  Exists (fun y => 0 < size0 y) x ->
  exists p l,
    list_to_padded x None v false = Ok p /\
    padded_to_list p
      (Some (map (fun y => SizeTuple (map Z.of_nat (shape y))) x)) = Ok l /\
    Forall2
      (fun r y =>
         (0 < size0 y -> shape r = shape y) /\
         shape r = map (fun sP => Nat.min (fst sP) (snd sP))
                       (combine (shape y) (tl (shape p))) /\
         (forall i, in_bounds (shape r) i <-> in_bounds (shape y) i) /\
         (forall i, in_bounds (shape y) i -> get r i = get y i))
      l x.
Proof.
  intros Hrank Hex.
  destruct (list_to_padded_None_returns v Hrank Hex) as [p Hp].
  destruct (padded_to_list_of_padded _ _ Hp) as (l & Hl & Hall).
  exists p, l. split; [exact Hp |]. split; [exact Hl |].
  destruct (list_to_padded_None_run _ _ Hp) as (pad_dims & Hsh & _ & Hle & _).
  assert (Hlen : length pad_dims = nd).
  { apply Exists_exists in Hex as (y & Hy & Hpos).
    rewrite Forall_forall in Hrank. rewrite <- (Hrank y Hy).
    symmetry. exact (Forall2_length (Hle y Hy Hpos)). }
  rewrite Hsh in *. cbn [tl] in *.
  assert (Hin : forall r y, In y x -> unpadded pad_dims r y ->
            (0 < size0 y -> shape r = shape y) /\
            shape r = map (fun sP => Nat.min (fst sP) (snd sP))
                          (combine (shape y) pad_dims) /\
            (forall i, in_bounds (shape r) i <-> in_bounds (shape y) i) /\
            (forall i, in_bounds (shape y) i -> get r i = get y i)).
  { intros r y Hy ([He1 He2] & Hs & Hsame).
    split; [exact Hsame |]. split; [| split; [exact He1 | exact He2]].
    rewrite Hs. apply slice_shape_min.
    rewrite Forall_forall in Hrank. pose proof (Hrank y Hy) as Hr.
    unfold ndim in Hr. lia. }
  clear - Hall Hin. induction Hall as [|r y l x Hry _ IH]; constructor.
  - apply Hin; [now left | exact Hry].
  - apply IH. intros r' y' Hy'. apply Hin. now right.
Qed.

Lemma padded_to_list_list_to_padded_witness :
  exists p l,
    list_to_padded ragged_items None (-1)%Z false = Ok p /\
    padded_to_list p
      (Some (map (fun y => SizeTuple (map Z.of_nat (shape y))) ragged_items))
      = Ok l /\
    Forall2
      (fun r y =>
         (0 < size0 y -> shape r = shape y) /\
         shape r = map (fun sP => Nat.min (fst sP) (snd sP))
                       (combine (shape y) (tl (shape p))) /\
         (forall i, in_bounds (shape r) i <-> in_bounds (shape y) i) /\
         (forall i, in_bounds (shape y) i -> get r i = get y i))
      l ragged_items.
Proof.
  apply (@padded_to_list_list_to_padded Z ragged_items (-1)%Z 2).
  - repeat constructor.
  - apply Exists_cons_hd. cbn. lia.
Defined.

(** C7, as stated, fails on same-rank lists with items that have no row.
    When no item has a row, padding raises and there is nothing to unpad;
    next to an item of shape [(2, 3)], an item of shape [(0, 5)] comes back
    with shape [(0, 3)]. *)
Lemma padded_to_list_list_to_padded_empty_items :
  map shape one_empty_item = [[0; 3]] /\
  list_to_padded one_empty_item None 0%Z false
    = Err (ValueError "max() arg is an empty sequence") /\
  map shape wide_empty_items = [[0; 5]; [2; 3]] /\
  exists p l,
    list_to_padded wide_empty_items None 0%Z false = Ok p /\
    padded_to_list p
      (Some (map (fun y => SizeTuple (map Z.of_nat (shape y)))
                 wide_empty_items)) = Ok l /\
    map shape l = [[0; 3]; [2; 3]] /\
    map shape l <> map shape wide_empty_items.
Proof.
  split; [reflexivity |]. split; [reflexivity |]. split; [reflexivity |].
  eexists. eexists. split; [reflexivity |]. split; [reflexivity |].
  split; [reflexivity | discriminate].
Qed.

End StructUtils.

(** ** pytorch3d/ops/sample_points_from_meshes.py *)

Module SamplePoints.
Import Torch.

(** *** Real-valued tensor operations *)

Definition zeros (s : list nat) : ndarray R := full s 0%R.

Definition rsum (l : list R) : R := fold_right Rplus 0%R l.

(** The 2-norm of the values along an axis. *)
Definition norm2 (l : list R) : R := sqrt (rsum (map (fun x => x * x)%R l)).

(** [t.mean()] and [t.std()] over all elements; [std] is torch's default, with
    Bessel's correction. *)
Definition mean (t : ndarray R) : R :=
  (rsum (elements t) / INR (numel t))%R.

Definition std (t : ndarray R) : R :=
  sqrt (rsum (map (fun x => (x - mean t) * (x - mean t))%R (elements t))
        / (INR (numel t) - 1))%R.

(** [torch.sparse.mm(L, x)]: the product of two matrices. *)
Definition mm (a b : ndarray R) : result (ndarray R) :=
  match shape a, shape b with
  | [n; k], [k'; m] =>
      raise_if (negb (k =? k'))
        (RuntimeError "mat1 and mat2 shapes cannot be multiplied") ;;;
      Ok (mk_ndarray [n; m]
            (fun i => match i with
                      | [r; c] =>
                          rsum (map (fun j => get a [r; j] * get b [j; c])%R
                                    (seq 0 k))
                      | _ => 0%R
                      end))
  | _, _ => Err (RuntimeError "mm expects two matrices")
  end.

Definition replace_at {B} (dim : nat) (b : B) (l : list B) : list B :=
  firstn dim l ++ b :: skipn (S dim) l.

(** [a.cross(b, dim=1)] *)
Definition cross (a b : ndarray R) : result (ndarray R) :=
  match broadcast_shapes (shape a) (shape b) with
  | None => Err (RuntimeError "The size of tensor a must match the size of tensor b")
  | Some s =>
      raise_if (negb ((nth 1 (shape a) 0 =? 3) && (nth 1 (shape b) 0 =? 3)))
        (RuntimeError "inputs dimension 1 must have length 3") ;;;
      let at_ (t : ndarray R) (k : nat) (i : list nat) :=
        get t (broadcast_index (shape t) (replace_at 1 (k mod 3) i)) in
      Ok (mk_ndarray s
            (fun i =>
               let c := nth 1 i 0 in
               (at_ a (c + 1)%nat i * at_ b (c + 2)%nat i
                - at_ a (c + 2)%nat i * at_ b (c + 1)%nat i)%R))
  end.

(** [torch.argmax(t, dim)]: the first position of the largest value. *)
Fixpoint argmax_from (best : R) (best_i i : nat) (l : list R) : nat :=
  match l with
  | [] => best_i
  | x :: l' =>
      if Rlt_dec best x then argmax_from x i (S i) l'
      else argmax_from best best_i (S i) l'
  end.

Definition argmax_list (l : list R) : Z :=
  match l with
  | [] => 0%Z
  | x :: l' => Z.of_nat (argmax_from x 0 1 l')
  end.

(** [torch.mode]: the most frequent value, the smallest of them on a tie. *)
Definition count_occ_R (x : R) (l : list R) : nat :=
  length (filter (fun y => if Req_dec_T x y then true else false) l).

Definition mode_list (l : list R) : R :=
  fold_left
    (fun best y =>
       if count_occ_R best l <? count_occ_R y l then y
       else if (count_occ_R best l =? count_occ_R y l) &&
               (if Rlt_dec y best then true else false)
            then y else best)
    l (hd 0%R l).

(** [t.max().item()] of an int64 tensor. *)
Definition tensor_max (t : ndarray Z) : result Z :=
  match elements t with
  | [] => Err (RuntimeError "max(): Expected reduction dim to be specified for input.numel() == 0")
  | z :: l => Ok (fold_left Z.max l z)
  end.

(** *** The batch of meshes and the collaborators *)

(** Modelled from the spec: the [Meshes] container (pytorch3d.structures, not
    among the sources), reduced to what the sampler reads from it.  Each
    field is what the method of the same name returns; [textures] is the
    texture sampler [meshes.sample_textures], applied to the fragments'
    [pix_to_face] and [bary_coords], when the batch has textures. *)
Record Meshes : Type := mk_Meshes {
  len_meshes : nat;
  isempty : bool;
  verts_packed : ndarray R;
  verts_features_packed : option (ndarray R);
  textures : option (ndarray Z -> ndarray R -> result (ndarray R));
  faces_packed : ndarray Z;
  mesh_to_faces_packed_first_idx : ndarray Z;
  valid : list bool;
  num_faces_per_mesh : ndarray Z;
  verts_normals_packed : ndarray R
}.

(** What the module imports and the sources do not hold: torch's random
    generator, with the entries [torch.rand] and [Tensor.multinomial] draw in
    a state and the state they leave, and the operators
    [mesh_face_areas_normals], [packed_to_padded] and [cot_laplacian] of
    pytorch3d.ops. *)
Record Collaborators : Type := mk_Collaborators {
  Gen : Type;
  rand_entry : Gen -> list nat -> list nat -> R;
  rand_next : Gen -> list nat -> Gen;
  multinomial_entry : Gen -> ndarray R -> nat -> list nat -> Z;
  multinomial_next : Gen -> ndarray R -> nat -> Gen;
  mesh_face_areas_normals :
    ndarray R -> ndarray Z -> result (ndarray R * ndarray R);
  packed_to_padded : ndarray R -> ndarray Z -> Z -> result (ndarray R);
  cot_laplacian : ndarray R -> ndarray Z -> result (ndarray R * ndarray R)
}.

(** One item of the returned tuple, named after the variable returned. *)
Inductive returned : Type :=
| Samples (samples : ndarray R)
| Normals (normals : ndarray R)
| Textures (textures : ndarray R)
| SampleFeatures (sample_features : ndarray R)
| SampledFaceCurvatures (sampled_face_curvatures : ndarray R)
| SampleFaceIdxs (sample_face_idxs : ndarray Z).

(** The value of a local variable that is only bound on some paths. *)
Definition bound {B} (o : option B) : result B :=
  match o with
  | Some b => Ok b
  | None => Err (RuntimeError "UnboundLocalError")
  end.

(** Truth value of [interpolate_features] (None or a string). *)
Definition truthy (o : option string) : bool :=
  match o with
  | Some s => negb (String.eqb s "")
  | None => false
  end.

(** The hard-coded number of samples per mesh. *)
Definition hard_coded_num_samples : nat := N.to_nat 100000.

Section Sampler.
Variable E : Collaborators.

(** Computations that read and advance the random generator and may raise. *)
Definition M (B : Type) : Type := Gen E -> result B * Gen E.

Definition ret {B} (b : B) : M B := fun g => (Ok b, g).

Definition lift {B} (r : result B) : M B := fun g => (r, g).

Definition bindM {B C} (m : M B) (k : B -> M C) : M C :=
  fun g => match m g with
           | (Ok b, g') => k b g'
           | (Err e, g') => (Err e, g')
           end.

Notation "x <~ m ;; k" := (bindM m (fun x => k))
  (at level 61, m at next level, right associativity).
Notation "m ;;;; k" := (bindM m (fun _ => k))
  (at level 61, right associativity).

(** [torch.rand(size)] *)
Definition rand (size : list nat) : M (ndarray R) :=
  fun g => (Ok (mk_ndarray size (rand_entry E g size)), rand_next E g size).

(** [weights.multinomial(num_samples, replacement=True)] *)
Definition valid_distribution (weights : ndarray R) : bool :=
  match shape weights with
  | [n] =>
      forallb (fun x => if Rle_dec 0 x then true else false) (elements weights)
      && (if Rlt_dec 0 (rsum (elements weights)) then true else false)
  | [rows; n] =>
      forallb (fun r =>
                 let row := map (fun k => get weights [r; k]) (seq 0 n) in
                 forallb (fun x => if Rle_dec 0 x then true else false) row
                 && (if Rlt_dec 0 (rsum row) then true else false))
              (seq 0 rows)
  | _ => false
  end.

Definition multinomial (weights : ndarray R) (num_samples : nat)
    : M (ndarray Z) :=
  fun g =>
    match shape weights with
    | [] | _ :: _ :: _ :: _ =>
        (Err (RuntimeError "prob_dist must be 1 or 2 dim"), g)
    | _ =>
        if num_samples =? 0
        then (Err (RuntimeError "cannot sample n_sample <= 0 samples"), g)
        else if negb (valid_distribution weights)
        then (Err (RuntimeError "invalid multinomial distribution"), g)
        else
          (Ok (mk_ndarray (removelast (shape weights) ++ [num_samples])
                 (multinomial_entry E g weights num_samples)),
           multinomial_next E g weights num_samples)
    end.

(** *** compute_mean_curvature *)

Definition compute_mean_curvature (verts_packed : ndarray R)
    (faces_packed : ndarray Z) (vert_normals : ndarray R) (signed : bool)
    : result (ndarray R) :=
  L_inv_areas <- cot_laplacian E verts_packed faces_packed ;;
  let L := fst L_inv_areas in
  (* Apply the Laplacian to the vertex positions *)
  mean_curvature_normals <- mm L verts_packed ;;
  mean_curvature <- reduce norm2 1 false mean_curvature_normals ;;
  if signed then
    (* the signed mean curvature, by projecting onto the normal *)
    projected <- map2 Rmult mean_curvature_normals vert_normals ;;
    signs <- reduce rsum 1 false projected ;;
    signed_mean_curvature <- map2 Rmult signs mean_curvature ;;
    (* Standard-normalize the mean curvature values *)
    let mean := mean signed_mean_curvature in
    let std := std signed_mean_curvature in
    Ok (tmap (fun x => (x - mean) / std)%R signed_mean_curvature)
  else Ok mean_curvature.

(** The local variable [signed_mean_curvature] of [compute_mean_curvature]:
    the values before they are standardized. *)
Definition signed_mean_curvature (verts_packed : ndarray R)
    (faces_packed : ndarray Z) (vert_normals : ndarray R)
    : result (ndarray R) :=
  L_inv_areas <- cot_laplacian E verts_packed faces_packed ;;
  mean_curvature_normals <- mm (fst L_inv_areas) verts_packed ;;
  mean_curvature <- reduce norm2 1 false mean_curvature_normals ;;
  projected <- map2 Rmult mean_curvature_normals vert_normals ;;
  signs <- reduce rsum 1 false projected ;;
  map2 Rmult signs mean_curvature.

(** *** _rand_barycentric_coords *)

Definition _rand_barycentric_coords (size1 size2 : nat)
    : M (ndarray R * ndarray R * ndarray R) :=
  uv <~ rand [2; size1; size2] ;;
  u <~ lift (select 0 0 uv) ;;
  v <~ lift (select 0 1 uv) ;;
  let u_sqrt := tmap sqrt u in
  let w0 := tmap (fun x => 1 - x)%R u_sqrt in
  w1 <~ lift (map2 Rmult u_sqrt (tmap (fun x => 1 - x)%R v)) ;;
  w2 <~ lift (map2 Rmult u_sqrt v) ;;
  ret (w0, w1, w2).

(** *** sample_points_from_meshes *)

(** [w0[:, :, None] * a + w1[:, :, None] * b + w2[:, :, None] * c] *)
Definition barycentric_combination (w0 w1 w2 a b c : ndarray R)
    : result (ndarray R) :=
  w0' <- unsqueeze 2 w0 ;;
  w0a <- map2 Rmult w0' a ;;
  w1' <- unsqueeze 2 w1 ;;
  w1b <- map2 Rmult w1' b ;;
  s01 <- map2 Rplus w0a w1b ;;
  w2' <- unsqueeze 2 w2 ;;
  w2c <- map2 Rmult w2' c ;;
  map2 Rplus s01 w2c.

(** [1/3 * a + 1/3 * b + 1/3 * c] *)
Definition centroid (a b c : ndarray R) : result (ndarray R) :=
  let third := tmap (fun x => 1 / 3 * x)%R in
  ab <- map2 Rplus (third a) (third b) ;;
  map2 Rplus ab (third c).

(** The draw of face indices when [sample_face_idxs_raw] is None. *)
Definition draw_face_idxs (meshes : Meshes) (num_samples : nat)
    : M (ndarray Z) :=
  areas_normals <~ lift (mesh_face_areas_normals E (verts_packed meshes)
                           (faces_packed meshes)) ;;
  let areas := fst areas_normals in
  max_faces <~ lift (tensor_max (num_faces_per_mesh meshes)) ;;
  first_idx <~ lift (getitem_mask (mesh_to_faces_packed_first_idx meshes)
                       (valid meshes)) ;;
  areas_padded <~ lift (packed_to_padded E areas first_idx max_faces) ;;
  multinomial areas_padded num_samples.

(** The block under [if return_normals:]. *)
Definition sample_normals (meshes : Meshes) (num_samples : nat)
    (v0 v1 v2 : ndarray R) (sample_face_idxs : ndarray Z)
    : result (ndarray R) :=
  let normals := zeros [len_meshes meshes; num_samples; 3] in
  e1 <- map2 Rminus v1 v0 ;;
  e2 <- map2 Rminus v2 v1 ;;
  vert_normals_all <- cross e1 e2 ;;
  norms <- reduce norm2 1 true vert_normals_all ;;
  (* sys.float_info.epsilon is 2 ** -52 *)
  let clamped := tmap (Rmax (/ 2 ^ 52)) norms in
  vert_normals_all <- map2 Rdiv vert_normals_all clamped ;;
  vert_normals <- getitem_tensor vert_normals_all sample_face_idxs ;;
  setitem_mask normals (valid meshes) vert_normals.

(** [vertex_curvatures[faces[sample_face_idxs][:, :, k]]] *)
Definition curvatures_at (vertex_curvatures : ndarray R) (faces : ndarray Z)
    (sample_face_idxs : ndarray Z) (k : nat) : result (ndarray R) :=
  sampled_faces <- getitem_tensor faces sample_face_idxs ;;
  corner <- select 2 k sampled_faces ;;
  getitem_tensor vertex_curvatures corner.

(** The block under [if return_curvature:]. *)
Definition sample_curvatures (meshes : Meshes) (sample_face_idxs : ndarray Z)
    : result (ndarray R) :=
  let vertex_normals := verts_normals_packed meshes in
  vertex_curvatures <- compute_mean_curvature (verts_packed meshes)
                         (faces_packed meshes) vertex_normals true ;;
  curvatures_v0 <- curvatures_at vertex_curvatures (faces_packed meshes)
                     sample_face_idxs 0 ;;
  curvatures_v1 <- curvatures_at vertex_curvatures (faces_packed meshes)
                     sample_face_idxs 1 ;;
  curvatures_v2 <- curvatures_at vertex_curvatures (faces_packed meshes)
                     sample_face_idxs 2 ;;
  s01 <- map2 Rplus curvatures_v0 curvatures_v1 ;;
  s <- map2 Rplus s01 curvatures_v2 ;;
  Ok (tmap (fun x => x / 3)%R s).

(** The block under [if return_textures:]. *)
Definition sample_textures_block (meshes : Meshes) (num_samples : nat)
    (w0 w1 w2 : ndarray R) (sample_face_idxs : ndarray Z)
    : result (ndarray R) :=
  pix_to_face <- view sample_face_idxs [len_meshes meshes; num_samples; 1; 1] ;;
  stacked <- stack3 2 w0 w1 w2 ;;
  bary1 <- unsqueeze 2 stacked ;;
  bary <- unsqueeze 2 bary1 ;;
  sampler <- match textures meshes with
             | Some f => Ok f
             | None => Err (RuntimeError "AttributeError")
             end ;;
  textures <- sampler pix_to_face bary ;;
  (* textures[:, :, 0, 0, :] *)
  raise_if (ndim textures <? 5) IndexError ;;;
  t1 <- select 2 0 textures ;;
  select 2 0 t1.

(** The block under [if interpolate_features is not None:]. *)
Definition interpolate (meshes : Meshes) (num_samples : nat)
    (interpolate_features : string) (w0 w1 w2 : ndarray R)
    (sample_face_idxs : ndarray Z) : result (ndarray R) :=
  features <- match verts_features_packed meshes with
              | Some f => Ok f
              | None => Err (RuntimeError "AttributeError")
              end ;;
  raise_if (ndim features =? 0) IndexError ;;;
  let D := last (shape features) 0 in
  let sample_features :=
    full [len_meshes meshes; num_samples; D] (-1 * 1)%R in
  face_features <- getitem_tensor features (faces_packed meshes) ;;
  if String.eqb interpolate_features "barycentric" then
    f0 <- select 1 0 face_features ;;
    f1 <- select 1 1 face_features ;;
    f2 <- select 1 2 face_features ;;
    a <- getitem_tensor f0 sample_face_idxs ;;
    b <- getitem_tensor f1 sample_face_idxs ;;
    c <- getitem_tensor f2 sample_face_idxs ;;
    rhs <- barycentric_combination w0 w1 w2 a b c ;;
    setitem_mask sample_features (valid meshes) rhs
  else if String.eqb interpolate_features "majority" then
    face_features_sampled <- getitem_tensor face_features sample_face_idxs ;;
    raise_if (nth 2 (shape face_features_sampled) 0 =? 0)
      (RuntimeError "mode(): Expected reduction dim 2 to have non-zero size.") ;;;
    reduce mode_list 2 false face_features_sampled
  else if String.eqb interpolate_features "nearest" then
    face_features_sampled <- getitem_tensor face_features sample_face_idxs ;;
    stacked <- stack3 0 w0 w1 w2 ;;
    nearest_idx <- reduce argmax_list 0 false stacked ;;
    index <- unsqueeze (ndim nearest_idx) nearest_idx ;;
    gather (squeeze_last face_features_sampled) 2 index
  else Err (ValueError "Unknown interpolation").

(** The chain of [if ...: return ...] that ends the function. *)
Definition return_ladder (return_normals return_textures : bool)
    (interpolate_features : option string) (return_curvature : bool)
    (samples : ndarray R) (normals textures sample_features
     sampled_face_curvatures : option (ndarray R))
    (sample_face_idxs : ndarray Z) : result (list returned) :=
  if return_normals && return_textures && truthy interpolate_features then
    normals <- bound normals ;;
    textures <- bound textures ;;
    sample_features <- bound sample_features ;;
    Ok [Samples samples; Normals normals; Textures textures;
        SampleFeatures sample_features; SampleFaceIdxs sample_face_idxs]
  else if return_normals && return_textures then
    normals <- bound normals ;;
    textures <- bound textures ;;
    Ok [Samples samples; Normals normals; Textures textures;
        SampleFaceIdxs sample_face_idxs]
  else if return_normals && truthy interpolate_features then
    normals <- bound normals ;;
    sample_features <- bound sample_features ;;
    Ok [Samples samples; Normals normals; SampleFeatures sample_features;
        SampleFaceIdxs sample_face_idxs]
  else if return_normals && return_curvature then
    normals <- bound normals ;;
    sampled_face_curvatures <- bound sampled_face_curvatures ;;
    Ok [Samples samples; Normals normals;
        SampledFaceCurvatures sampled_face_curvatures;
        SampleFaceIdxs sample_face_idxs]
  else if return_textures && truthy interpolate_features then
    textures <- bound textures ;;
    sample_features <- bound sample_features ;;
    Ok [Samples samples; Textures textures; SampleFeatures sample_features;
        SampleFaceIdxs sample_face_idxs]
  else if truthy interpolate_features then
    sample_features <- bound sample_features ;;
    Ok [Samples samples; SampleFeatures sample_features;
        SampleFaceIdxs sample_face_idxs]
  else if return_normals then
    normals <- bound normals ;;
    Ok [Samples samples; Normals normals; SampleFaceIdxs sample_face_idxs]
  else if return_textures then
    textures <- bound textures ;;
    Ok [Samples samples; Textures textures; SampleFaceIdxs sample_face_idxs]
  else Ok [Samples samples; SampleFaceIdxs sample_face_idxs].

(** [b] under [if c:], a variable left unbound otherwise. *)
Definition when {B} (c : bool) (b : result B) : result (option B) :=
  if c then x <- b ;; Ok (Some x) else Ok None.

(** The function from [sample_face_idxs = sample_face_idxs_raw + ...] on,
    the raw face indices drawn or supplied. *)
Definition sample_from_face_idxs (meshes : Meshes) (num_samples : nat)
    (return_normals return_textures : bool)
    (interpolate_features : option string)
    (use_centroids return_curvature : bool)
    (samples : ndarray R) (sample_face_idxs_raw : ndarray Z)
    : M (list returned) :=
  let verts := verts_packed meshes in
  let faces := faces_packed meshes in
  let mesh_to_face := mesh_to_faces_packed_first_idx meshes in
  let num_valid_meshes := length (nonzero (valid meshes)) in
  first_idx <~ lift (getitem_mask mesh_to_face (valid meshes)) ;;
  offsets <~ lift (view first_idx [num_valid_meshes; 1]) ;;
  sample_face_idxs <~ lift (map2 Z.add sample_face_idxs_raw offsets) ;;
  (* print(sample_face_idxs.min(), sample_face_idxs.max(), ...) *)
  lift (raise_if (numel sample_face_idxs =? 0)
          (RuntimeError "min(): Expected reduction dim to be specified for input.numel() == 0")) ;;;;
  face_verts <~ lift (getitem_tensor verts faces) ;;
  v0 <~ lift (select 1 0 face_verts) ;;
  v1 <~ lift (select 1 1 face_verts) ;;
  v2 <~ lift (select 1 2 face_verts) ;;
  w <~ _rand_barycentric_coords num_valid_meshes num_samples ;;
  let '(w0, w1, w2) := w in
  a <~ lift (getitem_tensor v0 sample_face_idxs) ;;
  b <~ lift (getitem_tensor v1 sample_face_idxs) ;;
  c <~ lift (getitem_tensor v2 sample_face_idxs) ;;
  rhs <~ lift (if use_centroids then centroid a b c
               else barycentric_combination w0 w1 w2 a b c) ;;
  samples <~ lift (setitem_mask samples (valid meshes) rhs) ;;
  normals <~ lift (when return_normals
                     (sample_normals meshes num_samples v0 v1 v2
                        sample_face_idxs)) ;;
  sampled_face_curvatures <~
    lift (when return_curvature (sample_curvatures meshes sample_face_idxs)) ;;
  textures <~ lift (when return_textures
                      (sample_textures_block meshes num_samples w0 w1 w2
                         sample_face_idxs)) ;;
  sample_features <~
    lift (match interpolate_features with
          | Some mode =>
              x <- interpolate meshes num_samples mode w0 w1 w2
                     sample_face_idxs ;;
              Ok (Some x)
          | None => Ok None
          end) ;;
  lift (return_ladder return_normals return_textures interpolate_features
          return_curvature samples normals textures sample_features
          sampled_face_curvatures sample_face_idxs).

Definition sample_points_from_meshes (meshes : Meshes) (num_samples : Z)
    (return_normals return_textures : bool)
    (interpolate_features : option string)
    (use_centroids return_curvature : bool)
    (sample_face_idxs_raw : option (ndarray Z)) : M (list returned) :=
  lift (raise_if (isempty meshes) (ValueError "Meshes are empty.")) ;;;;
  let features := verts_features_packed meshes in
  (* torch.isfinite(verts).all(): every real number is finite *)
  lift (raise_if
          (return_textures &&
           match textures meshes with None => true | Some _ => false end)
          (ValueError "Meshes do not contain textures.")) ;;;;
  lift (raise_if
          (match interpolate_features with Some _ => true | None => false end &&
           match features with None => true | Some _ => false end)
          (ValueError "Meshes do not contain vertex features.")) ;;;;
  (* hard coded *)
  let num_samples := hard_coded_num_samples in
  let num_meshes := len_meshes meshes in
  (* Initialize samples tensor with fill value 0 for empty meshes. *)
  let samples := zeros [num_meshes; num_samples; 3] in
  sample_face_idxs_raw <~
    match sample_face_idxs_raw with
    | None => draw_face_idxs meshes num_samples
    | Some raw => ret raw
    end ;;
  sample_from_face_idxs meshes num_samples return_normals return_textures
    interpolate_features use_centroids return_curvature samples
    sample_face_idxs_raw.

End Sampler.

(** *** Broadcasting facts *)

Lemma broadcast_rev_same : forall s, broadcast_rev s s = Some s.
Proof.
  induction s as [|d s IH]; simpl; [reflexivity |].
  now rewrite IH, Nat.eqb_refl.
Qed.

Lemma broadcast_shapes_same s : broadcast_shapes s s = Some s.
Proof.
  unfold broadcast_shapes. rewrite broadcast_rev_same. simpl.
  now rewrite rev_involutive.
Qed.

Lemma broadcast_index_same : forall s i,
  in_bounds s i -> broadcast_index s i = i.
Proof.
  intros s i H. unfold broadcast_index.
  assert (Hl : length i = length s) by (eapply Forall2_length; eauto).
  rewrite Hl, Nat.sub_diag. simpl. clear Hl.
  induction H as [|k d i s Hk _ IH]; simpl; [reflexivity |].
  rewrite IH. destruct (Nat.eqb_spec d 1); [f_equal; lia | reflexivity].
Qed.

Lemma map2_same_shape {B C D} (f : B -> C -> D) (a : ndarray B) (b : ndarray C) :
  shape b = shape a ->
  map2 f a b =
  Ok (mk_ndarray (shape a)
        (fun i => f (get a (broadcast_index (shape a) i))
                    (get b (broadcast_index (shape a) i)))).
Proof.
  intros H. unfold map2. now rewrite H, broadcast_shapes_same.
Qed.

(** *** The barycentric weights *)

Lemma sqrt_unit (u : R) : (0 <= u < 1)%R -> (0 <= sqrt u <= 1)%R.
Proof.
  intros [H0 H1]. split; [apply sqrt_pos |].
  rewrite <- sqrt_1. apply sqrt_le_1; lra.
Qed.

(** C8. The barycentric weights generated from the uniforms [u], [v] in
    [[0, 1)] drawn by [torch.rand] are [w0 = 1 - sqrt u],
    [w1 = sqrt u * (1 - v)], [w2 = sqrt u * v]; they add up to 1 and each lies
    in [[0, 1]]. *)
Theorem rand_barycentric_coords_weights (E : Collaborators) (size1 size2 : nat)
    (g : Gen E) :
  let uv := rand_entry E g [2; size1; size2] in
  (forall i, (0 <= uv i < 1)%R) ->
  exists w0 w1 w2,
    _rand_barycentric_coords E size1 size2 g =
      (Ok (w0, w1, w2), rand_next E g [2; size1; size2]) /\
    shape w0 = [size1; size2] /\
    shape w1 = [size1; size2] /\
    shape w2 = [size1; size2] /\
    forall i j, i < size1 -> j < size2 ->
      let u := uv [0; i; j] in
      let v := uv [1; i; j] in
      let w0 := get w0 [i; j] in
      let w1 := get w1 [i; j] in
      let w2 := get w2 [i; j] in
      (w0 = 1 - sqrt u /\ w1 = sqrt u * (1 - v) /\ w2 = sqrt u * v /\
       w0 + w1 + w2 = 1 /\
       0 <= w0 <= 1 /\ 0 <= w1 <= 1 /\ 0 <= w2 <= 1)%R.
Proof.
  intros uv Hu. unfold _rand_barycentric_coords, bindM, rand, lift, ret, select.
  cbn [ndim shape length Nat.leb nth raise_if bind remove_at firstn skipn app tmap].
  rewrite !map2_same_shape by reflexivity. cbn [shape get tmap].
  do 3 eexists. split; [reflexivity |]. cbn [shape get].
  split; [reflexivity | split; [reflexivity | split; [reflexivity |]]].
  intros i j Hi Hj.
  rewrite !broadcast_index_same by (repeat constructor; assumption).
  unfold tmap, insert_at. cbn [shape get firstn skipn app]. fold uv.
  pose proof (Hu [0; i; j]) as Hu0. pose proof (Hu [1; i; j]) as Hu1.
  pose proof (sqrt_unit Hu0) as Hs.
  cbv zeta. set (s := sqrt (uv [0; i; j])) in *. set (v := uv [1; i; j]) in *.
  repeat split; try lra; nra.
Qed.

(** A generator that draws 1/4 everywhere and the face 0. *)
Definition constant_collaborators : Collaborators :=
  mk_Collaborators
    (Gen := unit)
    (fun _ _ _ => (1 / 4)%R) (fun g _ => g)
    (fun _ _ _ _ => 0%Z) (fun g _ _ => g)
    (fun _ _ => Err (RuntimeError "not used"))
    (fun _ _ _ => Err (RuntimeError "not used"))
    (fun _ _ => Err (RuntimeError "not used")).

Lemma rand_barycentric_coords_weights_witness :
  exists w0 w1 w2,
    _rand_barycentric_coords constant_collaborators 1 2 tt =
      (Ok (w0, w1, w2), tt) /\
    shape w0 = [1; 2] /\
    shape w1 = [1; 2] /\
    shape w2 = [1; 2] /\
    forall i j, i < 1 -> j < 2 ->
      let u := (1 / 4)%R in
      let v := (1 / 4)%R in
      let w0 := get w0 [i; j] in
      let w1 := get w1 [i; j] in
      let w2 := get w2 [i; j] in
      (w0 = 1 - sqrt u /\ w1 = sqrt u * (1 - v) /\ w2 = sqrt u * v /\
       w0 + w1 + w2 = 1 /\
       0 <= w0 <= 1 /\ 0 <= w1 <= 1 /\ 0 <= w2 <= 1)%R.
Proof.
  apply (rand_barycentric_coords_weights constant_collaborators 1 2 tt).
  intros i. simpl. lra.
Defined.

(** *** Standardized curvature *)

Lemma rsum_map_scale (a : R) (f : R -> R) (l : list R) :
  rsum (map (fun x => f x * a)%R l) = (rsum (map f l) * a)%R.
Proof. induction l as [|x l IH]; simpl; [lra | rewrite IH; lra]. Qed.

Lemma rsum_map_minus (m : R) (l : list R) :
  rsum (map (fun x => x - m)%R l) = (rsum l - INR (length l) * m)%R.
Proof.
  induction l as [|x l IH]; [simpl; lra |].
  cbn [map rsum fold_right length]. fold (rsum (map (fun x => (x - m)%R) l)).
  fold (rsum l). rewrite IH, S_INR. lra.
Qed.

Lemma length_indices : forall s, length (indices s) = prod s.
Proof.
  induction s as [|d s IH]; simpl; [reflexivity |].
  rewrite <- IH. generalize 0.
  induction d as [|d IHd]; intros a; simpl; [reflexivity |].
  now rewrite length_app, length_map, IHd.
Qed.

Lemma length_elements {A} (t : ndarray A) : length (elements t) = numel t.
Proof. unfold elements, numel. now rewrite length_map, length_indices. Qed.

Lemma elements_tmap {A B} (f : A -> B) (t : ndarray A) :
  elements (tmap f t) = map f (elements t).
Proof. unfold elements, tmap. cbn [shape get]. now rewrite map_map. Qed.

(** Standardizing gives zero mean and unit standard deviation, when the
    standard deviation to divide by is not zero. *)
Lemma standardized_mean_std (t : ndarray R) :
  std t <> 0%R ->
  let c := tmap (fun x => (x - mean t) / std t)%R t in
  mean c = 0%R /\ std c = 1%R.
Proof.
  intros Hs c.
  assert (Hm : mean c = 0%R).
  { unfold mean, c. rewrite elements_tmap. unfold numel, tmap. cbn [shape].
    fold (numel t). rewrite <- (length_elements t).
    unfold Rdiv at 2.
    rewrite (rsum_map_scale (/ std t) (fun x => x - mean t)%R).
    rewrite rsum_map_minus. unfold mean at 1. rewrite <- (length_elements t).
    destruct (Req_dec_T (INR (length (elements t))) 0) as [E | E].
    - rewrite E. unfold Rdiv. rewrite Rinv_0. lra.
    - replace (rsum (elements t) -
               INR (length (elements t)) *
               (rsum (elements t) / INR (length (elements t))))%R
        with 0%R by (field; exact E).
      unfold Rdiv. lra. }
  split; [exact Hm |].
  unfold std. rewrite Hm. unfold c at 1 2. rewrite elements_tmap.
  unfold numel, tmap. cbn [shape]. fold (numel t).
  rewrite map_map.
  set (n := INR (numel t)) in *.
  set (V := (rsum (map (fun x => (x - mean t) * (x - mean t))%R (elements t))
             / (n - 1))%R).
  assert (HsV : std t = sqrt V) by reflexivity.
  assert (HV : (0 < V)%R).
  { destruct (Rlt_dec 0 V) as [H | H]; [exact H |].
    exfalso. apply Hs. rewrite HsV. apply sqrt_neg_0. lra. }
  assert (Hn1 : (n - 1 <> 0)%R).
  { intros E. unfold V in HV. rewrite E in HV. unfold Rdiv in HV.
    rewrite Rinv_0 in HV. lra. }
  rewrite (map_ext
             (fun x => ((x - mean t) / std t - 0) * ((x - mean t) / std t - 0))%R
             (fun x => ((x - mean t) * (x - mean t)) * (/ std t * / std t))%R)
    by (intros x; unfold Rdiv; ring).
  rewrite (rsum_map_scale (/ std t * / std t)
             (fun x => (x - mean t) * (x - mean t))%R).
  rewrite <- Rinv_mult, HsV, sqrt_sqrt by lra.
  replace (rsum (map (fun x => (x - mean t) * (x - mean t))%R (elements t))
           * / V / (n - 1))%R with 1%R.
  - apply sqrt_1.
  - unfold V. field. split; [exact Hn1 |].
    intros E. unfold V in HV. rewrite E in HV. unfold Rdiv in HV. lra.
Qed.

Lemma compute_mean_curvature_signed (E : Collaborators)
    (verts faces_ normals : _) :
  compute_mean_curvature E verts faces_ normals true =
  bind (signed_mean_curvature E verts faces_ normals)
       (fun s => Ok (tmap (fun x => (x - mean s) / std s)%R s)).
Proof.
  unfold compute_mean_curvature, signed_mean_curvature.
  destruct (cot_laplacian E verts faces_) as [[L ia]|]; cbn [bind fst];
    [| reflexivity].
  destruct (mm L verts) as [mcn|]; cbn [bind]; [| reflexivity].
  destruct (reduce norm2 1 false mcn) as [mc|]; cbn [bind]; [| reflexivity].
  destruct (map2 Rmult mcn normals) as [pr|]; cbn [bind]; [| reflexivity].
  destruct (reduce rsum 1 false pr) as [sg|]; cbn [bind]; [| reflexivity].
  destruct (map2 Rmult sg mc); reflexivity.
Qed.

(** C9 (as amended). With [signed=True], [compute_mean_curvature] returns the
    signed mean curvature (the projection of the mean-curvature normal onto
    the supplied vertex normal, times the magnitude) standardized with the
    mean and the standard deviation taken over all packed vertices of the
    batch: the returned values of the whole batch have zero mean and unit
    standard deviation, when that standard deviation is not zero. *)
Theorem compute_mean_curvature_standardized (E : Collaborators)
    (verts_packed : ndarray R) (faces_packed : ndarray Z)
    (vert_normals : ndarray R) (c s : ndarray R) :
  compute_mean_curvature E verts_packed faces_packed vert_normals true = Ok c ->
  signed_mean_curvature E verts_packed faces_packed vert_normals = Ok s ->
  std s <> 0%R ->
  c = tmap (fun x => (x - mean s) / std s)%R s /\
  mean c = 0%R /\ std c = 1%R.
Proof.
  intros Hc Hs Hstd. rewrite compute_mean_curvature_signed, Hs in Hc.
  cbn [bind] in Hc. injection Hc as <-. split; [reflexivity |].
  now apply standardized_mean_std.
Qed.

(** A batch of two meshes, one right isosceles triangle each, the second one
    twice the size of the first; every vertex normal is the y axis. *)
Definition of_rows (rows : list (list R)) : ndarray R :=
  mk_ndarray [length rows; length (hd [] rows)]
    (fun i => match i with
              | [r; c] => nth c (nth r rows []) 0%R
              | _ => 0%R
              end).

Definition two_triangles_verts : ndarray R :=
  of_rows [[0; 0; 0]; [1; 1; 0]; [-1; 1; 0];
           [0; 0; 0]; [2; 2; 0]; [-2; 2; 0]]%R.

Definition two_triangles_faces : ndarray Z :=
  mk_ndarray [2; 3]
    (fun i => match i with
              | [f; c] => Z.of_nat (3 * f + c)
              | _ => 0%Z
              end).

Definition y_axis_normals : ndarray R :=
  of_rows [[0; 1; 0]; [0; 1; 0]; [0; 1; 0];
           [0; 1; 0]; [0; 1; 0]; [0; 1; 0]]%R.

(** The cotangent weights of these triangles: 1 (cot 45 degrees) on the two
    legs at the right angle, 0 (cot 90 degrees) on the hypotenuse. *)
Definition two_triangles_laplacian : ndarray R :=
  of_rows [[0; 1; 1; 0; 0; 0]; [1; 0; 0; 0; 0; 0]; [1; 0; 0; 0; 0; 0];
           [0; 0; 0; 0; 1; 1]; [0; 0; 0; 1; 0; 0]; [0; 0; 0; 1; 0; 0]]%R.

(** Collaborators for that batch: [cot_laplacian] answers with its weights
    (and unit inverse areas, which the curvature does not read). *)
Definition two_triangles_collaborators : Collaborators :=
  mk_Collaborators
    (Gen := unit)
    (fun _ _ _ => (1 / 4)%R) (fun g _ => g)
    (fun _ _ _ _ => 0%Z) (fun g _ _ => g)
    (fun _ _ => Err (RuntimeError "not used"))
    (fun _ _ _ => Err (RuntimeError "not used"))
    (fun _ _ => Ok (two_triangles_laplacian, full [6] 1%R)).

Definition two_triangles_signed_curvature : ndarray R :=
  unwrap (zeros [])
    (signed_mean_curvature two_triangles_collaborators two_triangles_verts
       two_triangles_faces y_axis_normals).

Definition two_triangles_curvature : ndarray R :=
  unwrap (zeros [])
    (compute_mean_curvature two_triangles_collaborators two_triangles_verts
       two_triangles_faces y_axis_normals true).

Lemma two_triangles_signed_curvature_elements :
  elements two_triangles_signed_curvature = [4; 0; 0; 16; 0; 0]%R.
Proof.
  unfold elements. cbn. unfold norm2. cbn.
  repeat f_equal; try ring.
  - match goal with |- (_ * sqrt ?e)%R = _ =>
      replace e with (2 * 2)%R by ring
    end.
    rewrite sqrt_square by lra. ring.
  - match goal with |- (_ * sqrt ?e)%R = _ =>
      replace e with (4 * 4)%R by ring
    end.
    rewrite sqrt_square by lra. ring.
Qed.

Lemma two_triangles_mean : mean two_triangles_signed_curvature = (10 / 3)%R.
Proof.
  unfold mean. rewrite two_triangles_signed_curvature_elements.
  cbn. field.
Qed.

Lemma two_triangles_std : std two_triangles_signed_curvature <> 0%R.
Proof.
  unfold std. rewrite two_triangles_mean, two_triangles_signed_curvature_elements.
  cbn. apply Rgt_not_eq, sqrt_lt_R0. lra.
Qed.

Lemma two_triangles_curvature_eq :
  two_triangles_curvature =
  tmap (fun x => (x - mean two_triangles_signed_curvature)
                 / std two_triangles_signed_curvature)%R
       two_triangles_signed_curvature.
Proof.
  unfold two_triangles_curvature. rewrite compute_mean_curvature_signed.
  reflexivity.
Qed.

Lemma two_triangles_signed_curvature_get :
  get two_triangles_signed_curvature [0] = 4%R /\
  get two_triangles_signed_curvature [1] = 0%R /\
  get two_triangles_signed_curvature [2] = 0%R.
Proof.
  pose proof two_triangles_signed_curvature_elements as He.
  unfold elements in He.
  change (shape two_triangles_signed_curvature) with [6] in He.
  cbn [indices flat_map map seq app] in He.
  injection He as H0 H1 H2 _ _ _. auto.
Qed.

Lemma compute_mean_curvature_standardized_witness :
  two_triangles_curvature =
    tmap (fun x => (x - mean two_triangles_signed_curvature)
                   / std two_triangles_signed_curvature)%R
         two_triangles_signed_curvature /\
  mean two_triangles_curvature = 0%R /\
  std two_triangles_curvature = 1%R.
Proof.
  apply (@compute_mean_curvature_standardized two_triangles_collaborators
           two_triangles_verts two_triangles_faces y_axis_normals).
  - reflexivity.
  - reflexivity.
  - exact two_triangles_std.
Defined.

(** C9, as stated, fails on a batch of two meshes: the mean and the standard
    deviation are taken over the packed vertices of both, so the values of
    the first mesh (vertices 0 to 2) do not have zero mean. *)
Lemma compute_mean_curvature_not_per_mesh :
  exists c c0 c1,
    compute_mean_curvature two_triangles_collaborators two_triangles_verts
      two_triangles_faces y_axis_normals true = Ok c /\
    StructUtils.packed_to_list c (StructUtils.SplitSizes [3; 3]%Z)
      = Ok [c0; c1] /\
    mean c0 <> 0%R.
Proof.
  exists two_triangles_curvature. do 2 eexists.
  split; [reflexivity | split; [reflexivity |]].
  destruct two_triangles_signed_curvature_get as (H0 & H1 & H2).
  pose proof two_triangles_mean as Hm. pose proof two_triangles_std as Hs.
  unfold mean, elements, numel. cbn [shape get].
  change (tl (shape two_triangles_curvature)) with (@nil nat).
  change (Z.to_nat 3) with 3.
  cbn [indices flat_map map seq app prod fold_right Nat.add Nat.mul].
  rewrite two_triangles_curvature_eq. unfold tmap. cbn [get].
  rewrite H0, H1, H2, Hm.
  set (s := std two_triangles_signed_curvature) in *.
  cbn [rsum fold_right].
  replace ((4 - 10 / 3) / s + ((0 - 10 / 3) / s + ((0 - 10 / 3) / s + 0)))%R
    with (-6 * / s)%R by (field; exact Hs).
  intros E. apply (Rinv_neq_0_compat s Hs).
  assert (H3 : (INR 3 <> 0)%R) by (simpl; lra).
  apply (Rmult_eq_compat_r (INR 3)) in E.
  unfold Rdiv in E. rewrite Rmult_assoc, Rinv_l, Rmult_0_l in E by exact H3.
  lra.
Qed.

(** *** Runs of the sampler *)

Lemma bindM_Ok (E : Collaborators) {B C} (m : M E B) (k : B -> M E C) g c g' :
  bindM m k g = (Ok c, g') ->
  exists b g1, m g = (Ok b, g1) /\ k b g1 = (Ok c, g').
Proof.
  unfold bindM. destruct (m g) as [[b|e] g1]; intros H;
    [eauto | discriminate].
Qed.

Lemma lift_Ok (E : Collaborators) {B} (r : result B) (g : Gen E) b g' :
  lift E r g = (Ok b, g') -> r = Ok b /\ g' = g.
Proof. unfold lift. intros H. injection H as -> ->. auto. Qed.

Lemma bindM_run (E : Collaborators) {B C} (m : M E B) (k : B -> M E C) g b g1 :
  m g = (Ok b, g1) -> bindM m k g = k b g1.
Proof. unfold bindM. now intros ->. Qed.

(** Inversion of a run that returned. *)
Ltac inv_run :=
  repeat match goal with
  | H : bindM _ _ _ = (Ok _, _) |- _ =>
      let b := fresh "x" in
      let g := fresh "g" in
      let Hb := fresh "Hx" in
      apply bindM_Ok in H; destruct H as (b & g & Hb & H)
  | H : lift _ _ _ = (Ok _, _) |- _ =>
      let Hg := fresh "Hg" in
      apply lift_Ok in H; destruct H as (H & Hg); subst
  | H : ret _ _ _ = (Ok _, _) |- _ =>
      unfold ret in H; injection H as H ?; subst
  | w : (ndarray R * ndarray R * ndarray R)%type |- _ =>
      destruct w as [[? ?] ?]
  end.

Lemma setitem_mask_Ok {A} (t : ndarray A) mask v t' :
  setitem_mask t mask v = Ok t' ->
  shape t' = shape t /\
  forall j r, nth j mask false = false -> get t' (j :: r) = get t (j :: r).
Proof.
  unfold setitem_mask. intros H. inv_ok. subst t'. cbn [shape get].
  split; [reflexivity |]. intros j r Hj. now rewrite Hj.
Qed.

(** The tuple starts with the sampled positions, whatever the flags. *)
Lemma return_ladder_samples rn rt interp rc samples normals textures_ features
    curvatures idxs out :
  return_ladder rn rt interp rc samples normals textures_ features curvatures
    idxs = Ok out ->
  exists rest, out = Samples samples :: rest.
Proof.
  unfold return_ladder. intros H.
  repeat match type of H with
         | (if ?c then _ else _) = _ => destruct c
         end; inv_ok; subst; eauto.
Qed.

(** Whether the tuple holds the sampled curvatures. *)
Definition has_curvature (out : list returned) : bool :=
  existsb (fun r => match r with
                    | SampledFaceCurvatures _ => true
                    | _ => false
                    end) out.

Lemma return_ladder_curvature rn rt interp rc samples normals textures_
    features curvatures idxs out :
  return_ladder rn rt interp rc samples normals textures_ features curvatures
    idxs = Ok out ->
  has_curvature out = rn && rc && negb rt && negb (truthy interp).
Proof.
  unfold return_ladder. intros H.
  destruct rn, rt, (truthy interp), rc; cbn [andb] in H; inv_ok; subst;
    reflexivity.
Qed.

(** What a returning call went through. *)
Lemma sample_points_from_meshes_inv (E : Collaborators) (meshes : Meshes)
    (num_samples : Z) (rn rt : bool) (interp : option string) (uc rc : bool)
    (raw : option (ndarray Z)) (g : Gen E) out g' :
  sample_points_from_meshes E meshes num_samples rn rt interp uc rc raw g
    = (Ok out, g') ->
  exists rhs samples normals textures_ features curvatures idxs,
    setitem_mask (zeros [len_meshes meshes; hard_coded_num_samples; 3])
      (valid meshes) rhs = Ok samples /\
    return_ladder rn rt interp rc samples normals textures_ features
      curvatures idxs = Ok out.
Proof.
  unfold sample_points_from_meshes, sample_from_face_idxs. intros H.
  inv_run. eauto 10.
Qed.

(** C1. Whatever [num_samples] the caller passes, the number of samples per
    mesh is the hard-coded 100000: the call does not depend on the argument,
    and the returned positions have shape [(N, 100000, 3)]. *)
Theorem sample_points_from_meshes_num_samples_hard_coded (E : Collaborators)
    (meshes : Meshes) (num_samples : Z) (return_normals return_textures : bool)
    (interpolate_features : option string)
    (use_centroids return_curvature : bool)
    (sample_face_idxs_raw : option (ndarray Z)) (g : Gen E)
    (out : list returned) (g' : Gen E) :
  sample_points_from_meshes E meshes num_samples return_normals return_textures
    interpolate_features use_centroids return_curvature sample_face_idxs_raw g
    = (Ok out, g') ->
  (forall num_samples',
      sample_points_from_meshes E meshes num_samples' return_normals
        return_textures interpolate_features use_centroids return_curvature
        sample_face_idxs_raw g = (Ok out, g')) /\
  exists samples rest,
    out = Samples samples :: rest /\
    shape samples = [len_meshes meshes; hard_coded_num_samples; 3] /\
    Z.of_nat hard_coded_num_samples = 100000%Z.
Proof.
  intros H. split; [intros n'; exact H |].
  apply sample_points_from_meshes_inv in H
    as (rhs & samples & normals & tex & feat & curv & idxs & Hset & Hret).
  apply return_ladder_samples in Hret as [rest ->].
  apply setitem_mask_Ok in Hset as [Hsh _].
  exists samples, rest.
  split; [reflexivity | split; [exact Hsh | reflexivity]].
Qed.

(** C2 (what the code does). The tuple a returning call hands back holds
    the sampled curvatures exactly when [return_normals] and
    [return_curvature] are set and neither textures nor features are
    requested: with [return_curvature=True] and [return_normals=False] the
    curvatures are computed and not returned. *)
Theorem sample_points_from_meshes_returns_curvature (E : Collaborators)
    (meshes : Meshes) (num_samples : Z) (return_normals return_textures : bool)
    (interpolate_features : option string)
    (use_centroids return_curvature : bool)
    (sample_face_idxs_raw : option (ndarray Z)) (g : Gen E)
    (out : list returned) (g' : Gen E) :
  sample_points_from_meshes E meshes num_samples return_normals return_textures
    interpolate_features use_centroids return_curvature sample_face_idxs_raw g
    = (Ok out, g') ->
  has_curvature out =
  return_normals && return_curvature && negb return_textures
  && negb (truthy interpolate_features).
Proof.
  intros H. apply sample_points_from_meshes_inv in H
    as (rhs & samples & normals & tex & feat & curv & idxs & _ & Hret).
  now apply return_ladder_curvature in Hret.
Qed.

(** Two runs from the same face indices. *)
Ltac same_steps :=
  repeat match goal with
  | H1 : ?r = Ok ?a, H2 : ?r = Ok ?b |- _ =>
      assert (a = b) by congruence; subst b; clear H2
  end.

Lemma rand_barycentric_coords_state (E : Collaborators) size1 size2 g w g' :
  _rand_barycentric_coords E size1 size2 g = (Ok w, g') ->
  g' = rand_next E g [2; size1; size2].
Proof.
  unfold _rand_barycentric_coords. intros H. inv_run.
  unfold rand in Hx. now injection Hx as _ <-.
Qed.

(** The positions a call computes with [use_centroids=True] from given raw
    face indices do not depend on the generator. *)
Lemma sample_from_face_idxs_centroids (E : Collaborators) (meshes : Meshes)
    num_samples rn rt interp rc samples0 raw (g1 g2 : Gen E) out1 out2 g1' g2' :
  sample_from_face_idxs E meshes num_samples rn rt interp true rc samples0 raw
    g1 = (Ok out1, g1') ->
  sample_from_face_idxs E meshes num_samples rn rt interp true rc samples0 raw
    g2 = (Ok out2, g2') ->
  exists samples rest1 rest2,
    out1 = Samples samples :: rest1 /\ out2 = Samples samples :: rest2.
Proof.
  unfold sample_from_face_idxs. intros H1 H2.
  inv_run. same_steps.
  apply return_ladder_samples in H1 as [rest1 ->].
  apply return_ladder_samples in H2 as [rest2 ->].
  eauto.
Qed.

(** C4 (as amended). With [use_centroids=True], two calls in different states
    of the random generator return the same positions whenever they sample
    the same faces: the face indices are supplied as [sample_face_idxs_raw],
    or [multinomial] draws the same ones in both states. *)
Theorem sample_points_from_meshes_centroids (E : Collaborators)
    (meshes : Meshes) (num_samples : Z) (return_normals return_textures : bool)
    (interpolate_features : option string) (return_curvature : bool)
    (sample_face_idxs_raw : option (ndarray Z)) (g1 g2 : Gen E)
    (out1 out2 : list returned) (g1' g2' : Gen E) :
  (sample_face_idxs_raw = None ->
   multinomial_entry E g1 = multinomial_entry E g2) ->
  sample_points_from_meshes E meshes num_samples return_normals return_textures
    interpolate_features true return_curvature sample_face_idxs_raw g1
    = (Ok out1, g1') ->
  sample_points_from_meshes E meshes num_samples return_normals return_textures
    interpolate_features true return_curvature sample_face_idxs_raw g2
    = (Ok out2, g2') ->
  exists samples rest1 rest2,
    out1 = Samples samples :: rest1 /\ out2 = Samples samples :: rest2.
Proof.
  unfold sample_points_from_meshes. intros Hdraw H1 H2. inv_run.
  match goal with
  | Ha : sample_from_face_idxs _ _ _ _ _ _ _ _ _ ?a _ = (Ok out1, _),
    Hb : sample_from_face_idxs _ _ _ _ _ _ _ _ _ ?b _ = (Ok out2, _) |- _ =>
      assert (a = b) as Hab;
        [| subst; eapply sample_from_face_idxs_centroids; eauto]
  end.
  destruct sample_face_idxs_raw as [raw |].
  - inv_run. congruence.
  - specialize (Hdraw eq_refl). unfold draw_face_idxs in *.
    inv_run. same_steps. unfold multinomial in *.
    repeat match goal with
           | H : match shape ?t with _ => _ end = (Ok _, _) |- _ => revert H
           end.
    match goal with
    | |- context [shape ?t] => destruct (shape t) as [|? [|? [|? ?]]]
    end; try (intros; discriminate);
      (destruct (hard_coded_num_samples =? 0); try (intros; discriminate);
       match goal with
       | |- context [valid_distribution ?t] => destruct (valid_distribution t)
       end; cbn [negb]; try (intros; discriminate);
       intros Ha Hb; injection Ha as <- _; injection Hb as <- _;
       now rewrite Hdraw).
Qed.

(** *** A batch with an empty mesh *)

(** Two meshes: the first has no face, the second is one right triangle with
    the feature 7 at each vertex. *)
Definition empty_and_triangle : Meshes :=
  mk_Meshes 2 false
    (of_rows [[0; 0; 0]; [3; 0; 0]; [0; 3; 0]]%R)
    (Some (full [3; 1] 7%R))
    None
    (mk_ndarray [1; 3]
       (fun i => match i with [_; c] => Z.of_nat c | _ => 0%Z end))
    (full [2] 0%Z)
    [false; true]
    (mk_ndarray [2] (fun i => match i with [k] => Z.of_nat k | _ => 0%Z end))
    (of_rows [[0; 0; 1]; [0; 0; 1]; [0; 0; 1]]%R).

(** Collaborators for it: [cot_laplacian] answers with the cotangent weights
    of the triangle. *)
Definition triangle_collaborators : Collaborators :=
  mk_Collaborators
    (Gen := unit)
    (fun _ _ _ => (1 / 4)%R) (fun g _ => g)
    (fun _ _ _ _ => 0%Z) (fun g _ _ => g)
    (fun _ _ => Err (RuntimeError "not used"))
    (fun _ _ _ => Err (RuntimeError "not used"))
    (fun _ _ => Ok (of_rows [[0; 1; 1]; [1; 0; 0]; [1; 0; 0]]%R,
                    full [3] 1%R)).

(** Raw face indices for one valid mesh: face 0 for every sample. *)
Definition first_face_everywhere : ndarray Z :=
  full [1; hard_coded_num_samples] 0%Z.

(** *** A mesh of two faces *)

(** One mesh, the unit square cut into two triangles. *)
Definition square : Meshes :=
  mk_Meshes 1 false
    (of_rows [[0; 0; 0]; [1; 0; 0]; [1; 1; 0]; [0; 1; 0]]%R)
    None
    None
    (mk_ndarray [2; 3]
       (fun i => match i with
                 | [0; c] => Z.of_nat c
                 | [_; 0] => 0%Z
                 | [_; c] => Z.of_nat (c + 1)
                 | _ => 0%Z
                 end))
    (full [1] 0%Z)
    [true]
    (full [1] 2%Z)
    (of_rows [[0; 0; 1]; [0; 0; 1]; [0; 0; 1]; [0; 0; 1]]%R).

(** Collaborators for it.  The state of the generator is the face it draws
    next: in state [g], [multinomial] draws face [g] for every sample, and
    [rand] draws 1/4 in state 0 and 3/4 in the others.
    [mesh_face_areas_normals] answers with the areas (1/2 each) and the
    normals (the z axis) of the two faces, [packed_to_padded] lays the areas
    of the one mesh out as one row. *)
Definition square_collaborators : Collaborators :=
  mk_Collaborators
    (Gen := Z)
    (fun g _ _ => if (g =? 0)%Z then (1 / 4)%R else (3 / 4)%R) (fun g _ => g)
    (fun g _ _ _ => g) (fun g _ _ => g)
    (fun _ _ => Ok (full [2] (1 / 2)%R, of_rows [[0; 0; 1]; [0; 0; 1]]%R))
    (fun areas _ _ =>
       Ok (mk_ndarray [1; 2]
             (fun i => match i with
                       | [_; f] => get areas [f]
                       | _ => 0%R
                       end)))
    (fun _ _ => Err (RuntimeError "not used")).

(** The positions and the interpolated features of a returned tuple. *)
Definition samples_of (out : list returned) : ndarray R :=
  match out with
  | Samples samples :: _ => samples
  | _ => zeros []
  end.

Fixpoint sample_features_of (out : list returned) : ndarray R :=
  match out with
  | [] => zeros []
  | SampleFeatures sample_features :: _ => sample_features
  | _ :: rest => sample_features_of rest
  end.

(** The names of the variables a tuple returns, in order. *)
Definition returned_name (r : returned) : string :=
  match r with
  | Samples _ => "samples"
  | Normals _ => "normals"
  | Textures _ => "textures"
  | SampleFeatures _ => "sample_features"
  | SampledFaceCurvatures _ => "sampled_face_curvatures"
  | SampleFaceIdxs _ => "sample_face_idxs"
  end.

Lemma returns_unwrap {G B} (d : B) (x : result B * G) :
  is_ok (fst x) = true -> x = (Ok (unwrap d (fst x)), snd x).
Proof. destruct x as [[b|e] g]; simpl; [reflexivity | discriminate]. Qed.

(** *** Calls on the batch with an empty mesh *)

(** A call with every flag off. *)
Definition plain_out : list returned :=
  unwrap []
    (fst (sample_points_from_meshes triangle_collaborators empty_and_triangle
            10000 false false None false false (Some first_face_everywhere)
            tt)).

Lemma plain_call_ok :
  is_ok
    (fst (sample_points_from_meshes triangle_collaborators empty_and_triangle
            10000 false false None false false (Some first_face_everywhere)
            tt)) = true.
Proof. reflexivity. Qed.

Lemma sample_points_from_meshes_num_samples_hard_coded_witness :
  (forall num_samples',
      sample_points_from_meshes triangle_collaborators empty_and_triangle
        num_samples' false false None false false (Some first_face_everywhere)
        tt
      = (Ok plain_out,
         snd (sample_points_from_meshes triangle_collaborators
                empty_and_triangle 10000 false false None false false
                (Some first_face_everywhere) tt))) /\
  exists samples rest,
    plain_out = Samples samples :: rest /\
    shape samples = [len_meshes empty_and_triangle; hard_coded_num_samples; 3] /\
    Z.of_nat hard_coded_num_samples = 100000%Z.
Proof.
  apply (@sample_points_from_meshes_num_samples_hard_coded
           triangle_collaborators empty_and_triangle 10000 false false None
           false false (Some first_face_everywhere) tt plain_out).
  exact (returns_unwrap [] _ plain_call_ok).
Defined.

(** A call that asks for the curvature and not for the normals. *)
Definition curvature_out : list returned :=
  unwrap []
    (fst (sample_points_from_meshes triangle_collaborators empty_and_triangle
            10000 false false None false true (Some first_face_everywhere)
            tt)).

Lemma curvature_call_ok :
  is_ok
    (fst (sample_points_from_meshes triangle_collaborators empty_and_triangle
            10000 false false None false true (Some first_face_everywhere)
            tt)) = true.
Proof. reflexivity. Qed.

Lemma sample_points_from_meshes_returns_curvature_witness :
  has_curvature curvature_out =
  false && true && negb false && negb (truthy None).
Proof.
  apply (@sample_points_from_meshes_returns_curvature
           triangle_collaborators empty_and_triangle 10000 false false None
           false true (Some first_face_everywhere) tt curvature_out
           (snd (sample_points_from_meshes triangle_collaborators
                   empty_and_triangle 10000 false false None false true
                   (Some first_face_everywhere) tt))).
  exact (returns_unwrap [] _ curvature_call_ok).
Defined.

(** A call that interpolates features by majority vote. *)
Definition majority_out : list returned :=
  unwrap []
    (fst (sample_points_from_meshes triangle_collaborators empty_and_triangle
            10000 false false (Some "majority"%string) false false
            (Some first_face_everywhere) tt)).

Lemma majority_call_ok :
  is_ok
    (fst (sample_points_from_meshes triangle_collaborators empty_and_triangle
            10000 false false (Some "majority"%string) false false
            (Some first_face_everywhere) tt)) = true.
Proof. reflexivity. Qed.

Lemma mode_list_same (x : R) : mode_list [x; x; x] = x.
Proof.
  unfold mode_list. cbn [fold_left hd].
  repeat match goal with
         | |- context [if ?c then x else x] =>
             replace (if c then x else x) with x by (destruct c; reflexivity)
         end.
  reflexivity.
Qed.

(** C3 (what the code does). On the batch of an empty mesh and a triangle,
    with [interpolate_features='majority']: the call returns; the positions
    have a row for each of the two meshes and the row of the empty mesh is
    zero; but the interpolated features have one row only, and it holds the
    features of the triangle, 7: the tensor filled with -1 is overwritten by
    the result of [torch.mode], which has a row per valid mesh. *)
Theorem sample_points_from_meshes_majority_drops_empty_mesh :
  let call :=
    sample_points_from_meshes triangle_collaborators empty_and_triangle 10000
      false false (Some "majority"%string) false false
      (Some first_face_everywhere) tt in
  call = (Ok majority_out, snd call) /\
  map returned_name majority_out
    = ["samples"; "sample_features"; "sample_face_idxs"]%string /\
  len_meshes empty_and_triangle = 2 /\
  valid empty_and_triangle = [false; true] /\
  shape (samples_of majority_out) = [2; hard_coded_num_samples; 3] /\
  (forall j c, get (samples_of majority_out) [0; j; c] = 0%R) /\
  shape (sample_features_of majority_out) = [1; hard_coded_num_samples; 1] /\
  (forall j, get (sample_features_of majority_out) [0; j; 0] = 7%R).
Proof.
  cbv zeta.
  split; [exact (returns_unwrap [] _ majority_call_ok) |].
  split; [reflexivity |].
  split; [reflexivity |].
  split; [reflexivity |].
  split; [reflexivity |].
  split; [intros j c; lazy -[IZR]; reflexivity |].
  split; [reflexivity |].
  intros j. lazy -[IZR mode_list]. apply mode_list_same.
Qed.

(** *** Calls on the mesh of two faces, in two states of the generator *)

(** Face 0 for every sample, supplied by the caller. *)
Definition centroid_out (g : Z) : list returned :=
  unwrap []
    (fst (sample_points_from_meshes square_collaborators square 10000
            false false None true false (Some first_face_everywhere) g)).

Lemma centroid_call_ok_0 :
  is_ok
    (fst (sample_points_from_meshes square_collaborators square 10000
            false false None true false (Some first_face_everywhere) 0%Z))
  = true.
Proof. reflexivity. Qed.

Lemma centroid_call_ok_1 :
  is_ok
    (fst (sample_points_from_meshes square_collaborators square 10000
            false false None true false (Some first_face_everywhere) 1%Z))
  = true.
Proof. reflexivity. Qed.

Lemma sample_points_from_meshes_centroids_witness :
  exists samples rest1 rest2,
    centroid_out 0 = Samples samples :: rest1 /\
    centroid_out 1 = Samples samples :: rest2.
Proof.
  apply (@sample_points_from_meshes_centroids square_collaborators square
           10000 false false None false (Some first_face_everywhere)
           0%Z 1%Z (centroid_out 0) (centroid_out 1)
           (snd (sample_points_from_meshes square_collaborators square 10000
                   false false None true false (Some first_face_everywhere)
                   0%Z))
           (snd (sample_points_from_meshes square_collaborators square 10000
                   false false None true false (Some first_face_everywhere)
                   1%Z))).
  - discriminate.
  - exact (returns_unwrap [] _ centroid_call_ok_0).
  - exact (returns_unwrap [] _ centroid_call_ok_1).
Defined.

(** The faces drawn by the call itself: face [g] in state [g]. *)
Lemma draw_face_idxs_square (g : Z) :
  draw_face_idxs square_collaborators square hard_coded_num_samples g
  = (Ok (full [1; hard_coded_num_samples] g), g).
Proof.
  unfold draw_face_idxs, bindM, lift, multinomial.
  cbn [mesh_face_areas_normals square_collaborators fst].
  cbn -[valid_distribution hard_coded_num_samples].
  replace (valid_distribution _) with true; [reflexivity |].
  unfold valid_distribution. cbn.
  repeat match goal with
         | |- context [Rle_dec ?a ?b] =>
             destruct (Rle_dec a b); [| exfalso; lra]
         end.
  repeat match goal with
         | |- context [Rlt_dec ?a ?b] =>
             destruct (Rlt_dec a b); [| exfalso; lra]
         end.
  reflexivity.
Qed.

Definition drawn_call (g : Z) : result (list returned) * Z :=
  sample_from_face_idxs square_collaborators square hard_coded_num_samples
    false false None true false (zeros [1; hard_coded_num_samples; 3])
    (full [1; hard_coded_num_samples] g) g.

Lemma sample_points_from_meshes_square_drawn (g : Z) :
  sample_points_from_meshes square_collaborators square 10000
    false false None true false None g = drawn_call g.
Proof.
  unfold sample_points_from_meshes.
  erewrite bindM_run; [| reflexivity].
  erewrite bindM_run; [| reflexivity].
  erewrite bindM_run; [| reflexivity].
  erewrite bindM_run; [| exact (draw_face_idxs_square g)].
  change (len_meshes square) with 1.
  unfold drawn_call.
  reflexivity.
Qed.

Definition drawn_out (g : Z) : list returned := unwrap [] (fst (drawn_call g)).

Lemma drawn_call_ok_0 : is_ok (fst (drawn_call 0)) = true.
Proof. reflexivity. Qed.

Lemma drawn_call_ok_1 : is_ok (fst (drawn_call 1)) = true.
Proof. reflexivity. Qed.

Lemma drawn_out_0 : get (samples_of (drawn_out 0)) [0; 0; 0] = (2 / 3)%R.
Proof. lazy -[IZR Rdiv]. lra. Qed.

Lemma drawn_out_1 : get (samples_of (drawn_out 1)) [0; 0; 0] = (1 / 3)%R.
Proof. lazy -[IZR Rdiv]. lra. Qed.

(** C4, as stated, fails when the call draws the faces itself: in two states
    of the generator [multinomial] draws different faces, and the centroids
    of different faces differ.  Here the states 0 and 1 draw the faces 0 and
    1 of the square; the first sample lies at x = 2/3 in one call and at
    x = 1/3 in the other. *)
Lemma sample_points_from_meshes_centroids_depend_on_draw :
  exists out0 out1 g0 g1,
    sample_points_from_meshes square_collaborators square 10000
      false false None true false None 0%Z = (Ok out0, g0) /\
    sample_points_from_meshes square_collaborators square 10000
      false false None true false None 1%Z = (Ok out1, g1) /\
    get (samples_of out0) [0; 0; 0] = (2 / 3)%R /\
    get (samples_of out1) [0; 0; 0] = (1 / 3)%R /\
    get (samples_of out0) [0; 0; 0] <> get (samples_of out1) [0; 0; 0].
Proof.
  exists (drawn_out 0), (drawn_out 1), (snd (drawn_call 0)), (snd (drawn_call 1)).
  rewrite !sample_points_from_meshes_square_drawn.
  split; [exact (returns_unwrap [] _ drawn_call_ok_0) |].
  split; [exact (returns_unwrap [] _ drawn_call_ok_1) |].
  split; [exact drawn_out_0 |].
  split; [exact drawn_out_1 |].
  rewrite drawn_out_0, drawn_out_1. lra.
Qed.

(** *** The steps of a returning call *)

(** What a returning call computed on its way: the raw face indices (drawn or
    supplied) and the state [g0] they leave, the global face indices, the
    corners of the faces, the barycentric weights, the positions and the
    optional tensors. *)
Lemma sample_points_from_meshes_steps (E : Collaborators) (meshes : Meshes)
    (num_samples : Z) (rn rt : bool) (interp : option string) (uc rc : bool)
    (raw : option (ndarray Z)) (g : Gen E) out g' :
  sample_points_from_meshes E meshes num_samples rn rt interp uc rc raw g
    = (Ok out, g') ->
  let S := hard_coded_num_samples in
  let Nv := length (nonzero (valid meshes)) in
  exists raw' g0 first_idx offsets sfi face_verts v0 v1 v2 w0 w1 w2 a b c rhs
         samples normals curv tex feat,
    match raw with
    | None => draw_face_idxs E meshes S g = (Ok raw', g0)
    | Some r => raw' = r /\ g0 = g
    end /\
    getitem_mask (mesh_to_faces_packed_first_idx meshes) (valid meshes)
      = Ok first_idx /\
    view first_idx [Nv; 1] = Ok offsets /\
    map2 Z.add raw' offsets = Ok sfi /\
    getitem_tensor (verts_packed meshes) (faces_packed meshes) = Ok face_verts /\
    select 1 0 face_verts = Ok v0 /\
    select 1 1 face_verts = Ok v1 /\
    select 1 2 face_verts = Ok v2 /\
    _rand_barycentric_coords E Nv S g0 = (Ok (w0, w1, w2), g') /\
    getitem_tensor v0 sfi = Ok a /\
    getitem_tensor v1 sfi = Ok b /\
    getitem_tensor v2 sfi = Ok c /\
    (if uc then centroid a b c else barycentric_combination w0 w1 w2 a b c)
      = Ok rhs /\
    setitem_mask (zeros [len_meshes meshes; S; 3]) (valid meshes) rhs
      = Ok samples /\
    when rn (sample_normals meshes S v0 v1 v2 sfi) = Ok normals /\
    when rc (sample_curvatures E meshes sfi) = Ok curv /\
    when rt (sample_textures_block meshes S w0 w1 w2 sfi) = Ok tex /\
    match interp with
    | Some mode => x <- interpolate meshes S mode w0 w1 w2 sfi ;; Ok (Some x)
    | None => Ok None
    end = Ok feat /\
    return_ladder rn rt interp rc samples normals tex feat curv sfi = Ok out.
Proof.
  intros H S Nv. unfold sample_points_from_meshes, sample_from_face_idxs in H.
  inv_run.
  match goal with
  | Hd : match raw with _ => _ end _ = (Ok ?r, ?g0) |- _ =>
      exists r, g0; rename Hd into Hdraw
  end.
  do 19 eexists.
  split; [destruct raw; [inv_run; split; reflexivity | exact Hdraw] |].
  repeat (split; [eassumption |]). eassumption.
Qed.

(** *** What the tuple holds *)

Lemma bound_Ok {B} (o : option B) (b : B) : bound o = Ok b -> o = Some b.
Proof. destruct o; simpl; intros H; [now injection H as -> | discriminate]. Qed.

Ltac inv_bound :=
  inv_ok;
  repeat match goal with
         | H : bound _ = Ok _ |- _ => apply bound_Ok in H
         end;
  subst.

(** The names of a tuple that holds the positions, then the normals, the
    textures, the features and the curvatures it is said to hold, then the
    face indices. *)
Definition tuple_names (normals textures_ features curvatures : bool)
    : list string :=
  (["samples"%string]
   ++ (if normals then ["normals"%string] else [])
   ++ (if textures_ then ["textures"%string] else [])
   ++ (if features then ["sample_features"%string] else [])
   ++ (if curvatures then ["sampled_face_curvatures"%string] else [])
   ++ ["sample_face_idxs"%string])%list.

(** The names of the items of the tuple, by the flags. *)
Lemma return_ladder_names rn rt interp rc samples normals textures_ features
    curvatures idxs out :
  return_ladder rn rt interp rc samples normals textures_ features curvatures
    idxs = Ok out ->
  map returned_name out =
  tuple_names rn rt (truthy interp)
    (rn && rc && negb rt && negb (truthy interp)).
Proof.
  unfold return_ladder. intros H.
  destruct rn, rt, (truthy interp), rc; cbn [andb] in H; inv_ok; subst;
    reflexivity.
Qed.

(** Every item of the tuple is the variable of its name. *)
Lemma return_ladder_items rn rt interp rc samples normals textures_ features
    curvatures idxs out :
  return_ladder rn rt interp rc samples normals textures_ features curvatures
    idxs = Ok out ->
  forall r, In r out ->
    match r with
    | Samples t => t = samples
    | Normals t => normals = Some t
    | Textures t => textures_ = Some t
    | SampleFeatures t => features = Some t
    | SampledFaceCurvatures t => curvatures = Some t
    | SampleFaceIdxs t => t = idxs
    end.
Proof.
  unfold return_ladder. intros H r Hr.
  destruct rn, rt, (truthy interp), rc; cbn [andb] in H; inv_bound;
    simpl in Hr; repeat (destruct Hr as [<- | Hr]; [reflexivity |]);
    destruct Hr.
Qed.

(** [interpolate] knows three modes. *)
Lemma interpolate_Ok_mode (meshes : Meshes) S mode w0 w1 w2 sfi x :
  interpolate meshes S mode w0 w1 w2 sfi = Ok x ->
  mode = "barycentric"%string \/ mode = "majority"%string \/
  mode = "nearest"%string.
Proof.
  unfold interpolate. intros H. inv_ok.
  destruct (String.eqb_spec mode "barycentric"); [auto |].
  destruct (String.eqb_spec mode "majority"); [auto |].
  destruct (String.eqb_spec mode "nearest"); [auto | discriminate].
Qed.

Lemma mode_truthy (mode : string) :
  mode = "barycentric"%string \/ mode = "majority"%string \/
  mode = "nearest"%string ->
  truthy (Some mode) = true.
Proof. intros [-> | [-> | ->]]; reflexivity. Qed.

(** X10. A call that names an interpolation mode other than 'barycentric',
    'majority' and 'nearest' never returns a tuple: a returning call with
    [interpolate_features] given names one of the three. *)
Theorem sample_points_from_meshes_interpolation_modes (E : Collaborators)
    (meshes : Meshes) (num_samples : Z) (return_normals return_textures : bool)
    (mode : string) (use_centroids return_curvature : bool)
    (sample_face_idxs_raw : option (ndarray Z)) (g : Gen E)
    (out : list returned) (g' : Gen E) :
  sample_points_from_meshes E meshes num_samples return_normals return_textures
    (Some mode) use_centroids return_curvature sample_face_idxs_raw g
    = (Ok out, g') ->
  mode = "barycentric"%string \/ mode = "majority"%string \/
  mode = "nearest"%string.
Proof.
  intros H. apply sample_points_from_meshes_steps in H.
  cbv zeta in H.
  destruct H as (raw' & g0 & first_idx & offsets & sfi & face_verts & v0 & v1
                 & v2 & w0 & w1 & w2 & a & b & c & rhs & samples & normals
                 & curv & tex & feat & H).
  do 17 (destruct H as [_ H]). destruct H as [Hf _]. inv_ok.
  eapply interpolate_Ok_mode; eauto.
Qed.

(** The steps of a returning call, named. *)
Ltac run_steps H :=
  apply sample_points_from_meshes_steps in H; cbv zeta in H;
  destruct H as (raw' & g0 & first_idx & offsets & sfi & face_verts & v0 & v1
                 & v2 & w0 & w1 & w2 & a & b & c & rhs & samples & normals
                 & curv & tex & feat & Hdraw & Hfirst & Hoff & Hsfi & Hfv
                 & Hv0 & Hv1 & Hv2 & Hw & Ha & Hb & Hc & Hrhs & Hset & Hnorm
                 & Hcurv & Htex & Hfeat & Hret).

(** The names of the tuple of a returning call. *)
Lemma sample_points_from_meshes_names (E : Collaborators)
    (meshes : Meshes) (num_samples : Z) (rn rt : bool)
    (interp : option string) (uc rc : bool)
    (raw : option (ndarray Z)) (g : Gen E) (out : list returned) (g' : Gen E) :
  sample_points_from_meshes E meshes num_samples rn rt interp uc rc raw g
    = (Ok out, g') ->
  let features := match interp with Some _ => true | None => false end in
  map returned_name out =
  tuple_names rn rt features (rn && rc && negb rt && negb features).
Proof.
  intros H features. run_steps H.
  apply return_ladder_names in Hret. rewrite Hret.
  assert (Ht : truthy interp = features).
  { destruct interp as [mode |]; [| reflexivity].
    inv_ok. apply mode_truthy. eapply interpolate_Ok_mode; eauto. }
  now rewrite Ht.
Qed.

(** X9. The tuple of a returning call holds the positions first and the face
    indices last; between them the normals exactly when [return_normals],
    the textures exactly when [return_textures], the features exactly when
    [interpolate_features] is given, in this order, and then the curvatures
    only when the normals are returned and neither textures nor features
    are. *)
Theorem sample_points_from_meshes_tuple_layout (E : Collaborators)
    (meshes : Meshes) (num_samples : Z) (return_normals return_textures : bool)
    (interpolate_features : option string)
    (use_centroids return_curvature : bool)
    (sample_face_idxs_raw : option (ndarray Z)) (g : Gen E)
    (out : list returned) (g' : Gen E) :
  sample_points_from_meshes E meshes num_samples return_normals return_textures
    interpolate_features use_centroids return_curvature sample_face_idxs_raw g
    = (Ok out, g') ->
  let features := match interpolate_features with
                  | Some _ => true
                  | None => false
                  end in
  map returned_name out =
  tuple_names return_normals return_textures features
    (return_normals && return_curvature && negb return_textures
     && negb features).
Proof. apply sample_points_from_meshes_names. Qed.

Lemma sample_points_from_meshes_tuple_layout_witness :
  map returned_name majority_out =
  tuple_names false false true (false && false && negb false && negb true).
Proof.
  apply (@sample_points_from_meshes_tuple_layout triangle_collaborators
           empty_and_triangle 10000 false false (Some "majority"%string)
           false false (Some first_face_everywhere) tt majority_out
           (snd (sample_points_from_meshes triangle_collaborators
                   empty_and_triangle 10000 false false
                   (Some "majority"%string) false false
                   (Some first_face_everywhere) tt))).
  exact (returns_unwrap [] _ majority_call_ok).
Defined.

Lemma sample_points_from_meshes_interpolation_modes_witness :
  "majority"%string = "barycentric"%string \/
  "majority"%string = "majority"%string \/
  "majority"%string = "nearest"%string.
Proof.
  apply (@sample_points_from_meshes_interpolation_modes triangle_collaborators
           empty_and_triangle 10000 false false "majority"%string
           false false (Some first_face_everywhere) tt majority_out
           (snd (sample_points_from_meshes triangle_collaborators
                   empty_and_triangle 10000 false false
                   (Some "majority"%string) false false
                   (Some first_face_everywhere) tt))).
  exact (returns_unwrap [] _ majority_call_ok).
Defined.

(** *** The rows of empty meshes *)

Lemma when_Ok_Some {B} (c : bool) (r : result B) (b : B) :
  when c r = Ok (Some b) -> c = true /\ r = Ok b.
Proof.
  unfold when. destruct c; [| discriminate].
  destruct r; cbn [bind]; intros H; [| discriminate].
  now injection H as ->.
Qed.

Lemma features_Ok_Some (meshes : Meshes) S (interp : option string)
    w0 w1 w2 sfi t :
  match interp with
  | Some mode => x <- interpolate meshes S mode w0 w1 w2 sfi ;; Ok (Some x)
  | None => Ok None
  end = Ok (Some t) ->
  exists mode, interp = Some mode /\
               interpolate meshes S mode w0 w1 w2 sfi = Ok t.
Proof.
  destruct interp as [mode |]; [| discriminate].
  destruct (interpolate meshes S mode w0 w1 w2 sfi) eqn:Hi; cbn [bind];
    intros H; [| discriminate].
  injection H as ->. exists mode. split; [reflexivity | exact Hi].
Qed.

(** X11. The positions and the normals a call returns have shape
    [(N, 100000, 3)] and are zero on the rows of the empty meshes; the
    features interpolated with 'barycentric' have shape [(N, 100000, D)] and
    are -1 there. *)
Theorem sample_points_from_meshes_empty_mesh_rows (E : Collaborators)
    (meshes : Meshes) (num_samples : Z) (return_normals return_textures : bool)
    (interpolate_features : option string)
    (use_centroids return_curvature : bool)
    (sample_face_idxs_raw : option (ndarray Z)) (g : Gen E)
    (out : list returned) (g' : Gen E) :
  sample_points_from_meshes E meshes num_samples return_normals return_textures
    interpolate_features use_centroids return_curvature sample_face_idxs_raw g
    = (Ok out, g') ->
  (forall t, In (Samples t) out \/ In (Normals t) out ->
     shape t = [len_meshes meshes; hard_coded_num_samples; 3] /\
     forall i r, nth i (valid meshes) false = false -> get t (i :: r) = 0%R) /\
  (forall t, In (SampleFeatures t) out ->
     interpolate_features = Some "barycentric"%string ->
     (exists D, shape t = [len_meshes meshes; hard_coded_num_samples; D]) /\
     forall i r, nth i (valid meshes) false = false ->
                 get t (i :: r) = (-1)%R).
Proof.
  intros H. run_steps H.
  pose proof (return_ladder_items _ _ _ _ _ _ _ _ _ _ Hret) as Hitems.
  split.
  - intros t [Ht | Ht]; apply Hitems in Ht; cbn beta iota in Ht.
    + subst t. apply setitem_mask_Ok in Hset as [Hsh Hrow].
      split; [exact Hsh |]. intros i r Hi. now rewrite Hrow.
    + subst normals. apply when_Ok_Some in Hnorm as [_ Hn].
      unfold sample_normals in Hn. inv_ok.
      apply setitem_mask_Ok in Hn as [Hsh Hrow].
      split; [exact Hsh |]. intros i r Hi. now rewrite Hrow.
  - intros t Ht Hmode. apply Hitems in Ht. cbn beta iota in Ht. subst feat.
    apply features_Ok_Some in Hfeat as (mode & Hm & Hn).
    rewrite Hmode in Hm. injection Hm as <-.
    unfold interpolate in Hn. cbn [String.eqb Ascii.eqb Bool.eqb] in Hn.
    inv_ok. apply setitem_mask_Ok in Hn as [Hsh Hrow].
    cbn [full shape get] in Hsh, Hrow.
    split; [eauto |]. intros i r Hi. rewrite Hrow by exact Hi. lra.
Qed.

(** *** The sampled positions *)

(** The rank of a selected row among the selected rows. *)
Lemma length_filter_seq_shift (mask : list bool) : forall a,
  length (filter (fun k => nth (k - a) mask false) (seq a (length mask))) =
  length (filter (fun b : bool => b) mask).
Proof.
  induction mask as [|b mask IH]; intros a; [reflexivity |].
  cbn [length seq filter].
  assert (E : filter (fun k => nth (k - a) (b :: mask) false)
                (seq (S a) (length mask)) =
              filter (fun k => nth (k - S a) mask false)
                (seq (S a) (length mask))).
  { apply filter_ext_in. intros k Hk. apply in_seq in Hk.
    replace (k - a) with (S (k - S a)) by lia. reflexivity. }
  rewrite E, Nat.sub_diag. cbn [nth].
  destruct b; cbn [length]; rewrite IH; reflexivity.
Qed.

Lemma length_nonzero (mask : list bool) :
  length (nonzero mask) = length (filter (fun b : bool => b) mask).
Proof.
  unfold nonzero. rewrite <- (length_filter_seq_shift mask 0).
  f_equal. apply filter_ext. intros k. now rewrite Nat.sub_0_r.
Qed.

Lemma nonzero_rank_lt (mask : list bool) i :
  nth i mask false = true ->
  length (nonzero (firstn i mask)) < length (nonzero mask).
Proof.
  intros Hi. rewrite !length_nonzero.
  rewrite <- (firstn_skipn i mask) at 2. rewrite filter_app, length_app.
  assert (Hs : skipn i mask = true :: skipn (S i) mask).
  { revert i Hi. induction mask as [|b mask IH]; intros [|i] Hi; simpl in *;
      try discriminate.
    - now subst b.
    - now apply IH. }
  rewrite Hs. simpl. lia.
Qed.

(** The rows [t[mask] = v] writes. *)
Lemma setitem_mask_row {A} (t : ndarray A) mask v t' :
  setitem_mask t mask v = Ok t' ->
  shape v = length (nonzero mask) :: tl (shape t) ->
  forall i r, nth i mask false = true -> in_bounds (tl (shape t)) r ->
    get t' (i :: r) = get v (length (nonzero (firstn i mask)) :: r).
Proof.
  unfold setitem_mask. intros H Hv i r Hi Hr. inv_ok. subst t'. cbn [get].
  rewrite Hi, broadcast_index_same; [reflexivity |].
  rewrite Hv. constructor; [now apply nonzero_rank_lt | exact Hr].
Qed.

(** Corner [n] of every face: [verts[faces][:, n]]. *)
Lemma corner_get (verts : ndarray R) (faces : ndarray Z) V F fv n vn :
  getitem_tensor verts faces = Ok fv ->
  select 1 n fv = Ok vn ->
  shape verts = [V; 3] -> shape faces = [F; 3] ->
  shape vn = [F; 3] /\
  forall f c, get vn [f; c] = get verts [wrap_index V (get faces [f; n]); c].
Proof.
  unfold getitem_tensor, select. intros Hfv Hvn Hv Hf. inv_ok. subst fv vn.
  cbn [shape get]. unfold ndim, size0. rewrite Hv, Hf. split; reflexivity.
Qed.

(** The corner of the sampled faces: [v[sample_face_idxs]]. *)
Lemma sampled_corner_get (vn : ndarray R) (sfi : ndarray Z) F K S a :
  getitem_tensor vn sfi = Ok a ->
  shape vn = [F; 3] -> shape sfi = [K; S] ->
  shape a = [K; S; 3] /\
  forall k j c, get a [k; j; c] = get vn [wrap_index F (get sfi [k; j]); c].
Proof.
  unfold getitem_tensor. intros Ha Hv Hs. inv_ok. subst a.
  cbn [shape get]. unfold ndim, size0. rewrite Hv, Hs. split; reflexivity.
Qed.

Lemma centroid_get (a b c rhs : ndarray R) s :
  centroid a b c = Ok rhs ->
  shape a = s -> shape b = s -> shape c = s ->
  shape rhs = s /\
  forall i, in_bounds s i ->
    get rhs i = (1 / 3 * get a i + 1 / 3 * get b i + 1 / 3 * get c i)%R.
Proof.
  unfold centroid. intros H Ha Hb Hc.
  rewrite map2_same_shape in H by (cbn [tmap shape]; congruence).
  cbn [bind] in H.
  rewrite map2_same_shape in H by (cbn [tmap shape]; congruence).
  injection H as <-. cbn [tmap shape get]. split; [exact Ha |].
  intros i Hi. rewrite Ha, !(@broadcast_index_same s i Hi). reflexivity.
Qed.

(** The positions of the samples of a mesh that is not empty. *)
Lemma sampled_rows (N S D : nat) (mask : list bool) (fill : R)
    (rhs samples : ndarray R) :
  setitem_mask (full [N; S; D] fill) mask rhs = Ok samples ->
  shape rhs = [length (nonzero mask); S; D] ->
  forall i j c, nth i mask false = true -> j < S -> c < D ->
    get samples [i; j; c] = get rhs [length (nonzero (firstn i mask)); j; c].
Proof.
  intros Hset Hsh i j c Hi Hj Hc.
  apply (@setitem_mask_row _ _ _ _ _ Hset); [exact Hsh | exact Hi |].
  cbn [full shape tl].
  apply Forall2_cons; [exact Hj |].
  apply Forall2_cons; [exact Hc | apply Forall2_nil].
Qed.

(** X14. With [use_centroids=True], every sample of a mesh that is not empty is the
    centroid of the face the returned face index names: a third of each of
    its three vertices. *)
Theorem sample_points_from_meshes_centroid_positions (E : Collaborators)
    (meshes : Meshes) (num_samples : Z) (return_normals return_textures : bool)
    (interpolate_features : option string) (return_curvature : bool)
    (sample_face_idxs_raw : option (ndarray Z)) (g : Gen E)
    (out : list returned) (g' : Gen E) (V F : nat)
    (positions : ndarray R) (face_idxs : ndarray Z) :
  sample_points_from_meshes E meshes num_samples return_normals return_textures
    interpolate_features true return_curvature sample_face_idxs_raw g
    = (Ok out, g') ->
  shape (verts_packed meshes) = [V; 3] ->
  shape (faces_packed meshes) = [F; 3] ->
  In (Samples positions) out ->
  In (SampleFaceIdxs face_idxs) out ->
  shape face_idxs =
    [length (nonzero (valid meshes)); hard_coded_num_samples] ->
  forall i j c, nth i (valid meshes) false = true ->
    j < hard_coded_num_samples -> c < 3 ->
    let k := length (nonzero (firstn i (valid meshes))) in
    let f := wrap_index F (get face_idxs [k; j]) in
    let corner n :=
      get (verts_packed meshes)
          [wrap_index V (get (faces_packed meshes) [f; n]); c] in
    get positions [i; j; c] =
    (1 / 3 * corner 0%nat + 1 / 3 * corner 1%nat + 1 / 3 * corner 2%nat)%R.
Proof.
  intros H Hverts Hfaces Hs Hi Hshape.
  run_steps H. unfold zeros in Hset.
  set (S := hard_coded_num_samples) in *. clearbody S.
  pose proof (return_ladder_items _ _ _ _ _ _ _ _ _ _ Hret) as Hitems.
  apply Hitems in Hs, Hi. cbn beta iota in Hs, Hi. subst positions face_idxs.
  intros i j c0 Hv Hj Hc' k f corner.
  destruct (@corner_get _ _ _ _ _ _ _ Hfv Hv0 Hverts Hfaces) as [Hs0 Hg0].
  destruct (@corner_get _ _ _ _ _ _ _ Hfv Hv1 Hverts Hfaces) as [Hs1 Hg1].
  destruct (@corner_get _ _ _ _ _ _ _ Hfv Hv2 Hverts Hfaces) as [Hs2 Hg2].
  destruct (@sampled_corner_get _ _ _ _ _ _ Ha Hs0 Hshape) as [Hsa Hga].
  destruct (@sampled_corner_get _ _ _ _ _ _ Hb Hs1 Hshape) as [Hsb Hgb].
  destruct (@sampled_corner_get _ _ _ _ _ _ Hc Hs2 Hshape) as [Hsc Hgc].
  destruct (@centroid_get _ _ _ _ _ Hrhs Hsa Hsb Hsc) as [Hsr Hgr].
  rewrite (@sampled_rows _ _ _ _ _ _ _ Hset Hsr i j c0 Hv Hj Hc'). fold k.
  rewrite Hgr
    by (apply Forall2_cons; [now apply nonzero_rank_lt |];
        apply Forall2_cons; [exact Hj |];
        apply Forall2_cons; [exact Hc' | apply Forall2_nil]).
  rewrite Hga, Hgb, Hgc, Hg0, Hg1, Hg2. reflexivity.
Qed.

(** *** Samples as barycentric combinations *)

Lemma broadcast_shapes_last_one (K S D : nat) :
  broadcast_shapes [K; S; 1] [K; S; D] = Some [K; S; D].
Proof.
  unfold broadcast_shapes. cbn [rev app broadcast_rev].
  rewrite !Nat.eqb_refl. destruct D as [|[|D']]; reflexivity.
Qed.

Lemma broadcast_index_last_one (K S k j c : nat) :
  k < K -> j < S -> broadcast_index [K; S; 1] [k; j; c] = [k; j; 0].
Proof.
  intros Hk Hj. unfold broadcast_index. cbn [length Nat.sub skipn combine map].
  destruct (Nat.eqb_spec K 1), (Nat.eqb_spec S 1); cbn [Nat.eqb];
    repeat f_equal; lia.
Qed.

Lemma in_bounds3 (K S D k j c : nat) :
  k < K -> j < S -> c < D -> in_bounds [K; S; D] [k; j; c].
Proof.
  intros Hk Hj Hc.
  apply Forall2_cons; [exact Hk |].
  apply Forall2_cons; [exact Hj |].
  apply Forall2_cons; [exact Hc | apply Forall2_nil].
Qed.

(** [w[:, :, None] * a] *)
Lemma weighted_get (w w' a wa : ndarray R) (K S D : nat) :
  unsqueeze 2 w = Ok w' -> map2 Rmult w' a = Ok wa ->
  shape w = [K; S] -> shape a = [K; S; D] ->
  shape wa = [K; S; D] /\
  forall k j c, k < K -> j < S -> c < D ->
    get wa [k; j; c] = (get w [k; j] * get a [k; j; c])%R.
Proof.
  unfold unsqueeze, map2, ndim. intros Hu H Hw Ha. rewrite Hw in Hu.
  cbn [length Nat.ltb Nat.leb raise_if bind insert_at firstn skipn app] in Hu.
  injection Hu as <-. cbn [shape get] in H.
  rewrite Ha, broadcast_shapes_last_one in H. injection H as <-.
  cbn [shape get]. split; [reflexivity |]. intros k j c Hk Hj Hc.
  rewrite (broadcast_index_last_one c Hk Hj).
  rewrite (broadcast_index_same (in_bounds3 Hk Hj Hc)). reflexivity.
Qed.

Lemma sum_get (x y xy : ndarray R) (s : list nat) :
  map2 Rplus x y = Ok xy -> shape x = s -> shape y = s ->
  shape xy = s /\
  forall i, in_bounds s i -> get xy i = (get x i + get y i)%R.
Proof.
  intros H Hx Hy. rewrite map2_same_shape in H by congruence.
  injection H as <-. cbn [shape get]. split; [exact Hx |].
  intros i Hi. now rewrite Hx, (broadcast_index_same Hi).
Qed.

Lemma barycentric_combination_get (w0 w1 w2 a b c rhs : ndarray R)
    (K S D : nat) :
  barycentric_combination w0 w1 w2 a b c = Ok rhs ->
  shape w0 = [K; S] -> shape w1 = [K; S] -> shape w2 = [K; S] ->
  shape a = [K; S; D] -> shape b = [K; S; D] -> shape c = [K; S; D] ->
  shape rhs = [K; S; D] /\
  forall k j d, k < K -> j < S -> d < D ->
    get rhs [k; j; d] =
    (get w0 [k; j] * get a [k; j; d] + get w1 [k; j] * get b [k; j; d]
     + get w2 [k; j] * get c [k; j; d])%R.
Proof.
  unfold barycentric_combination. intros H Hw0 Hw1 Hw2 Ha Hb Hc.
  repeat match type of H with
         | bind ?r _ = Ok _ =>
             let x := fresh "x" in
             let Hx := fresh "Hx" in
             destruct r as [x |] eqn:Hx; cbn [bind] in H; [| discriminate]
         end.
  destruct (@weighted_get _ _ _ _ _ _ _ Hx Hx0 Hw0 Ha) as [S0 G0].
  destruct (@weighted_get _ _ _ _ _ _ _ Hx1 Hx2 Hw1 Hb) as [S1 G1].
  destruct (@weighted_get _ _ _ _ _ _ _ Hx4 Hx5 Hw2 Hc) as [S2 G2].
  destruct (@sum_get _ _ _ _ Hx3 S0 S1) as [S01 G01].
  destruct (@sum_get _ _ _ _ H S01 S2) as [Sr Gr].
  split; [exact Sr |]. intros k j d Hk Hj Hd.
  rewrite Gr, G01, G0, G1, G2 by (assumption || now apply in_bounds3).
  reflexivity.
Qed.

(** What [_rand_barycentric_coords] returns, entry by entry. *)
Lemma rand_barycentric_coords_run (E : Collaborators) (size1 size2 : nat)
    (g : Gen E) :
  exists w0 w1 w2,
    _rand_barycentric_coords E size1 size2 g =
      (Ok (w0, w1, w2), rand_next E g [2; size1; size2]) /\
    shape w0 = [size1; size2] /\
    shape w1 = [size1; size2] /\
    shape w2 = [size1; size2] /\
    forall i j, i < size1 -> j < size2 ->
      let u := rand_entry E g [2; size1; size2] [0; i; j] in
      let v := rand_entry E g [2; size1; size2] [1; i; j] in
      (get w0 [i; j] = 1 - sqrt u /\ get w1 [i; j] = sqrt u * (1 - v) /\
       get w2 [i; j] = sqrt u * v)%R.
Proof.
  unfold _rand_barycentric_coords, bindM, rand, lift, ret, select.
  cbn [ndim shape length Nat.leb nth raise_if bind remove_at firstn skipn app tmap].
  rewrite !map2_same_shape by reflexivity. cbn [shape get tmap].
  do 3 eexists. split; [reflexivity |]. cbn [shape get].
  split; [reflexivity | split; [reflexivity | split; [reflexivity |]]].
  intros i j Hi Hj.
  rewrite !broadcast_index_same
    by (apply Forall2_cons; [exact Hi |];
        apply Forall2_cons; [exact Hj | apply Forall2_nil]).
  unfold tmap, insert_at. cbn [shape get firstn skipn app].
  repeat split; reflexivity.
Qed.

(** X13. Without [use_centroids], every sample of a mesh that is not empty is a
    combination [w0 * v0 + w1 * v1 + w2 * v2] of the three vertices of the
    face the returned face index names; when [torch.rand] draws from
    [[0, 1)], the three weights lie in [[0, 1]] and add up to 1, so the
    sample lies in the triangle. *)
Theorem sample_points_from_meshes_barycentric_positions (E : Collaborators)
    (meshes : Meshes) (num_samples : Z) (return_normals return_textures : bool)
    (interpolate_features : option string) (return_curvature : bool)
    (sample_face_idxs_raw : option (ndarray Z)) (g : Gen E)
    (out : list returned) (g' : Gen E) (V F : nat)
    (positions : ndarray R) (face_idxs : ndarray Z) :
  (forall g0 size i, (0 <= rand_entry E g0 size i < 1)%R) ->
  sample_points_from_meshes E meshes num_samples return_normals return_textures
    interpolate_features false return_curvature sample_face_idxs_raw g
    = (Ok out, g') ->
  shape (verts_packed meshes) = [V; 3] ->
  shape (faces_packed meshes) = [F; 3] ->
  In (Samples positions) out ->
  In (SampleFaceIdxs face_idxs) out ->
  shape face_idxs =
    [length (nonzero (valid meshes)); hard_coded_num_samples] ->
  forall i j, nth i (valid meshes) false = true ->
    j < hard_coded_num_samples ->
    let k := length (nonzero (firstn i (valid meshes))) in
    let f := wrap_index F (get face_idxs [k; j]) in
    let corner n c :=
      get (verts_packed meshes)
          [wrap_index V (get (faces_packed meshes) [f; n]); c] in
    exists w0 w1 w2 : R,
      (w0 + w1 + w2 = 1 /\ 0 <= w0 <= 1 /\ 0 <= w1 <= 1 /\ 0 <= w2 <= 1)%R /\
      forall c, c < 3 ->
        get positions [i; j; c] =
        (w0 * corner 0%nat c + w1 * corner 1%nat c + w2 * corner 2%nat c)%R.
Proof.
  intros Hrand H Hverts Hfaces Hs Hi Hshape.
  run_steps H. unfold zeros in Hset.
  set (S := hard_coded_num_samples) in *. clearbody S.
  pose proof (return_ladder_items _ _ _ _ _ _ _ _ _ _ Hret) as Hitems.
  apply Hitems in Hs, Hi. cbn beta iota in Hs, Hi. subst positions face_idxs.
  intros i j Hv Hj k f corner.
  destruct (@corner_get _ _ _ _ _ _ _ Hfv Hv0 Hverts Hfaces) as [Hs0 Hg0].
  destruct (@corner_get _ _ _ _ _ _ _ Hfv Hv1 Hverts Hfaces) as [Hs1 Hg1].
  destruct (@corner_get _ _ _ _ _ _ _ Hfv Hv2 Hverts Hfaces) as [Hs2 Hg2].
  destruct (@sampled_corner_get _ _ _ _ _ _ Ha Hs0 Hshape) as [Hsa Hga].
  destruct (@sampled_corner_get _ _ _ _ _ _ Hb Hs1 Hshape) as [Hsb Hgb].
  destruct (@sampled_corner_get _ _ _ _ _ _ Hc Hs2 Hshape) as [Hsc Hgc].
  destruct (rand_barycentric_coords_run E (length (nonzero (valid meshes))) S g0)
    as (w0' & w1' & w2' & Hw' & Sw0 & Sw1 & Sw2 & Gw).
  rewrite Hw' in Hw. injection Hw as <- <- <- _.
  destruct (@barycentric_combination_get _ _ _ _ _ _ _ _ _ _ Hrhs
              Sw0 Sw1 Sw2 Hsa Hsb Hsc) as [Hsr Hgr].
  assert (Hk : k < length (nonzero (valid meshes)))
    by now apply nonzero_rank_lt.
  destruct (Gw k j Hk Hj) as (G0 & G1 & G2). cbv zeta in G0, G1, G2.
  pose proof (Hrand g0 [2; length (nonzero (valid meshes)); S] [0; k; j]) as Hu.
  pose proof (Hrand g0 [2; length (nonzero (valid meshes)); S] [1; k; j]) as Hv'.
  pose proof (sqrt_unit Hu) as Hsq.
  exists (get w0' [k; j]), (get w1' [k; j]), (get w2' [k; j]). split.
  - rewrite G0, G1, G2.
    set (s := sqrt _) in *. set (v := rand_entry E g0 _ [1; k; j]) in *.
    repeat split; try lra; nra.
  - intros c0 Hc'.
    rewrite (@sampled_rows _ _ _ _ _ _ _ Hset Hsr i j c0 Hv Hj Hc'). fold k.
    rewrite (Hgr k j c0 Hk Hj Hc'), Hga, Hgb, Hgc, Hg0, Hg1, Hg2. reflexivity.
Qed.

(** *** The returned face indices *)

Lemma broadcast_shapes_column (K S : nat) :
  broadcast_shapes [K; S] [K; 1] = Some [K; S].
Proof.
  unfold broadcast_shapes. cbn [rev app broadcast_rev].
  rewrite !Nat.eqb_refl. destruct S as [|[|S']]; reflexivity.
Qed.

Lemma broadcast_index_column (K k j : nat) :
  k < K -> broadcast_index [K; 1] [k; j] = [k; 0].
Proof.
  intros Hk. unfold broadcast_index. cbn [length Nat.sub skipn combine map].
  destruct (Nat.eqb_spec K 1); cbn [Nat.eqb]; repeat f_equal; lia.
Qed.

Lemma in_bounds2 (K S k j : nat) : k < K -> j < S -> in_bounds [K; S] [k; j].
Proof.
  intros Hk Hj.
  apply Forall2_cons; [exact Hk |].
  apply Forall2_cons; [exact Hj | apply Forall2_nil].
Qed.

(** [sample_face_idxs_raw + mesh_to_face[meshes.valid].view(num_valid, 1)] *)
Lemma global_face_idxs (mesh_to_face : ndarray Z) (mask : list bool)
    (raw first_idx offsets sfi : ndarray Z) (N S : nat) :
  getitem_mask mesh_to_face mask = Ok first_idx ->
  view first_idx [length (nonzero mask); 1] = Ok offsets ->
  map2 Z.add raw offsets = Ok sfi ->
  shape mesh_to_face = [N] ->
  shape raw = [length (nonzero mask); S] ->
  shape sfi = [length (nonzero mask); S] /\
  forall k j, k < length (nonzero mask) -> j < S ->
    get sfi [k; j] =
    (get raw [k; j] + get mesh_to_face [nth k (nonzero mask) 0%nat])%Z.
Proof.
  unfold getitem_mask, view, map2. intros Hf Ho Hs Hm Hr. inv_ok.
  subst first_idx offsets. cbn [shape get take_rows] in Hs.
  rewrite Hr, broadcast_shapes_column in Hs. injection Hs as <-.
  cbn [shape get]. split; [reflexivity |]. intros k j Hk Hj.
  rewrite (broadcast_index_same (in_bounds2 Hk Hj)).
  rewrite (broadcast_index_column j Hk). rewrite Hm.
  cbn [tl ravel unravel prod fold_right].
  replace ((k * 1 + (0 * 1 + 0)) / 1) with k
    by (rewrite Nat.div_1_r; lia).
  reflexivity.
Qed.


(** *** The sampled normals *)

Lemma map2_get {B C D} (f : B -> C -> D) (x : ndarray B) (y : ndarray C)
    (xy : ndarray D) (s : list nat) :
  map2 f x y = Ok xy -> shape x = s -> shape y = s ->
  shape xy = s /\
  forall i, in_bounds s i -> get xy i = f (get x i) (get y i).
Proof.
  intros H Hx Hy. rewrite map2_same_shape in H by congruence.
  injection H as <-. cbn [shape get]. split; [exact Hx |].
  intros i Hi. now rewrite Hx, (broadcast_index_same Hi).
Qed.

Lemma wrap_index_lt (n : nat) (z : Z) :
  valid_index n z = true -> wrap_index n z < n.
Proof.
  unfold valid_index, wrap_index. intros H.
  apply andb_true_iff in H as [H1 H2].
  apply Z.leb_le in H1. apply Z.ltb_lt in H2.
  destruct (Z.ltb_spec z 0); lia.
Qed.

(** The faces a returning call indexes exist. *)
Lemma sampled_face_lt (vn : ndarray R) (sfi : ndarray Z) F K S a :
  getitem_tensor vn sfi = Ok a ->
  shape vn = [F; 3] -> shape sfi = [K; S] ->
  forall k j, k < K -> j < S -> wrap_index F (get sfi [k; j]) < F.
Proof.
  unfold getitem_tensor. intros Ha Hv Hs k j Hk Hj. inv_ok.
  match goal with
  | Hall : negb (all_entries _ sfi) = false |- _ =>
      apply negb_false_iff in Hall;
      pose proof (proj1 (all_entries_spec _ _) Hall [k; j]) as Hin
  end.
  rewrite Hs in Hin. specialize (Hin (in_bounds2 Hk Hj)).
  unfold size0 in Hin. rewrite Hv in Hin. now apply wrap_index_lt.
Qed.

(** [a.cross(b, dim=1)] on two [(F, 3)] tensors. *)
Lemma cross_get (a b cr : ndarray R) (F : nat) :
  cross a b = Ok cr -> shape a = [F; 3] -> shape b = [F; 3] ->
  shape cr = [F; 3] /\
  forall f c, f < F -> c < 3 ->
    get cr [f; c] =
    (get a [f; ((c + 1) mod 3)%nat] * get b [f; ((c + 2) mod 3)%nat]
     - get a [f; ((c + 2) mod 3)%nat] * get b [f; ((c + 1) mod 3)%nat])%R.
Proof.
  unfold cross. intros H Ha Hb. rewrite Ha, Hb, broadcast_shapes_same in H.
  cbn [nth Nat.eqb andb negb raise_if bind] in H. injection H as <-.
  cbn [shape get]. split; [reflexivity |]. intros f c Hf Hc.
  assert (B : forall m, m < 3 -> broadcast_index [F; 3] [f; m] = [f; m])
    by (intros m Hm; apply broadcast_index_same; now apply in_bounds2).
  unfold replace_at.
  destruct c as [|[|[|c]]]; [| | | lia];
    cbn [nth firstn skipn app Nat.add Nat.modulo Nat.divmod fst snd Nat.sub];
    rewrite !B by lia; reflexivity.
Qed.

(** [x / x.norm(dim=1, p=2, keepdim=True).clamp(min=eps)] *)
Lemma clamped_unit_get (cr norms vna : ndarray R) (eps : R) (F : nat) :
  reduce norm2 1 true cr = Ok norms ->
  map2 Rdiv cr (tmap (Rmax eps) norms) = Ok vna ->
  shape cr = [F; 3] ->
  shape vna = [F; 3] /\
  forall f c, f < F -> c < 3 ->
    get vna [f; c] =
    (get cr [f; c] /
     Rmax eps (norm2 [get cr [f; 0%nat]; get cr [f; 1%nat];
                      get cr [f; 2%nat]]))%R.
Proof.
  unfold reduce, map2, ndim. intros Hn Hv Hc. rewrite Hc in Hn.
  cbn [length Nat.leb raise_if bind firstn skipn app] in Hn.
  injection Hn as <-. cbn [tmap shape get] in Hv.
  rewrite Hc, broadcast_shapes_column in Hv. injection Hv as <-.
  cbn [shape get]. split; [reflexivity |]. intros f c Hf Hc'.
  rewrite (broadcast_index_same (in_bounds2 Hf Hc')).
  rewrite (broadcast_index_column c Hf).
  unfold along, remove_at, insert_at. rewrite Hc.
  cbn [nth seq map firstn skipn app]. reflexivity.
Qed.

Lemma norm2_3 (x y z : R) : norm2 [x; y; z] = sqrt (x * x + y * y + z * z).
Proof. unfold norm2, rsum. cbn [map fold_right]. f_equal. ring. Qed.

Lemma norm2_3_zero (x y z : R) :
  norm2 [x; y; z] = 0%R -> x = 0%R /\ y = 0%R /\ z = 0%R.
Proof.
  rewrite norm2_3. intros H. apply sqrt_eq_0 in H; [| nra].
  repeat split; nra.
Qed.

Lemma norm2_3_unit (x y z l : R) :
  l = norm2 [x; y; z] -> (0 < l)%R ->
  norm2 [(x / l)%R; (y / l)%R; (z / l)%R] = 1%R.
Proof.
  intros Hl Hpos. rewrite norm2_3 in *.
  assert (Hsq : (l * l = x * x + y * y + z * z)%R)
    by (rewrite Hl; apply sqrt_sqrt; nra).
  replace (x / l * (x / l) + y / l * (y / l) + z / l * (z / l))%R with 1%R;
    [apply sqrt_1 |].
  field_simplify_eq; [nra | lra].
Qed.

(** X15. The normal of every sample of a mesh that is not empty is the cross
    product [(v1 - v0) x (v2 - v1)] of the edges of its face, divided by its
    length clamped from below at [sys.float_info.epsilon = 2 ** -52]: a
    degenerate face (cross product zero) gets the zero vector, and a face
    whose cross product is at least [epsilon] long gets a unit vector. *)
Theorem sample_points_from_meshes_normals (E : Collaborators)
    (meshes : Meshes) (num_samples : Z) (return_normals return_textures : bool)
    (interpolate_features : option string)
    (use_centroids return_curvature : bool)
    (sample_face_idxs_raw : option (ndarray Z)) (g : Gen E)
    (out : list returned) (g' : Gen E) (V F : nat)
    (sampled_normals : ndarray R) (face_idxs : ndarray Z) :
  sample_points_from_meshes E meshes num_samples return_normals return_textures
    interpolate_features use_centroids return_curvature sample_face_idxs_raw g
    = (Ok out, g') ->
  shape (verts_packed meshes) = [V; 3] ->
  shape (faces_packed meshes) = [F; 3] ->
  In (Normals sampled_normals) out ->
  In (SampleFaceIdxs face_idxs) out ->
  shape face_idxs =
    [length (nonzero (valid meshes)); hard_coded_num_samples] ->
  forall i j, nth i (valid meshes) false = true ->
    j < hard_coded_num_samples ->
    let k := length (nonzero (firstn i (valid meshes))) in
    let f := wrap_index F (get face_idxs [k; j]) in
    let corner n d :=
      get (verts_packed meshes)
          [wrap_index V (get (faces_packed meshes) [f; n]); d] in
    let e1 d := (corner 1%nat d - corner 0%nat d)%R in
    let e2 d := (corner 2%nat d - corner 1%nat d)%R in
    let n c := (e1 ((c + 1) mod 3)%nat * e2 ((c + 2) mod 3)%nat
                - e1 ((c + 2) mod 3)%nat * e2 ((c + 1) mod 3)%nat)%R in
    let len := norm2 [n 0; n 1; n 2] in
    (forall c, c < 3 ->
       get sampled_normals [i; j; c] = (n c / Rmax (/ 2 ^ 52) len)%R) /\
    (len = 0%R -> forall c, c < 3 -> get sampled_normals [i; j; c] = 0%R) /\
    ((/ 2 ^ 52 <= len)%R ->
     norm2 [get sampled_normals [i; j; 0]; get sampled_normals [i; j; 1];
            get sampled_normals [i; j; 2]] = 1%R).
Proof.
  intros H Hverts Hfaces Hn Hi Hshape.
  run_steps H.
  set (S := hard_coded_num_samples) in *. clearbody S.
  pose proof (return_ladder_items _ _ _ _ _ _ _ _ _ _ Hret) as Hitems.
  apply Hitems in Hn, Hi. cbn beta iota in Hn, Hi. subst normals face_idxs.
  apply when_Ok_Some in Hnorm as [_ Hnorm].
  unfold sample_normals, zeros in Hnorm.
  repeat match type of Hnorm with
         | bind ?r _ = Ok _ =>
             let x := fresh "x" in
             let Hx := fresh "Hx" in
             destruct r as [x |] eqn:Hx; cbn [bind] in Hnorm; [| discriminate]
         end.
  destruct (@corner_get _ _ _ _ _ _ _ Hfv Hv0 Hverts Hfaces) as [Hs0 Hg0].
  destruct (@corner_get _ _ _ _ _ _ _ Hfv Hv1 Hverts Hfaces) as [Hs1 Hg1].
  destruct (@corner_get _ _ _ _ _ _ _ Hfv Hv2 Hverts Hfaces) as [Hs2 Hg2].
  destruct (@map2_get _ _ _ _ _ _ _ _ Hx Hs1 Hs0) as [Se1 Ge1].
  destruct (@map2_get _ _ _ _ _ _ _ _ Hx0 Hs2 Hs1) as [Se2 Ge2].
  destruct (@cross_get _ _ _ _ Hx1 Se1 Se2) as [Scr Gcr].
  destruct (@clamped_unit_get _ _ _ _ _ Hx2 Hx3 Scr) as [Svn Gvn].
  destruct (@sampled_corner_get _ _ _ _ _ _ Hx4 Svn Hshape) as [Sn Gn].
  pose proof (@sampled_face_lt _ _ _ _ _ _ Hx4 Svn Hshape) as Hlt.
  intros i j Hv Hj k f corner e1 e2 n len.
  assert (Hk : k < length (nonzero (valid meshes)))
    by now apply nonzero_rank_lt.
  specialize (Hlt k j Hk Hj). fold f in Hlt.
  assert (Hcr : forall d, d < 3 -> get x1 [f; d] = n d).
  { intros d Hc'. rewrite (Gcr f d Hlt Hc').
    assert (H1 : (d + 1) mod 3 < 3) by (apply Nat.mod_upper_bound; lia).
    assert (H2 : (d + 2) mod 3 < 3) by (apply Nat.mod_upper_bound; lia).
    rewrite !(Ge1 _ (in_bounds2 Hlt H1)), !(Ge1 _ (in_bounds2 Hlt H2)).
    rewrite !(Ge2 _ (in_bounds2 Hlt H1)), !(Ge2 _ (in_bounds2 Hlt H2)).
    rewrite !Hg0, !Hg1, !Hg2. reflexivity. }
  assert (Hval : forall d, d < 3 ->
            get sampled_normals [i; j; d] = (n d / Rmax (/ 2 ^ 52) len)%R).
  { intros d Hc'.
    rewrite (@sampled_rows _ _ _ _ _ _ _ Hnorm Sn i j d Hv Hj Hc'). fold k.
    rewrite Gn. fold f. rewrite (Gvn f d Hlt Hc').
    rewrite !Hcr by lia. reflexivity. }
  split; [exact Hval | split].
  - intros Hz d Hc'. rewrite (Hval d Hc').
    destruct (norm2_3_zero _ _ _ Hz) as (Z0 & Z1 & Z2).
    assert (n d = 0%R) as ->
      by (destruct d as [|[|[|d]]]; [assumption | assumption | assumption | lia]).
    unfold Rdiv. apply Rmult_0_l.
  - intros Hge. rewrite !Hval by lia.
    assert (Heps : (0 < / 2 ^ 52)%R)
      by (apply Rinv_0_lt_compat, pow_lt; lra).
    rewrite Rmax_right by exact Hge.
    apply norm2_3_unit; [reflexivity | lra].
Qed.

(** *** The sampled curvatures *)

(** [vertex_curvatures[faces[sample_face_idxs][:, :, n]]] *)
Lemma curvatures_at_get (vc : ndarray R) (faces sfi : ndarray Z)
    (n Vc F K S : nat) (cv : ndarray R) :
  curvatures_at vc faces sfi n = Ok cv ->
  shape vc = [Vc] -> shape faces = [F; 3] -> shape sfi = [K; S] ->
  shape cv = [K; S] /\
  forall k j,
    get cv [k; j] =
    get vc [wrap_index Vc (get faces [wrap_index F (get sfi [k; j]); n])].
Proof.
  unfold curvatures_at, getitem_tensor, select. intros H Hv Hf Hs. inv_ok.
  subst. cbn [shape get]. unfold ndim, size0. cbn [shape].
  rewrite Hv, Hf, Hs. split; reflexivity.
Qed.

(** X16. The curvature of a sample is the mean of the curvatures
    [compute_mean_curvature] gives the three vertices of its face (over the
    reals: the rounding of [.half()] is not modelled).  The tensor has one
    row per mesh that is not empty: unlike the positions, it is not laid out
    over all meshes of the batch. *)
Theorem sample_points_from_meshes_curvatures (E : Collaborators)
    (meshes : Meshes) (num_samples : Z) (return_normals return_textures : bool)
    (interpolate_features : option string)
    (use_centroids return_curvature : bool)
    (sample_face_idxs_raw : option (ndarray Z)) (g : Gen E)
    (out : list returned) (g' : Gen E) (F : nat)
    (curvatures : ndarray R) (face_idxs : ndarray Z) :
  sample_points_from_meshes E meshes num_samples return_normals return_textures
    interpolate_features use_centroids return_curvature sample_face_idxs_raw g
    = (Ok out, g') ->
  shape (faces_packed meshes) = [F; 3] ->
  In (SampledFaceCurvatures curvatures) out ->
  In (SampleFaceIdxs face_idxs) out ->
  shape face_idxs =
    [length (nonzero (valid meshes)); hard_coded_num_samples] ->
  exists vertex_curvatures,
    compute_mean_curvature E (verts_packed meshes) (faces_packed meshes)
      (verts_normals_packed meshes) true = Ok vertex_curvatures /\
    forall Vc, shape vertex_curvatures = [Vc] ->
      shape curvatures =
        [length (nonzero (valid meshes)); hard_coded_num_samples] /\
      forall k j,
        k < length (nonzero (valid meshes)) -> j < hard_coded_num_samples ->
        let f := wrap_index F (get face_idxs [k; j]) in
        let at_corner n :=
          get vertex_curvatures
              [wrap_index Vc (get (faces_packed meshes) [f; n])] in
        get curvatures [k; j] =
        ((at_corner 0%nat + at_corner 1%nat + at_corner 2%nat) / 3)%R.
Proof.
  intros H Hfaces Hcv Hi Hshape.
  run_steps H.
  set (S := hard_coded_num_samples) in *. clearbody S.
  pose proof (return_ladder_items _ _ _ _ _ _ _ _ _ _ Hret) as Hitems.
  apply Hitems in Hcv, Hi. cbn beta iota in Hcv, Hi. subst curv face_idxs.
  apply when_Ok_Some in Hcurv as [_ Hcurv].
  unfold sample_curvatures in Hcurv.
  repeat match type of Hcurv with
         | bind ?r _ = Ok _ =>
             let x := fresh "x" in
             let Hx := fresh "Hx" in
             destruct r as [x |] eqn:Hx; cbn [bind] in Hcurv; [| discriminate]
         end.
  injection Hcurv as <-.
  exists x. split; [reflexivity |]. intros Vc Hvc.
  destruct (@curvatures_at_get _ _ _ _ _ _ _ _ _ Hx0 Hvc Hfaces Hshape)
    as [S0 G0].
  destruct (@curvatures_at_get _ _ _ _ _ _ _ _ _ Hx1 Hvc Hfaces Hshape)
    as [S1 G1].
  destruct (@curvatures_at_get _ _ _ _ _ _ _ _ _ Hx2 Hvc Hfaces Hshape)
    as [S2 G2].
  destruct (@map2_get _ _ _ _ _ _ _ _ Hx3 S0 S1) as [S01 G01].
  destruct (@map2_get _ _ _ _ _ _ _ _ Hx4 S01 S2) as [Ss Gs].
  cbn [tmap shape get]. split; [exact Ss |]. intros k j Hk Hj.
  rewrite (Gs _ (in_bounds2 Hk Hj)), (G01 _ (in_bounds2 Hk Hj)).
  rewrite G0, G1, G2. reflexivity.
Qed.

(** *** Curvature and the length of the normals *)

Lemma rsum_map_scale_l (a : R) (f : nat -> R) (l : list nat) :
  rsum (map (fun k => a * f k)%R l) = (a * rsum (map f l))%R.
Proof. induction l as [|x l IH]; simpl; [lra | rewrite IH; lra]. Qed.

(** Scaling the vertex normals scales the signed mean curvature. *)
Lemma signed_mean_curvature_scale (E : Collaborators)
    (verts : ndarray R) (faces_ : ndarray Z) (normals s : ndarray R)
    (lam : R) :
  signed_mean_curvature E verts faces_ normals = Ok s ->
  exists s',
    signed_mean_curvature E verts faces_ (tmap (Rmult lam) normals) = Ok s' /\
    shape s' = shape s /\
    forall i, get s' i = (lam * get s i)%R.
Proof.
  unfold signed_mean_curvature. intros H.
  destruct (cot_laplacian E verts faces_) as [[L ia] |]; cbn [bind fst] in *;
    [| discriminate].
  destruct (mm L verts) as [mcn |]; cbn [bind] in *; [| discriminate].
  destruct (reduce norm2 1 false mcn) as [mc |]; cbn [bind] in *;
    [| discriminate].
  unfold map2 at 1. unfold map2 at 1 in H. cbn [tmap shape get].
  destruct (broadcast_shapes (shape mcn) (shape normals)) as [sp |];
    cbn [bind] in *; [| discriminate].
  unfold reduce in *. cbn [shape get] in *. unfold ndim in *. cbn [shape] in *.
  destruct (length sp <=? 1); cbn [raise_if bind] in *; [discriminate |].
  unfold map2 in *. cbn [shape get] in *.
  destruct (broadcast_shapes (remove_at 1 sp) (shape mc)) as [sr |];
    [| discriminate].
  injection H as <-. eexists. split; [reflexivity |]. cbn [shape get].
  split; [reflexivity |]. intros i. unfold along. cbn [shape get].
  rewrite <- Rmult_assoc. f_equal.
  rewrite <- rsum_map_scale_l. f_equal. apply map_ext. intros k. ring.
Qed.

Lemma rsum_map_Rmult (a : R) (l : list R) :
  rsum (map (Rmult a) l) = (a * rsum l)%R.
Proof. induction l as [|x l IH]; simpl; [lra | rewrite IH; lra]. Qed.

Lemma elements_scaled (s s' : ndarray R) (lam : R) :
  shape s' = shape s -> (forall i, get s' i = (lam * get s i)%R) ->
  elements s' = map (Rmult lam) (elements s).
Proof.
  intros Hsh Hget. unfold elements. rewrite Hsh, map_map.
  apply map_ext. intros i. apply Hget.
Qed.

Lemma mean_scaled (s s' : ndarray R) (lam : R) :
  shape s' = shape s -> (forall i, get s' i = (lam * get s i)%R) ->
  mean s' = (lam * mean s)%R.
Proof.
  intros Hsh Hget. unfold mean, numel.
  rewrite (elements_scaled _ _ Hsh Hget), Hsh, rsum_map_Rmult.
  unfold Rdiv. ring.
Qed.

Lemma std_scaled (s s' : ndarray R) (lam : R) :
  shape s' = shape s -> (forall i, get s' i = (lam * get s i)%R) ->
  std s' = (Rabs lam * std s)%R.
Proof.
  intros Hsh Hget. unfold std, numel.
  rewrite (mean_scaled _ _ Hsh Hget), (elements_scaled _ _ Hsh Hget), Hsh.
  rewrite map_map.
  rewrite (map_ext
             (fun x => (lam * x - lam * mean s) * (lam * x - lam * mean s))%R
             (fun x => ((x - mean s) * (x - mean s)) * (lam * lam))%R)
    by (intros x; ring).
  rewrite (rsum_map_scale (lam * lam) (fun x => (x - mean s) * (x - mean s))%R).
  set (W := rsum (map (fun x => (x - mean s) * (x - mean s))%R (elements s))).
  replace (W * (lam * lam) / (INR (prod (shape s)) - 1))%R
    with (Rsqr lam * (W / (INR (prod (shape s)) - 1)))%R
    by (unfold Rsqr, Rdiv; ring).
  rewrite sqrt_mult_alt by apply Rle_0_sqr.
  now rewrite sqrt_Rsqr_abs.
Qed.

(** X17. The signed curvature reads the direction of the vertex normals only:
    scaling all normals by a positive factor leaves the returned values as
    they are, and scaling them by a negative factor (flipping them) negates
    the values. *)
Theorem compute_mean_curvature_normal_length (E : Collaborators)
    (verts_packed : ndarray R) (faces_packed : ndarray Z)
    (vert_normals c : ndarray R) (lam : R) :
  lam <> 0%R ->
  compute_mean_curvature E verts_packed faces_packed vert_normals true = Ok c ->
  exists c',
    compute_mean_curvature E verts_packed faces_packed
      (tmap (Rmult lam) vert_normals) true = Ok c' /\
    shape c' = shape c /\
    ((0 < lam)%R -> forall i, get c' i = get c i) /\
    ((lam < 0)%R -> forall i, get c' i = (- get c i)%R).
Proof.
  intros Hlam Hc. rewrite compute_mean_curvature_signed in Hc.
  destruct (signed_mean_curvature E verts_packed faces_packed vert_normals)
    as [s |] eqn:Hs; cbn [bind] in Hc; [| discriminate].
  injection Hc as <-.
  destruct (signed_mean_curvature_scale _ _ _ _ lam Hs)
    as (s' & Hs' & Hsh & Hget).
  rewrite compute_mean_curvature_signed, Hs'. cbn [bind].
  eexists. split; [reflexivity |]. cbn [tmap shape get].
  split; [exact Hsh |].
  rewrite (mean_scaled _ _ Hsh Hget), (std_scaled _ _ Hsh Hget).
  split; intros Hl i; rewrite Hget.
  - rewrite Rabs_right by lra. unfold Rdiv. rewrite Rinv_mult.
    replace ((lam * get s i - lam * mean s) * (/ lam * / std s))%R
      with ((lam * / lam) * ((get s i - mean s) * / std s))%R by ring.
    rewrite Rinv_r by exact Hlam. ring.
  - rewrite Rabs_left by lra. unfold Rdiv. rewrite Rinv_mult, Rinv_opp.
    replace ((lam * get s i - lam * mean s) * (- / lam * / std s))%R
      with (- ((lam * / lam) * ((get s i - mean s) * / std s)))%R by ring.
    rewrite Rinv_r by exact Hlam. ring.
Qed.

Lemma compute_mean_curvature_normal_length_witness :
  exists c',
    compute_mean_curvature two_triangles_collaborators two_triangles_verts
      two_triangles_faces (tmap (Rmult 2) y_axis_normals) true = Ok c' /\
    shape c' = shape two_triangles_curvature /\
    ((0 < 2)%R -> forall i, get c' i = get two_triangles_curvature i) /\
    ((2 < 0)%R -> forall i, get c' i = (- get two_triangles_curvature i)%R).
Proof.
  apply (@compute_mean_curvature_normal_length two_triangles_collaborators
           two_triangles_verts two_triangles_faces y_axis_normals
           two_triangles_curvature 2%R).
  - lra.
  - reflexivity.
Defined.

(** *** Calls that return normals, features and curvatures *)

(** The items of a tuple, by name. *)
Fixpoint positions_of (out : list returned) : ndarray R :=
  match out with
  | [] => zeros []
  | Samples t :: _ => t
  | _ :: rest => positions_of rest
  end.

Fixpoint normals_of (out : list returned) : ndarray R :=
  match out with
  | [] => zeros []
  | Normals t :: _ => t
  | _ :: rest => normals_of rest
  end.

Fixpoint curvatures_of (out : list returned) : ndarray R :=
  match out with
  | [] => zeros []
  | SampledFaceCurvatures t :: _ => t
  | _ :: rest => curvatures_of rest
  end.

Fixpoint face_idxs_of (out : list returned) : ndarray Z :=
  match out with
  | [] => full [] 0%Z
  | SampleFaceIdxs t :: _ => t
  | _ :: rest => face_idxs_of rest
  end.

Lemma In_positions_of (out : list returned) :
  In "samples"%string (map returned_name out) ->
  In (Samples (positions_of out)) out.
Proof.
  induction out as [|r out IH]; simpl; [easy |].
  destruct r; simpl; intros [H | H]; try discriminate; auto.
Qed.

Lemma In_normals_of (out : list returned) :
  In "normals"%string (map returned_name out) ->
  In (Normals (normals_of out)) out.
Proof.
  induction out as [|r out IH]; simpl; [easy |].
  destruct r; simpl; intros [H | H]; try discriminate; auto.
Qed.

Lemma In_curvatures_of (out : list returned) :
  In "sampled_face_curvatures"%string (map returned_name out) ->
  In (SampledFaceCurvatures (curvatures_of out)) out.
Proof.
  induction out as [|r out IH]; simpl; [easy |].
  destruct r; simpl; intros [H | H]; try discriminate; auto.
Qed.

Lemma In_face_idxs_of (out : list returned) :
  In "sample_face_idxs"%string (map returned_name out) ->
  In (SampleFaceIdxs (face_idxs_of out)) out.
Proof.
  induction out as [|r out IH]; simpl; [easy |].
  destruct r; simpl; intros [H | H]; try discriminate; auto.
Qed.

(** The shape of the face indices a call returns for raw indices of shape
    [(num_valid, 100000)]. *)
Lemma sample_face_idxs_shape (E : Collaborators) (meshes : Meshes)
    (num_samples : Z) (rn rt : bool) (interp : option string) (uc rc : bool)
    (raw : ndarray Z) (g : Gen E) (out : list returned) (g' : Gen E)
    (N : nat) (face_idxs : ndarray Z) :
  sample_points_from_meshes E meshes num_samples rn rt interp uc rc (Some raw) g
    = (Ok out, g') ->
  shape (mesh_to_faces_packed_first_idx meshes) = [N] ->
  shape raw = [length (nonzero (valid meshes)); hard_coded_num_samples] ->
  In (SampleFaceIdxs face_idxs) out ->
  shape face_idxs = [length (nonzero (valid meshes)); hard_coded_num_samples].
Proof.
  intros H Hmtf Hraw Hi. run_steps H. destruct Hdraw as [-> ->].
  set (S := hard_coded_num_samples) in *. clearbody S.
  pose proof (return_ladder_items _ _ _ _ _ _ _ _ _ _ Hret) as Hitems.
  apply Hitems in Hi. cbn beta iota in Hi. subst face_idxs.
  now destruct (@global_face_idxs _ _ _ _ _ _ _ _ Hfirst Hoff Hsfi Hmtf Hraw).
Qed.

(** On the batch of an empty mesh and a triangle: normals and features
    interpolated with 'barycentric'. *)
Definition features_out : list returned :=
  unwrap []
    (fst (sample_points_from_meshes triangle_collaborators empty_and_triangle
            10000 true false (Some "barycentric"%string) false false
            (Some first_face_everywhere) tt)).

Lemma features_call_ok :
  is_ok
    (fst (sample_points_from_meshes triangle_collaborators empty_and_triangle
            10000 true false (Some "barycentric"%string) false false
            (Some first_face_everywhere) tt)) = true.
Proof. reflexivity. Qed.

Lemma features_call :
  sample_points_from_meshes triangle_collaborators empty_and_triangle
    10000 true false (Some "barycentric"%string) false false
    (Some first_face_everywhere) tt
  = (Ok features_out,
     snd (sample_points_from_meshes triangle_collaborators empty_and_triangle
            10000 true false (Some "barycentric"%string) false false
            (Some first_face_everywhere) tt)).
Proof. exact (returns_unwrap [] _ features_call_ok). Qed.

Lemma features_out_names :
  map returned_name features_out =
  ["samples"; "normals"; "sample_features"; "sample_face_idxs"]%string.
Proof. exact (sample_points_from_meshes_names _ _ _ _ _ _ _ _ _ _ features_call). Qed.

Lemma features_out_face_idxs_shape :
  shape (face_idxs_of features_out) =
  [length (nonzero (valid empty_and_triangle)); hard_coded_num_samples].
Proof.
  apply (@sample_face_idxs_shape triangle_collaborators empty_and_triangle
           10000 true false (Some "barycentric"%string) false false
           first_face_everywhere tt features_out _ 2 _ features_call);
    [reflexivity | reflexivity |].
  apply In_face_idxs_of. rewrite features_out_names. simpl. auto.
Qed.

Lemma sample_points_from_meshes_empty_mesh_rows_witness :
  (forall t, In (Samples t) features_out \/ In (Normals t) features_out ->
     shape t = [len_meshes empty_and_triangle; hard_coded_num_samples; 3] /\
     forall i r, nth i (valid empty_and_triangle) false = false ->
                 get t (i :: r) = 0%R) /\
  (forall t, In (SampleFeatures t) features_out ->
     Some "barycentric"%string = Some "barycentric"%string ->
     (exists D, shape t =
                [len_meshes empty_and_triangle; hard_coded_num_samples; D]) /\
     forall i r, nth i (valid empty_and_triangle) false = false ->
                 get t (i :: r) = (-1)%R).
Proof.
  exact (@sample_points_from_meshes_empty_mesh_rows triangle_collaborators
           empty_and_triangle 10000 true false (Some "barycentric"%string)
           false false (Some first_face_everywhere) tt features_out _
           features_call).
Defined.

Lemma hard_coded_num_samples_pos : 0 < hard_coded_num_samples.
Proof. unfold hard_coded_num_samples. lia. Qed.

Lemma sample_points_from_meshes_barycentric_positions_witness :
  let i := 1 in
  let j := 0 in
  let k := length (nonzero (firstn i (valid empty_and_triangle))) in
  let f := wrap_index 1 (get (face_idxs_of features_out) [k; j]) in
  let corner n c :=
    get (verts_packed empty_and_triangle)
        [wrap_index 3 (get (faces_packed empty_and_triangle) [f; n]); c] in
  exists w0 w1 w2 : R,
    (w0 + w1 + w2 = 1 /\ 0 <= w0 <= 1 /\ 0 <= w1 <= 1 /\ 0 <= w2 <= 1)%R /\
    forall c, c < 3 ->
      get (positions_of features_out) [i; j; c] =
      (w0 * corner 0%nat c + w1 * corner 1%nat c + w2 * corner 2%nat c)%R.
Proof.
  intros i j.
  apply (@sample_points_from_meshes_barycentric_positions
           triangle_collaborators empty_and_triangle 10000 true false
           (Some "barycentric"%string) false (Some first_face_everywhere) tt
           features_out
           (snd (sample_points_from_meshes triangle_collaborators
                   empty_and_triangle 10000 true false
                   (Some "barycentric"%string) false false
                   (Some first_face_everywhere) tt))
           3 1 (positions_of features_out) (face_idxs_of features_out));
    [| exact features_call | reflexivity | reflexivity | | |
     | reflexivity | exact hard_coded_num_samples_pos].
  - intros g0 size i0. simpl. lra.
  - apply In_positions_of. rewrite features_out_names. simpl. auto.
  - apply In_face_idxs_of. rewrite features_out_names. simpl. auto.
  - exact features_out_face_idxs_shape.
Defined.

Lemma sample_points_from_meshes_normals_witness :
  let i := 1 in
  let j := 0 in
  let k := length (nonzero (firstn i (valid empty_and_triangle))) in
  let f := wrap_index 1 (get (face_idxs_of features_out) [k; j]) in
  let corner n d :=
    get (verts_packed empty_and_triangle)
        [wrap_index 3 (get (faces_packed empty_and_triangle) [f; n]); d] in
  let e1 d := (corner 1%nat d - corner 0%nat d)%R in
  let e2 d := (corner 2%nat d - corner 1%nat d)%R in
  let n c := (e1 ((c + 1) mod 3)%nat * e2 ((c + 2) mod 3)%nat
              - e1 ((c + 2) mod 3)%nat * e2 ((c + 1) mod 3)%nat)%R in
  let len := norm2 [n 0; n 1; n 2] in
  (forall c, c < 3 ->
     get (normals_of features_out) [i; j; c]
     = (n c / Rmax (/ 2 ^ 52) len)%R) /\
  (len = 0%R -> forall c, c < 3 ->
     get (normals_of features_out) [i; j; c] = 0%R) /\
  ((/ 2 ^ 52 <= len)%R ->
   norm2 [get (normals_of features_out) [i; j; 0];
          get (normals_of features_out) [i; j; 1];
          get (normals_of features_out) [i; j; 2]] = 1%R).
Proof.
  intros i j.
  apply (@sample_points_from_meshes_normals triangle_collaborators
           empty_and_triangle 10000 true false (Some "barycentric"%string)
           false false (Some first_face_everywhere) tt features_out _ 3 1
           (normals_of features_out) (face_idxs_of features_out)
           features_call);
    [reflexivity | reflexivity | | |
     | reflexivity | exact hard_coded_num_samples_pos].
  - apply In_normals_of. rewrite features_out_names. simpl. auto.
  - apply In_face_idxs_of. rewrite features_out_names. simpl. auto.
  - exact features_out_face_idxs_shape.
Defined.


(** On the square: centroids of the first face. *)
Lemma centroid_call_0 :
  sample_points_from_meshes square_collaborators square 10000
    false false None true false (Some first_face_everywhere) 0%Z
  = (Ok (centroid_out 0),
     snd (sample_points_from_meshes square_collaborators square 10000
            false false None true false (Some first_face_everywhere) 0%Z)).
Proof. exact (returns_unwrap [] _ centroid_call_ok_0). Qed.

Lemma centroid_out_names :
  map returned_name (centroid_out 0) = ["samples"; "sample_face_idxs"]%string.
Proof. exact (sample_points_from_meshes_names _ _ _ _ _ _ _ _ _ _ centroid_call_0). Qed.

Lemma sample_points_from_meshes_centroid_positions_witness :
  let i := 0 in
  let j := 0 in
  let c := 0 in
  let k := length (nonzero (firstn i (valid square))) in
  let f := wrap_index 2 (get (face_idxs_of (centroid_out 0)) [k; j]) in
  let corner n :=
    get (verts_packed square)
        [wrap_index 4 (get (faces_packed square) [f; n]); c] in
  get (positions_of (centroid_out 0)) [i; j; c] =
  (1 / 3 * corner 0%nat + 1 / 3 * corner 1%nat + 1 / 3 * corner 2%nat)%R.
Proof.
  intros i j c.
  apply (@sample_points_from_meshes_centroid_positions square_collaborators
           square 10000 false false None false (Some first_face_everywhere)
           0%Z (centroid_out 0) _
           4 2 (positions_of (centroid_out 0)) (face_idxs_of (centroid_out 0))
           centroid_call_0);
    [reflexivity | reflexivity | | |
     | reflexivity | exact hard_coded_num_samples_pos | unfold c; lia].
  - apply In_positions_of. rewrite centroid_out_names. simpl. auto.
  - apply In_face_idxs_of. rewrite centroid_out_names. simpl. auto.
  - apply (@sample_face_idxs_shape square_collaborators square 10000 false
             false None true false first_face_everywhere 0%Z (centroid_out 0)
             _ 1 _ centroid_call_0);
      [reflexivity | reflexivity |].
    apply In_face_idxs_of. rewrite centroid_out_names. simpl. auto.
Defined.

(** On the batch of an empty mesh and a triangle: normals and curvatures. *)
Definition normals_curvature_out : list returned :=
  unwrap []
    (fst (sample_points_from_meshes triangle_collaborators empty_and_triangle
            10000 true false None false true (Some first_face_everywhere) tt)).

Lemma normals_curvature_call_ok :
  is_ok
    (fst (sample_points_from_meshes triangle_collaborators empty_and_triangle
            10000 true false None false true (Some first_face_everywhere) tt))
  = true.
Proof. reflexivity. Qed.

Lemma normals_curvature_call :
  sample_points_from_meshes triangle_collaborators empty_and_triangle
    10000 true false None false true (Some first_face_everywhere) tt
  = (Ok normals_curvature_out,
     snd (sample_points_from_meshes triangle_collaborators empty_and_triangle
            10000 true false None false true (Some first_face_everywhere) tt)).
Proof. exact (returns_unwrap [] _ normals_curvature_call_ok). Qed.

Lemma normals_curvature_out_names :
  map returned_name normals_curvature_out =
  ["samples"; "normals"; "sampled_face_curvatures"; "sample_face_idxs"]%string.
Proof.
  exact (sample_points_from_meshes_names _ _ _ _ _ _ _ _ _ _
           normals_curvature_call).
Qed.

Lemma sample_points_from_meshes_curvatures_witness :
  exists vertex_curvatures,
    compute_mean_curvature triangle_collaborators
      (verts_packed empty_and_triangle) (faces_packed empty_and_triangle)
      (verts_normals_packed empty_and_triangle) true = Ok vertex_curvatures /\
    forall Vc, shape vertex_curvatures = [Vc] ->
      shape (curvatures_of normals_curvature_out) =
        [length (nonzero (valid empty_and_triangle)); hard_coded_num_samples] /\
      forall k j,
        k < length (nonzero (valid empty_and_triangle)) ->
        j < hard_coded_num_samples ->
        let f :=
          wrap_index 1 (get (face_idxs_of normals_curvature_out) [k; j]) in
        let at_corner n :=
          get vertex_curvatures
              [wrap_index Vc (get (faces_packed empty_and_triangle) [f; n])] in
        get (curvatures_of normals_curvature_out) [k; j] =
        ((at_corner 0%nat + at_corner 1%nat + at_corner 2%nat) / 3)%R.
Proof.
  apply (@sample_points_from_meshes_curvatures triangle_collaborators
           empty_and_triangle 10000 true false None false true
           (Some first_face_everywhere) tt normals_curvature_out _ 1
           (curvatures_of normals_curvature_out)
           (face_idxs_of normals_curvature_out) normals_curvature_call);
    [reflexivity | | |].
  - apply In_curvatures_of. rewrite normals_curvature_out_names. simpl. auto.
  - apply In_face_idxs_of. rewrite normals_curvature_out_names. simpl. auto.
  - apply (@sample_face_idxs_shape triangle_collaborators empty_and_triangle
             10000 true false None false true first_face_everywhere tt
             normals_curvature_out _ 2 _ normals_curvature_call);
      [reflexivity | reflexivity |].
    apply In_face_idxs_of. rewrite normals_curvature_out_names. simpl. auto.
Defined.

End SamplePoints.

(** ** pytorch3d/structures/utils.py: affine transformation of a mesh *)

Module MeshTransform.
Import Torch SamplePoints.

(** *** Tensor operations of [flips_winding] and [transform_mesh_affine] *)

(** [t[:r, :c]]: fewer than two axes is an [IndexError]. *)
Definition slice2 (r c : nat) (t : ndarray R) : result (ndarray R) :=
  match shape t with
  | n :: m :: rest =>
      Ok (mk_ndarray (Nat.min r n :: Nat.min c m :: rest) (get t))
  | _ => Err IndexError
  end.

(** [t.T]: the axes in reverse order. *)
Definition transpose (t : ndarray R) : ndarray R :=
  mk_ndarray (rev (shape t)) (fun i => get t (rev i)).

(** [t.reshape((-1, 3, 3))] *)
Definition reshape_triangles (t : ndarray R) : result (ndarray R) :=
  raise_if (negb (numel t mod 9 =? 0))
    (RuntimeError "shape '[-1, 3, 3]' is invalid for input size") ;;;
  view t [numel t / 9; 3; 3].

(** [torch.diff(t, dim=1)] *)
Definition diff1 (t : ndarray R) : result (ndarray R) :=
  raise_if (ndim t <=? 1) IndexError ;;;
  Ok (mk_ndarray (replace_at 1 (nth 1 (shape t) 0 - 1) (shape t))
        (fun i => (get t (replace_at 1 (S (nth 1 i 0%nat)) i) - get t i)%R)).

(** [t[:count]] and [t[count:]] *)
Definition rows_upto (count : nat) (t : ndarray R) : result (ndarray R) :=
  raise_if (ndim t =? 0) IndexError ;;;
  Ok (mk_ndarray (Nat.min count (size0 t) :: tl (shape t)) (get t)).

Definition rows_from (count : nat) (t : ndarray R) : result (ndarray R) :=
  raise_if (ndim t =? 0) IndexError ;;;
  Ok (mk_ndarray (size0 t - count :: tl (shape t))
        (fun i => match i with
                  | j :: r => get t (count + j :: r)
                  | [] => get t i
                  end)).

(** [t[:count] = v]: [v] is broadcast to the rows. *)
Definition setitem_rows (t : ndarray R) (count : nat) (v : ndarray R)
    : result (ndarray R) :=
  raise_if (ndim t =? 0) IndexError ;;;
  let region := Nat.min count (size0 t) :: tl (shape t) in
  raise_if
    (match broadcast_shapes (shape v) region with
     | Some s => if list_eq_dec Nat.eq_dec s region then false else true
     | None => true
     end)
    (RuntimeError "The expanded size of the tensor must match the existing size") ;;;
  Ok (mk_ndarray (shape t)
        (fun i =>
           match i with
           | j :: _ =>
               if j <? count then get v (broadcast_index (shape v) i)
               else get t i
           | [] => get t i
           end)).

(** [t[:, :-1]] *)
Definition drop_last_column (t : ndarray R) : result (ndarray R) :=
  match shape t with
  | n :: m :: rest => Ok (mk_ndarray (n :: m - 1 :: rest) (get t))
  | _ => Err IndexError
  end.

(** [faces.flip(dims=[1])] *)
Definition flip1 (t : ndarray Z) : result (ndarray Z) :=
  raise_if (ndim t <=? 1) IndexError ;;;
  Ok (mk_ndarray (shape t)
        (fun i => get t (replace_at 1 (nth 1 (shape t) 0 - 1 - nth 1 i 0) i))).

Section Transform.
Variable E : Collaborators.

Notation "x <~ m ;; k" := (bindM m (fun x => k))
  (at level 61, m at next level, right associativity).
Notation "m ;;;; k" := (bindM m (fun _ => k))
  (at level 61, right associativity).

(** *** flips_winding *)

(** The matrix products are products of two matrices here: the caller hands
    over a square matrix, and [mm] refuses other ranks.  The two operands of
    [torch.cross] have shape [(6, 3)], whose first axis of extent 3 is axis
    1. *)
Definition flips_winding (matrix : ndarray R) : M E bool :=
  (* how many random triangles do we really want *)
  let count := 3 in
  (* test rotation against some random triangles *)
  tri <~ rand E [count * 3; 3] ;;
  lift E
    (block <- slice2 3 3 matrix ;;
     rot_T <- mm block (transpose tri) ;;
     let rot := transpose rot_T in
     (* stack them into one triangle soup *)
     stacked <- StructUtils.cat [tri; rot] ;;
     triangles <- reshape_triangles stacked ;;
     (* find the normals of every triangle *)
     vectors <- diff1 triangles ;;
     vectors0 <- select 1 0 vectors ;;
     vectors1 <- select 1 1 vectors ;;
     cross_ <- cross vectors0 vectors1 ;;
     (* rotate the original normals to match *)
     block <- slice2 3 3 matrix ;;
     head <- rows_upto count cross_ ;;
     rotated_T <- mm block (transpose head) ;;
     cross_ <- setitem_rows cross_ count (transpose rotated_T) ;;
     (* unitize normals *)
     norm <- reduce norm2 (ndim cross_ - 1) true cross_ ;;
     cross_ <- map2 Rdiv cross_ norm ;;
     (* find the projection of the two normals *)
     lo <- rows_upto count cross_ ;;
     hi <- rows_from count cross_ ;;
     products <- map2 Rmult lo hi ;;
     projection <- reduce rsum (ndim products - 1) false products ;;
     (* if the winding was flipped but not the normal the projection will be
        negative, and since we're checking a few triangles check against the
        mean *)
     Ok (if Rlt_dec (mean projection) 0 then true else false)).

(** *** transform_mesh_affine *)

Definition transform_mesh_affine (vertices : ndarray R) (faces : ndarray Z)
    (transformation_matrix : ndarray R) : M E (ndarray R * ndarray Z) :=
  match shape vertices with
  | [V; D] =>
      lift E (raise_if
                (if list_eq_dec Nat.eq_dec (shape transformation_matrix)
                      [D + 1; D + 1]
                 then false else true)
                (ValueError "Transformation matrix should be affine. ")) ;;;;
      new_coords <~
        lift E
          (coords <- StructUtils.cat [transpose vertices; full [1; V] 1%R] ;;
           (* Transform *)
           transformed <- mm transformation_matrix coords ;;
           drop_last_column (transpose transformed)) ;;
      (* Adapt faces s.t. normal convention is still fulfilled *)
      flip <~ flips_winding transformation_matrix ;;
      new_faces <~ lift E (if flip then flip1 faces else Ok faces) ;;
      ret E (new_coords, new_faces)
  | _ =>
      (* V, D = vertices.shape *)
      lift E (Err (ValueError "not enough or too many values to unpack"))
  end.

End Transform.
(** *** The steps of [flips_winding], one by one *)

Lemma slice2_run (r c : nat) (t : ndarray R) (n m : nat) :
  shape t = [n; m] -> r <= n -> c <= m ->
  exists b, slice2 r c t = Ok b /\ shape b = [r; c] /\
            forall i, get b i = get t i.
Proof.
  unfold slice2. intros Ht Hr Hc. rewrite Ht.
  eexists. split; [reflexivity |]. cbn [shape get].
  rewrite !Nat.min_l by lia. split; reflexivity.
Qed.

Lemma transpose_shape (t : ndarray R) (n m : nat) :
  shape t = [n; m] -> shape (transpose t) = [m; n].
Proof. unfold transpose. cbn [shape]. now intros ->. Qed.

Lemma mm_run (a b : ndarray R) (n k m : nat) :
  shape a = [n; k] -> shape b = [k; m] ->
  exists r, mm a b = Ok r /\ shape r = [n; m] /\
            forall i j, get r [i; j] =
                        rsum (map (fun l => get a [i; l] * get b [l; j])%R
                                  (seq 0 k)).
Proof.
  unfold mm. intros -> ->. rewrite Nat.eqb_refl. cbn [negb raise_if bind].
  eexists. split; [reflexivity |]. cbn [shape get]. split; reflexivity.
Qed.

(** [torch.vstack] of two matrices of the same width. *)
Lemma vstack_run (a b : ndarray R) (n m k : nat) :
  shape a = [n; k] -> shape b = [m; k] ->
  exists r, StructUtils.cat [a; b] = Ok r /\ shape r = [n + m; k] /\
            forall q c, q < n + m ->
              get r [q; c] =
              if q <? n then get a [q; c] else get b [q - n; c].
Proof.
  intros Ha Hb.
  destruct (@StructUtils.cat_same_trailing R [a; b] [k])
    as (r & Hr & Hsh & d & Hget); [discriminate | |].
  { repeat constructor; eauto. }
  exists r. split; [exact Hr |]. split.
  - rewrite Hsh. unfold size0. cbn [map list_sum fold_right].
    rewrite Ha, Hb. cbn [hd]. f_equal. lia.
  - intros q c Hq. rewrite Hget. cbn [StructUtils.cat_get]. unfold size0.
    rewrite Ha, Hb. cbn [hd].
    destruct (Nat.ltb_spec q n); [reflexivity |].
    destruct (Nat.ltb_spec (q - n) m); [reflexivity | lia].
Qed.

Lemma triangle_row (i a c : nat) :
  a < 3 -> c < 3 -> unravel [18; 3] (ravel [6; 3; 3] [i; a; c]) = [3 * i + a; c].
Proof.
  intros Ha Hc. cbn [ravel unravel prod fold_right].
  replace (i * (3 * (3 * 1)) + (a * (3 * 1) + (c * 1 + 0)))
    with (c + (3 * i + a) * 3) by lia.
  replace (3 * 1) with 3 by reflexivity.
  rewrite Nat.div_add, Nat.Div0.mod_add by lia.
  rewrite Nat.div_small, Nat.mod_small, Nat.div_1_r by lia.
  reflexivity.
Qed.

Lemma reshape_triangles_run (t : ndarray R) :
  shape t = [18; 3] ->
  exists r, reshape_triangles t = Ok r /\ shape r = [6; 3; 3] /\
            forall i a c, a < 3 -> c < 3 ->
              get r [i; a; c] = get t [3 * i + a; c].
Proof.
  unfold reshape_triangles, view, numel. intros Ht. rewrite Ht.
  replace (prod [18; 3]) with 54 by reflexivity.
  change (54 mod 9 =? 0) with true. change (54 / 9) with 6.
  replace (prod [6; 3; 3]) with 54 by reflexivity.
  rewrite Nat.eqb_refl. cbn [negb raise_if bind].
  eexists. split; [reflexivity |]. cbn [shape get]. split; [reflexivity |].
  intros i a c Ha Hc. now rewrite triangle_row.
Qed.

Lemma diff1_run (t : ndarray R) (n m k : nat) :
  shape t = [n; m; k] ->
  exists r, diff1 t = Ok r /\ shape r = [n; m - 1; k] /\
            forall i a c,
              get r [i; a; c] = (get t [i; S a; c] - get t [i; a; c])%R.
Proof.
  unfold diff1, ndim. intros Ht. rewrite Ht.
  cbn [length Nat.leb raise_if bind].
  eexists. split; [reflexivity |]. cbn [shape get]. split; reflexivity.
Qed.

Lemma select1_run (t : ndarray R) (n m k j : nat) :
  shape t = [n; m; k] -> j < m ->
  exists r, select 1 j t = Ok r /\ shape r = [n; k] /\
            forall i c, get r [i; c] = get t [i; j; c].
Proof.
  unfold select, ndim. intros Ht Hj. rewrite Ht.
  cbn [length Nat.leb nth raise_if bind].
  destruct (Nat.leb_spec m j) as [Hle | _]; [lia |]. cbn [raise_if bind].
  eexists. split; [reflexivity |]. cbn [shape get]. split; reflexivity.
Qed.

Lemma cross_run (a b : ndarray R) (F : nat) :
  shape a = [F; 3] -> shape b = [F; 3] ->
  exists cr, cross a b = Ok cr /\ shape cr = [F; 3] /\
    forall f c, f < F -> c < 3 ->
      get cr [f; c] =
      (get a [f; ((c + 1) mod 3)%nat] * get b [f; ((c + 2) mod 3)%nat]
       - get a [f; ((c + 2) mod 3)%nat] * get b [f; ((c + 1) mod 3)%nat])%R.
Proof.
  intros Ha Hb.
  assert (Hex : exists cr, cross a b = Ok cr).
  { unfold cross. rewrite Ha, Hb, broadcast_shapes_same.
    cbn [nth Nat.eqb andb negb raise_if bind]. eauto. }
  destruct Hex as [cr Hcr]. exists cr. split; [exact Hcr |].
  exact (@cross_get a b cr F Hcr Ha Hb).
Qed.

Lemma rows_upto_run (count : nat) (t : ndarray R) (n k : nat) :
  shape t = [n; k] -> count <= n ->
  exists r, rows_upto count t = Ok r /\ shape r = [count; k] /\
            forall i, get r i = get t i.
Proof.
  unfold rows_upto, ndim, size0. intros Ht Hc. rewrite Ht.
  cbn [length Nat.eqb raise_if bind hd tl]. rewrite Nat.min_l by exact Hc.
  eexists. split; [reflexivity |]. cbn [shape get]. split; reflexivity.
Qed.

Lemma rows_from_run (count : nat) (t : ndarray R) (n k : nat) :
  shape t = [n; k] ->
  exists r, rows_from count t = Ok r /\ shape r = [n - count; k] /\
            forall j c, get r [j; c] = get t [count + j; c].
Proof.
  unfold rows_from, ndim, size0. intros Ht. rewrite Ht.
  cbn [length Nat.eqb raise_if bind hd tl].
  eexists. split; [reflexivity |]. cbn [shape get]. split; reflexivity.
Qed.

Lemma setitem_rows_run (t : ndarray R) (count : nat) (v : ndarray R)
    (n k : nat) :
  shape t = [n; k] -> shape v = [count; k] -> count <= n ->
  exists r, setitem_rows t count v = Ok r /\ shape r = [n; k] /\
            forall j c, c < k ->
              get r [j; c] = if j <? count then get v [j; c] else get t [j; c].
Proof.
  unfold setitem_rows, ndim, size0. intros Ht Hv Hc. rewrite Ht, Hv.
  cbn [length Nat.eqb raise_if bind hd tl]. rewrite Nat.min_l by exact Hc.
  rewrite broadcast_shapes_same.
  destruct (list_eq_dec Nat.eq_dec [count; k] [count; k]) as [_ | Hn];
    [| now destruct Hn].
  cbn [raise_if bind]. eexists. split; [reflexivity |]. cbn [shape get].
  split; [reflexivity |]. intros j c Hck.
  destruct (Nat.ltb_spec j count) as [Hj | _]; [| reflexivity].
  now rewrite (broadcast_index_same (in_bounds2 Hj Hck)).
Qed.

(** [x / torch.norm(x, dim=-1, keepdim=True)] on an [(n, 3)] tensor. *)
Lemma unit_rows_run (t : ndarray R) (n : nat) :
  shape t = [n; 3] ->
  exists norm r,
    reduce norm2 (ndim t - 1) true t = Ok norm /\
    map2 Rdiv t norm = Ok r /\ shape r = [n; 3] /\
    forall i c, i < n -> c < 3 ->
      get r [i; c] =
      (get t [i; c] /
       norm2 [get t [i; 0%nat]; get t [i; 1%nat]; get t [i; 2%nat]])%R.
Proof.
  unfold reduce, ndim. intros Ht. rewrite Ht.
  cbn [length Nat.sub Nat.leb raise_if bind firstn skipn app].
  eexists. eexists. split; [reflexivity |]. unfold map2. cbn [shape get].
  unfold remove_at, insert_at. cbn [firstn skipn app].
  rewrite Ht, broadcast_shapes_column. cbn [bind]. split; [reflexivity |].
  cbn [shape get]. split; [reflexivity |]. intros i c Hi Hc.
  rewrite (broadcast_index_same (in_bounds2 Hi Hc)).
  rewrite (broadcast_index_column c Hi).
  unfold along, remove_at, insert_at. rewrite Ht.
  cbn [nth seq map firstn skipn app]. reflexivity.
Qed.

(** [torch.sum(x, dim=-1)] on an [(n, 3)] tensor. *)
Lemma row_sums_run (t : ndarray R) (n : nat) :
  shape t = [n; 3] ->
  exists r, reduce rsum (ndim t - 1) false t = Ok r /\ shape r = [n] /\
            forall i, get r [i] =
                      rsum [get t [i; 0]; get t [i; 1]; get t [i; 2]].
Proof.
  unfold reduce, ndim. intros Ht. rewrite Ht.
  cbn [length Nat.sub Nat.leb raise_if bind].
  eexists. split; [reflexivity |]. cbn [shape get].
  unfold remove_at. cbn [firstn skipn app]. split; [reflexivity |].
  intros i. unfold along, insert_at. rewrite Ht.
  cbn [nth seq map firstn skipn app]. reflexivity.
Qed.

Lemma mean3 (p : ndarray R) :
  shape p = [3] ->
  mean p = ((get p [0%nat] + get p [1%nat] + get p [2%nat]) / 3)%R.
Proof.
  unfold mean, elements, numel. intros ->.
  cbn [indices flat_map map seq app prod fold_right rsum Nat.mul Nat.add INR].
  field.
Qed.

(** *** The geometry behind [flips_winding] *)

Definition vec3 : Type := (R * R * R)%type.

Definition comp (u : vec3) (c : nat) : R :=
  let '(u0, u1, u2) := u in
  match c with 0 => u0 | 1 => u1 | _ => u2 end.

Definition sub3 (u v : vec3) : vec3 :=
  let '(u0, u1, u2) := u in
  let '(v0, v1, v2) := v in
  (u0 - v0, u1 - v1, u2 - v2)%R.

Definition dot3 (u v : vec3) : R :=
  let '(u0, u1, u2) := u in
  let '(v0, v1, v2) := v in
  (u0 * v0 + u1 * v1 + u2 * v2)%R.

Definition cross3 (u v : vec3) : vec3 :=
  let '(u0, u1, u2) := u in
  let '(v0, v1, v2) := v in
  (u1 * v2 - u2 * v1, u2 * v0 - u0 * v2, u0 * v1 - u1 * v0)%R.

Definition unit3 (u : vec3) : vec3 :=
  let '(u0, u1, u2) := u in
  let l := norm2 [u0; u1; u2] in
  (u0 / l, u1 / l, u2 / l)%R.

(** Row [q] of a matrix, its first three entries. *)
Definition row3 (t : ndarray R) (q : nat) : vec3 :=
  (get t [q; 0], get t [q; 1], get t [q; 2]).

(** The product of the upper left 3 x 3 block of [matrix] with a vector, and
    the determinant of that block. *)
Definition apply3 (matrix : ndarray R) (u : vec3) : vec3 :=
  (dot3 (row3 matrix 0) u, dot3 (row3 matrix 1) u, dot3 (row3 matrix 2) u).

Definition det3 (matrix : ndarray R) : R :=
  dot3 (row3 matrix 0) (cross3 (row3 matrix 1) (row3 matrix 2)).

Lemma rotated_normal_dot (matrix : ndarray R) (p0 p1 p2 : vec3) :
  let n := cross3 (sub3 p1 p0) (sub3 p2 p1) in
  dot3 (apply3 matrix n)
       (cross3 (sub3 (apply3 matrix p1) (apply3 matrix p0))
               (sub3 (apply3 matrix p2) (apply3 matrix p1)))
  = (det3 matrix * dot3 n n)%R.
Proof.
  destruct p0 as [[a0 a1] a2], p1 as [[b0 b1] b2], p2 as [[c0 c1] c2].
  unfold det3, apply3, row3, cross3, sub3, dot3. cbv zeta. ring.
Qed.

Lemma dot3_self_pos (u : vec3) : u <> (0, 0, 0)%R -> (0 < dot3 u u)%R.
Proof.
  destruct u as [[u0 u1] u2]. unfold dot3. intros Hu.
  destruct (Req_dec u0 0) as [H0 | H0]; [| nra].
  destruct (Req_dec u1 0) as [H1 | H1]; [| nra].
  destruct (Req_dec u2 0) as [H2 | H2]; [| nra].
  subst. now destruct Hu.
Qed.

Lemma norm2_nonneg (l : list R) : (0 <= norm2 l)%R.
Proof. unfold norm2. apply sqrt_pos. Qed.

Lemma inv_nonneg (x : R) : (0 <= x)%R -> (0 <= / x)%R.
Proof.
  intros [H | <-]; [left; now apply Rinv_0_lt_compat |].
  rewrite Rinv_0. lra.
Qed.

Lemma dot3_unit (x y : vec3) :
  dot3 (unit3 x) (unit3 y) =
  (dot3 x y *
   (/ norm2 [comp x 0; comp x 1; comp x 2] *
    / norm2 [comp y 0; comp y 1; comp y 2]))%R.
Proof.
  destruct x as [[x0 x1] x2], y as [[y0 y1] y2].
  unfold dot3, unit3, comp, Rdiv. cbv zeta. ring.
Qed.

Lemma norm2_3_pos (x : vec3) (y : vec3) :
  dot3 x y <> 0%R -> (0 < norm2 [comp x 0; comp x 1; comp x 2])%R.
Proof.
  destruct x as [[x0 x1] x2], y as [[y0 y1] y2]. unfold dot3, comp.
  intros Hd. destruct (norm2_nonneg [x0; x1; x2]) as [H | H]; [exact H |].
  symmetry in H. apply norm2_3_zero in H. destruct H as (-> & -> & ->).
  destruct Hd. ring.
Qed.

Lemma dot3_comm (x y : vec3) : dot3 x y = dot3 y x.
Proof.
  destruct x as [[x0 x1] x2], y as [[y0 y1] y2]. unfold dot3. ring.
Qed.

(** The cosine of two vectors whose product is [d * nn], [nn] a square, has
    the sign of [d]. *)
Lemma projection_sign (x y : vec3) (d nn : R) :
  dot3 x y = (d * nn)%R -> (0 <= nn)%R ->
  ((0 <= d)%R -> (0 <= dot3 (unit3 x) (unit3 y))%R) /\
  ((d < 0)%R -> (0 < nn)%R -> (dot3 (unit3 x) (unit3 y) < 0)%R).
Proof.
  intros Hd Hnn. rewrite dot3_unit.
  set (lx := norm2 [comp x 0; comp x 1; comp x 2]).
  set (ly := norm2 [comp y 0; comp y 1; comp y 2]).
  split.
  - intros H. rewrite Hd.
    pose proof (inv_nonneg (norm2_nonneg [comp x 0; comp x 1; comp x 2])).
    pose proof (inv_nonneg (norm2_nonneg [comp y 0; comp y 1; comp y 2])).
    fold lx in H0. fold ly in H1.
    apply Rmult_le_pos; [nra |]. now apply Rmult_le_pos.
  - intros H Hpos.
    assert (Hne : dot3 x y <> 0%R) by (rewrite Hd; nra).
    pose proof (norm2_3_pos x y Hne) as Hx. fold lx in Hx.
    assert (Hne' : dot3 y x <> 0%R) by now rewrite dot3_comm.
    pose proof (norm2_3_pos y x Hne') as Hy. fold ly in Hy.
    apply Rinv_0_lt_compat in Hx, Hy. rewrite Hd.
    assert (0 < / lx * / ly)%R by now apply Rmult_lt_0_compat.
    nra.
Qed.

Section Winding.
Variable E : Collaborators.

(** Vertex [a] of the random triangle [t] that [flips_winding] draws in the
    state [g], and the normal [cross(v1 - v0, v2 - v1)] of that triangle. *)
Definition random_vertex (g : Gen E) (t a : nat) : vec3 :=
  row3 (mk_ndarray [9; 3] (rand_entry E g [9; 3])) (3 * t + a).

Definition random_triangle_normal (g : Gen E) (t : nat) : vec3 :=
  cross3 (sub3 (random_vertex g t 1) (random_vertex g t 0))
         (sub3 (random_vertex g t 2) (random_vertex g t 1)).

(** The normal of the transformed triangle [t]. *)
Definition transformed_triangle_normal (matrix : ndarray R) (g : Gen E)
    (t : nat) : vec3 :=
  cross3 (sub3 (apply3 matrix (random_vertex g t 1))
               (apply3 matrix (random_vertex g t 0)))
         (sub3 (apply3 matrix (random_vertex g t 2))
               (apply3 matrix (random_vertex g t 1))).

(** The entry [t] of [projection]. *)
Definition projection_of (matrix : ndarray R) (g : Gen E) (t : nat) : R :=
  dot3 (unit3 (apply3 matrix (random_triangle_normal g t)))
       (unit3 (transformed_triangle_normal matrix g t)).

Lemma flips_winding_projection (matrix : ndarray R) (n m : nat) (g : Gen E) :
  shape matrix = [n; m] -> 3 <= n -> 3 <= m ->
  flips_winding E matrix g =
  (Ok (if Rlt_dec ((projection_of matrix g 0 + projection_of matrix g 1
                    + projection_of matrix g 2) / 3) 0
       then true else false),
   rand_next E g [9; 3]).
Proof.
  intros Hm Hn3 Hm3. unfold flips_winding. cbv zeta.
  erewrite bindM_run; [| reflexivity]. unfold lift.
  change (3 * 3) with 9. f_equal.
  set (tri := mk_ndarray [9; 3] (rand_entry E g [9; 3])).
  destruct (@slice2_run 3 3 matrix n m Hm Hn3 Hm3) as (block & Hblock & Hbs & Hbg).
  rewrite Hblock. cbn [bind].
  destruct (@mm_run block (transpose tri) 3 3 9 Hbs eq_refl)
    as (rot_T & Hrot & Hrs & Hrg).
  rewrite Hrot. cbn [bind].
  destruct (@vstack_run tri (transpose rot_T) 9 9 3 eq_refl
              (@transpose_shape _ _ _ Hrs)) as (stacked & Hst & Hss & Hsg).
  rewrite Hst. cbn [bind].
  destruct (@reshape_triangles_run stacked Hss) as (triangles & Htr & Hts & Htg).
  rewrite Htr. cbn [bind].
  destruct (@diff1_run triangles 6 3 3 Hts) as (vectors & Hve & Hvs & Hvg).
  rewrite Hve. cbn [bind]. change (3 - 1) with 2 in Hvs.
  destruct (@select1_run vectors 6 2 3 0 Hvs ltac:(lia))
    as (vectors0 & Hv0 & Hv0s & Hv0g).
  rewrite Hv0. cbn [bind].
  destruct (@select1_run vectors 6 2 3 1 Hvs ltac:(lia))
    as (vectors1 & Hv1 & Hv1s & Hv1g).
  rewrite Hv1. cbn [bind].
  destruct (@cross_run vectors0 vectors1 6 Hv0s Hv1s) as (cr & Hcr & Hcs & Hcg).
  rewrite Hcr. cbn [bind].
  destruct (@rows_upto_run 3 cr 6 3 Hcs ltac:(lia)) as (head & Hhd & Hhs & Hhg).
  rewrite Hhd. cbn [bind].
  destruct (@mm_run block (transpose head) 3 3 3 Hbs (@transpose_shape _ _ _ Hhs))
    as (rotated_T & Hro & Hros & Hrog).
  rewrite Hro. cbn [bind].
  destruct (@setitem_rows_run cr 3 (transpose rotated_T) 6 3 Hcs
              (@transpose_shape _ _ _ Hros) ltac:(lia)) as (cr2 & Hc2 & Hc2s & Hc2g).
  rewrite Hc2. cbn [bind].
  destruct (@unit_rows_run cr2 6 Hc2s) as (norm & cr3 & Hno & Hc3 & Hc3s & Hc3g).
  rewrite Hno. cbn [bind]. rewrite Hc3. cbn [bind].
  destruct (@rows_upto_run 3 cr3 6 3 Hc3s ltac:(lia)) as (lo & Hlo & Hlos & Hlog).
  rewrite Hlo. cbn [bind].
  destruct (@rows_from_run 3 cr3 6 3 Hc3s) as (hi & Hhi & His & Hig).
  rewrite Hhi. cbn [bind]. change (6 - 3) with 3 in His.
  assert (Hpr : exists products, map2 Rmult lo hi = Ok products).
  { rewrite map2_same_shape by congruence. eauto. }
  destruct Hpr as [products Hpr].
  destruct (@map2_get _ _ _ Rmult lo hi products [3; 3] Hpr Hlos His)
    as (Hps & Hpg).
  rewrite Hpr. cbn [bind].
  destruct (@row_sums_run products 3 Hps) as (projection & Hpj & Hpjs & Hpjg).
  rewrite Hpj. cbn [bind]. rewrite (@mean3 projection Hpjs).
  (* the entries of the six normals *)
  assert (Htri : forall f a c, f < 3 -> a < 3 -> c < 3 ->
            get triangles [f; a; c] = comp (random_vertex g f a) c).
  { intros f a c Hf Ha Hc. rewrite Htg, Hsg by lia.
    destruct (Nat.ltb_spec (3 * f + a) 9) as [_ | Hge]; [| lia].
    unfold random_vertex, row3. fold tri.
    destruct c as [|[|[|c]]]; [reflexivity | reflexivity | reflexivity | lia]. }
  assert (Hrot3 : forall f a c, f < 3 -> a < 3 -> c < 3 ->
            get triangles [3 + f; a; c] =
            comp (apply3 matrix (random_vertex g f a)) c).
  { intros f a c Hf Ha Hc. rewrite Htg, Hsg by lia.
    destruct (Nat.ltb_spec (3 * (3 + f) + a) 9) as [Hlt | _]; [lia |].
    replace (3 * (3 + f) + a - 9) with (3 * f + a) by lia.
    unfold transpose at 1. cbn [get rev app]. rewrite Hrg.
    cbn [seq map rsum fold_right]. rewrite !Hbg.
    unfold transpose. cbn [get rev app].
    unfold apply3, random_vertex, row3, dot3. fold tri.
    destruct c as [|[|[|c]]]; [| | | lia]; cbn [comp]; ring. }
  assert (Hmod : (1 mod 3 = 1 /\ 2 mod 3 = 2 /\ 3 mod 3 = 0 /\ 4 mod 3 = 1)%nat)
    by (repeat split; reflexivity).
  destruct Hmod as (M1 & M2 & M3 & M4).
  assert (Hn : forall f c, f < 3 -> c < 3 ->
            get cr [f; c] = comp (random_triangle_normal g f) c).
  { intros f c Hf Hc. rewrite Hcg by lia. rewrite !Hv0g, !Hv1g, !Hvg.
    unfold random_triangle_normal.
    destruct c as [|[|[|c]]]; [| | | lia]; cbn [Nat.add];
      rewrite ?M1, ?M2, ?M3, ?M4; rewrite !Htri by lia;
      destruct (random_vertex g f 0) as [[a0 a1] a2];
      destruct (random_vertex g f 1) as [[b0 b1] b2];
      destruct (random_vertex g f 2) as [[c0 c1] c2];
      cbn [comp cross3 sub3]; ring. }
  assert (Hn' : forall f c, f < 3 -> c < 3 ->
            get cr [3 + f; c] = comp (transformed_triangle_normal matrix g f) c).
  { intros f c Hf Hc. rewrite Hcg by lia. rewrite !Hv0g, !Hv1g, !Hvg.
    unfold transformed_triangle_normal. set (f3 := 3 + f).
    destruct c as [|[|[|c]]]; [| | | lia]; cbn [Nat.add];
      rewrite ?M1, ?M2, ?M3, ?M4; subst f3; rewrite !Hrot3 by lia;
      destruct (apply3 matrix (random_vertex g f 0)) as [[a0 a1] a2];
      destruct (apply3 matrix (random_vertex g f 1)) as [[b0 b1] b2];
      destruct (apply3 matrix (random_vertex g f 2)) as [[c0 c1] c2];
      cbn [comp cross3 sub3]; ring. }
  assert (Hx : forall f c, f < 3 -> c < 3 ->
            get cr2 [f; c] =
            comp (apply3 matrix (random_triangle_normal g f)) c).
  { intros f c Hf Hc. rewrite Hc2g by lia.
    destruct (Nat.ltb_spec f 3) as [_ | Hge]; [| lia].
    unfold transpose at 1. cbn [get rev app]. rewrite Hrog.
    cbn [seq map rsum fold_right]. rewrite !Hbg.
    unfold transpose. cbn [get rev app]. rewrite !Hhg, !Hn by lia.
    destruct (random_triangle_normal g f) as [[n0 n1] n2].
    unfold apply3, row3, dot3.
    destruct c as [|[|[|c]]]; [| | | lia]; cbn [comp]; ring. }
  assert (Hy : forall f c, f < 3 -> c < 3 ->
            get cr2 [3 + f; c] =
            comp (transformed_triangle_normal matrix g f) c).
  { intros f c Hf Hc. rewrite Hc2g by lia.
    destruct (Nat.ltb_spec (3 + f) 3) as [Hlt | _]; [lia |].
    now apply Hn'. }
  assert (Hp : forall f, f < 3 -> get projection [f] = projection_of matrix g f).
  { intros f Hf. rewrite Hpjg.
    rewrite !Hpg by (apply in_bounds2; lia).
    rewrite !Hlog, !Hig, !Hc3g by lia. rewrite !Hx, !Hy by lia.
    unfold projection_of.
    destruct (apply3 matrix (random_triangle_normal g f)) as [[x0 x1] x2].
    destruct (transformed_triangle_normal matrix g f) as [[y0 y1] y2].
    cbn [comp unit3 dot3 rsum fold_right]. cbv zeta. ring. }
  rewrite !Hp by lia. reflexivity.
Qed.

(** With three proper random triangles, the verdict is the sign of the
    determinant. *)
Lemma flips_winding_sign (matrix : ndarray R) (n m : nat) (g : Gen E) :
  shape matrix = [n; m] -> 3 <= n -> 3 <= m ->
  (forall t, t < 3 -> random_triangle_normal g t <> (0, 0, 0)%R) ->
  flips_winding E matrix g =
  (Ok (if Rlt_dec (det3 matrix) 0 then true else false), rand_next E g [9; 3]).
Proof.
  intros Hm Hn3 Hm3 Hproper.
  rewrite (@flips_winding_projection matrix n m g Hm Hn3 Hm3). do 2 f_equal.
  assert (Hs : forall t, t < 3 ->
            ((0 <= det3 matrix)%R -> (0 <= projection_of matrix g t)%R) /\
            ((det3 matrix < 0)%R -> (projection_of matrix g t < 0)%R)).
  { intros t Ht. unfold projection_of.
    pose proof (dot3_self_pos (Hproper t Ht)) as Hpos.
    destruct (@projection_sign
                (apply3 matrix (random_triangle_normal g t))
                (transformed_triangle_normal matrix g t)
                (det3 matrix)
                (dot3 (random_triangle_normal g t) (random_triangle_normal g t))
                (rotated_normal_dot matrix (random_vertex g t 0)
                   (random_vertex g t 1) (random_vertex g t 2))
                (Rlt_le _ _ Hpos)) as [H1 H2].
    split; [exact H1 | intros Hd; now apply H2]. }
  destruct (Hs 0 ltac:(lia)) as [A0 B0].
  destruct (Hs 1 ltac:(lia)) as [A1 B1].
  destruct (Hs 2 ltac:(lia)) as [A2 B2].
  destruct (Rlt_dec (det3 matrix) 0) as [Hd | Hd].
  - specialize (B0 Hd). specialize (B1 Hd). specialize (B2 Hd).
    destruct (Rlt_dec _ 0) as [_ | Hno]; [reflexivity | lra].
  - apply Rnot_lt_le in Hd.
    specialize (A0 Hd). specialize (A1 Hd). specialize (A2 Hd).
    destruct (Rlt_dec _ 0) as [Hlt | _]; [lra | reflexivity].
Qed.

(** Without the triangles: a matrix whose block has a determinant that is not
    negative is never said to flip. *)
Lemma flips_winding_total (matrix : ndarray R) (n m : nat) (g : Gen E) :
  shape matrix = [n; m] -> 3 <= n -> 3 <= m ->
  exists b, flips_winding E matrix g = (Ok b, rand_next E g [9; 3]).
Proof.
  intros Hm Hn3 Hm3.
  rewrite (@flips_winding_projection matrix n m g Hm Hn3 Hm3). eauto.
Qed.

End Winding.

(** *** The steps of [transform_mesh_affine] *)

Lemma rsum_app (l l' : list R) : rsum (l ++ l') = (rsum l + rsum l')%R.
Proof. induction l as [|x l IH]; simpl; [lra | rewrite IH; lra]. Qed.

Lemma drop_last_column_run (t : ndarray R) (n m : nat) :
  shape t = [n; m] ->
  exists r, drop_last_column t = Ok r /\ shape r = [n; m - 1] /\
            forall i, get r i = get t i.
Proof.
  unfold drop_last_column. intros ->. eexists. split; [reflexivity |].
  cbn [shape get]. split; reflexivity.
Qed.

(** The homogeneous product: the last coordinate is one, the last row of the
    matrix is dropped. *)
Lemma affine_coords_run (vertices matrix : ndarray R) (V D : nat) :
  shape vertices = [V; D] -> shape matrix = [D + 1; D + 1] ->
  exists new_coords,
    (coords <- StructUtils.cat [transpose vertices; full [1; V] 1%R] ;;
     transformed <- mm matrix coords ;;
     drop_last_column (transpose transformed)) = Ok new_coords /\
    shape new_coords = [V; D] /\
    forall v d,
      get new_coords [v; d] =
      (rsum (map (fun l => get matrix [d; l] * get vertices [v; l])%R
                 (seq 0 D))
       + get matrix [d; D])%R.
Proof.
  intros Hv Hm.
  destruct (@vstack_run (transpose vertices) (full [1; V] 1%R) D 1 V
              (@transpose_shape _ _ _ Hv) eq_refl) as (coords & Hc & Hcs & Hcg).
  rewrite Hc. cbn [bind].
  destruct (@mm_run matrix coords (D + 1) (D + 1) V Hm Hcs)
    as (transformed & Ht & Hts & Htg).
  rewrite Ht. cbn [bind].
  destruct (@drop_last_column_run (transpose transformed) V (D + 1)
              (@transpose_shape _ _ _ Hts)) as (new_coords & Hn & Hns & Hng).
  rewrite Hn. exists new_coords. split; [reflexivity |]. split.
  - rewrite Hns. repeat f_equal. lia.
  - intros v d. rewrite Hng. unfold transpose at 1. cbn [get rev app].
    rewrite Htg, seq_app, map_app, rsum_app. cbn [Nat.add seq map].
    f_equal.
    + f_equal. apply map_ext_in. intros l Hl. apply in_seq in Hl.
      rewrite Hcg by lia.
      destruct (Nat.ltb_spec l D) as [_ | Hge]; [| lia].
      unfold transpose. cbn [get rev app]. reflexivity.
    + unfold rsum. cbn [fold_right]. rewrite Hcg by lia.
      destruct (Nat.ltb_spec D D) as [Hlt | _]; [lia |].
      unfold full. cbn [get]. ring.
Qed.

Lemma flip1_run (faces : ndarray Z) (F K : nat) :
  shape faces = [F; K] ->
  exists r, flip1 faces = Ok r /\ shape r = [F; K] /\
            forall f k, get r [f; k] = get faces [f; K - 1 - k].
Proof.
  unfold flip1, ndim. intros Hf. rewrite Hf. cbn [length Nat.leb raise_if bind].
  eexists. split; [reflexivity |]. cbn [shape get]. split; reflexivity.
Qed.

Section Affine.
Variable E : Collaborators.

Lemma affine_check_passes (matrix : ndarray R) (D : nat) :
  shape matrix = [D + 1; D + 1] ->
  raise_if (if list_eq_dec Nat.eq_dec (shape matrix) [D + 1; D + 1]
            then false else true)
    (ValueError "Transformation matrix should be affine. ") = Ok tt.
Proof.
  intros ->.
  destruct (list_eq_dec Nat.eq_dec [D + 1; D + 1] [D + 1; D + 1]) as [_ | Hn];
    [reflexivity | now destruct Hn].
Qed.

(** A call with [(V, D)] vertices and a [(D + 1, D + 1)] matrix, up to the
    verdict of [flips_winding]. *)
Lemma transform_mesh_affine_unfold (vertices : ndarray R) (faces : ndarray Z)
    (matrix : ndarray R) (V D : nat) (g : Gen E) :
  shape vertices = [V; D] -> shape matrix = [D + 1; D + 1] ->
  exists new_coords,
    shape new_coords = [V; D] /\
    (forall v d,
       get new_coords [v; d] =
       (rsum (map (fun l => get matrix [d; l] * get vertices [v; l])%R
                  (seq 0 D))
        + get matrix [d; D])%R) /\
    transform_mesh_affine E vertices faces matrix g =
    bindM (flips_winding E matrix)
      (fun flip =>
         bindM (lift E (if flip then flip1 faces else Ok faces))
           (fun new_faces => ret E (new_coords, new_faces))) g.
Proof.
  intros Hv Hm.
  destruct (@affine_coords_run vertices matrix V D Hv Hm)
    as (new_coords & Hn & Hns & Hng).
  exists new_coords. split; [exact Hns |]. split; [exact Hng |].
  unfold transform_mesh_affine. rewrite Hv.
  erewrite bindM_run; [| unfold lift; rewrite (@affine_check_passes _ _ Hm);
                         reflexivity].
  erewrite bindM_run; [| unfold lift; rewrite Hn; reflexivity].
  reflexivity.
Qed.

Lemma transform_mesh_affine_run (vertices : ndarray R) (faces : ndarray Z)
    (matrix : ndarray R) (V D : nat) (g : Gen E) :
  shape vertices = [V; D] -> shape matrix = [D + 1; D + 1] -> 2 <= D ->
  1 < ndim faces ->
  exists new_coords new_faces flip,
    flips_winding E matrix g = (Ok flip, rand_next E g [9; 3]) /\
    (if flip then flip1 faces else Ok faces) = Ok new_faces /\
    transform_mesh_affine E vertices faces matrix g =
      (Ok (new_coords, new_faces), rand_next E g [9; 3]) /\
    shape new_coords = [V; D] /\
    (forall v d,
       get new_coords [v; d] =
       (rsum (map (fun l => get matrix [d; l] * get vertices [v; l])%R
                  (seq 0 D))
        + get matrix [d; D])%R).
Proof.
  intros Hv Hm HD Hf.
  destruct (@transform_mesh_affine_unfold vertices faces matrix V D g Hv Hm)
    as (new_coords & Hns & Hng & Hrun).
  destruct (@flips_winding_total E matrix (D + 1) (D + 1) g Hm
              ltac:(lia) ltac:(lia)) as (flip & Hflip).
  assert (Hfaces : exists new_faces,
            (if flip then flip1 faces else Ok faces) = Ok new_faces).
  { destruct flip; [| eauto]. unfold flip1.
    destruct (Nat.leb_spec (ndim faces) 1) as [Hle | _]; [lia |].
    cbn [raise_if bind]. eauto. }
  destruct Hfaces as [new_faces Hnf].
  exists new_coords, new_faces, flip.
  split; [exact Hflip |]. split; [exact Hnf |].
  split; [| split; [exact Hns | exact Hng]].
  rewrite Hrun. erewrite bindM_run; [| exact Hflip].
  erewrite bindM_run; [| unfold lift; rewrite Hnf; reflexivity].
  reflexivity.
Qed.

End Affine.

(** *** A mirrored triangle *)

(** A generator whose triangles have the corners (1/2, 0, 0), (0, 1/2, 0) and
    (0, 0, 1/2). *)
Definition corner_collaborators : Collaborators :=
  mk_Collaborators
    (Gen := unit)
    (fun _ _ i => match i with
                  | [q; c] => if q mod 3 =? c then (1 / 2)%R else 0%R
                  | _ => 0%R
                  end)
    (fun g _ => g)
    (fun _ _ _ _ => 0%Z) (fun g _ _ => g)
    (fun _ _ => Err (RuntimeError "not used"))
    (fun _ _ _ => Err (RuntimeError "not used"))
    (fun _ _ => Err (RuntimeError "not used")).

(** The reflection in the plane z = 0, followed by a translation. *)
Definition mirror_matrix : ndarray R :=
  of_rows [[1; 0; 0; 1]; [0; 1; 0; 2]; [0; 0; -1; 3]; [0; 0; 0; 1]]%R.

Definition corner_verts : ndarray R :=
  of_rows [[0; 0; 0]; [1; 0; 0]; [0; 1; 0]]%R.

Definition corner_faces : ndarray Z :=
  mk_ndarray [1; 3]
    (fun i => match i with [_; k] => Z.of_nat k | _ => 0%Z end).

(** Two points on a line, and a 2 x 2 matrix for them. *)
Definition line_verts : ndarray R := of_rows [[0]; [1]]%R.

Definition line_matrix : ndarray R := of_rows [[1; 1]; [0; 1]]%R.

Lemma corner_triangles_proper (t : nat) :
  t < 3 -> random_triangle_normal corner_collaborators tt t <> (0, 0, 0)%R.
Proof.
  intros Ht.
  destruct t as [|[|[|t]]]; [| | | lia];
    unfold random_triangle_normal, random_vertex, row3, corner_collaborators;
    cbn [get rand_entry sub3 cross3];
    cbn; intros H; injection H; intros; lra.
Qed.

Lemma mirror_matrix_det : (det3 mirror_matrix < 0)%R.
Proof.
  unfold det3, row3, mirror_matrix, of_rows. cbn [get nth cross3 dot3]. lra.
Qed.

Section MeshTransformFacts.
Variable E : Collaborators.

(** X18. [flips_winding] on a matrix with at least three rows and columns returns,
    having drawn nine random points; when the three triangles of these points
    are proper (their normals [cross(v1 - v0, v2 - v1)] are not zero), it
    returns True exactly when the determinant of the upper left 3 x 3 block
    is negative. *)
Theorem flips_winding_determinant (matrix : ndarray R) (n m : nat)
    (g : Gen E) :
  shape matrix = [n; m] -> 3 <= n -> 3 <= m ->
  (forall t, t < 3 -> random_triangle_normal E g t <> (0, 0, 0)%R) ->
  flips_winding E matrix g =
  (Ok (if Rlt_dec (det3 matrix) 0 then true else false), rand_next E g [9; 3]).
Proof. apply flips_winding_sign. Qed.

(** X19. [transform_mesh_affine] on [(V, D)] vertices with [D >= 2], a
    [(D + 1, D + 1)] matrix and faces of at least two axes returns; the new
    vertices have shape [(V, D)], and coordinate [d] of vertex [v] is
    [sum_l matrix[d, l] * vertices[v, l] + matrix[d, D]]: the last row of the
    matrix is not read and nothing is divided by a homogeneous coordinate.
    The faces keep their shape. *)
Theorem transform_mesh_affine_coordinates (vertices : ndarray R)
    (faces : ndarray Z) (matrix : ndarray R) (V D : nat) (g : Gen E) :
  shape vertices = [V; D] -> shape matrix = [D + 1; D + 1] -> 2 <= D ->
  1 < ndim faces ->
  exists new_coords new_faces,
    transform_mesh_affine E vertices faces matrix g =
      (Ok (new_coords, new_faces), rand_next E g [9; 3]) /\
    shape new_coords = [V; D] /\
    (forall v d, v < V -> d < D ->
       get new_coords [v; d] =
       (rsum (map (fun l => get matrix [d; l] * get vertices [v; l])%R
                  (seq 0 D))
        + get matrix [d; D])%R) /\
    shape new_faces = shape faces.
Proof.
  intros Hv Hm HD Hf.
  destruct (@transform_mesh_affine_run E vertices faces matrix V D g
              Hv Hm HD Hf)
    as (new_coords & new_faces & flip & _ & Hnf & Hrun & Hns & Hng).
  exists new_coords, new_faces. split; [exact Hrun |].
  split; [exact Hns |]. split; [intros v d _ _; apply Hng |].
  destruct flip; [| now injection Hnf as <-].
  unfold flip1 in Hnf.
  destruct (Nat.leb_spec (ndim faces) 1) as [Hle | _]; [lia |].
  cbn [raise_if bind] in Hnf. now injection Hnf as <-.
Qed.

(** X20. With proper random triangles, [transform_mesh_affine] reverses the vertex
    order of every face exactly when the determinant of the upper left 3 x 3
    block of the matrix is negative; otherwise the faces are returned as they
    are. *)
Theorem transform_mesh_affine_faces (vertices : ndarray R)
    (faces : ndarray Z) (matrix : ndarray R) (V D F K : nat) (g : Gen E) :
  shape vertices = [V; D] -> shape matrix = [D + 1; D + 1] -> 2 <= D ->
  shape faces = [F; K] ->
  (forall t, t < 3 -> random_triangle_normal E g t <> (0, 0, 0)%R) ->
  exists new_coords new_faces,
    transform_mesh_affine E vertices faces matrix g =
      (Ok (new_coords, new_faces), rand_next E g [9; 3]) /\
    ((det3 matrix < 0)%R ->
       shape new_faces = [F; K] /\
       forall f k, f < F -> k < K ->
         get new_faces [f; k] = get faces [f; K - 1 - k]) /\
    ((0 <= det3 matrix)%R -> new_faces = faces).
Proof.
  intros Hv Hm HD Hf Hproper.
  assert (Hnd : 1 < ndim faces) by (unfold ndim; rewrite Hf; cbn; lia).
  destruct (@transform_mesh_affine_run E vertices faces matrix V D g
              Hv Hm HD Hnd)
    as (new_coords & new_faces & flip & Hflip & Hnf & Hrun & _).
  exists new_coords, new_faces. split; [exact Hrun |].
  rewrite (@flips_winding_sign E matrix (D + 1) (D + 1) g Hm
             ltac:(lia) ltac:(lia) Hproper) in Hflip.
  injection Hflip as <-.
  destruct (Rlt_dec (det3 matrix) 0) as [Hd | Hd].
  - split; [intros _ | intros H; lra].
    destruct (@flip1_run faces F K Hf) as (r & Hr & Hrs & Hrg).
    rewrite Hr in Hnf. injection Hnf as <-.
    split; [exact Hrs | intros f k _ _; apply Hrg].
  - split; [intros H; contradiction |]. intros _. now injection Hnf as <-.
Qed.

(** X21. The ways [transform_mesh_affine] raises: vertices that are not a matrix
    are a ValueError of the unpacking, a matrix whose shape is not
    [(D + 1, D + 1)] is the ValueError of the check, both before any random
    number is drawn; and vertices with fewer than two coordinates always end
    in the RuntimeError of the matrix product in [flips_winding], after its
    draw. *)
Theorem transform_mesh_affine_errors (vertices : ndarray R)
    (faces : ndarray Z) (matrix : ndarray R) (g : Gen E) :
  (ndim vertices <> 2 ->
   exists msg,
     transform_mesh_affine E vertices faces matrix g =
     (Err (ValueError msg), g)) /\
  (forall V D,
     shape vertices = [V; D] -> shape matrix <> [D + 1; D + 1] ->
     transform_mesh_affine E vertices faces matrix g =
     (Err (ValueError "Transformation matrix should be affine. "), g)) /\
  (forall V D,
     shape vertices = [V; D] -> shape matrix = [D + 1; D + 1] -> D < 2 ->
     transform_mesh_affine E vertices faces matrix g =
     (Err (RuntimeError "mat1 and mat2 shapes cannot be multiplied"),
      rand_next E g [9; 3])).
Proof.
  split; [| split].
  - intros Hnd. unfold transform_mesh_affine, ndim in *.
    destruct (shape vertices) as [|V [|D [|x s]]]; cbn [length] in Hnd;
      try (eexists; reflexivity).
    now destruct Hnd.
  - intros V D Hv Hm. unfold transform_mesh_affine. rewrite Hv.
    unfold bindM, lift.
    destruct (list_eq_dec Nat.eq_dec (shape matrix) [D + 1; D + 1])
      as [Heq | _]; [contradiction | reflexivity].
  - intros V D Hv Hm HD.
    destruct (@transform_mesh_affine_unfold E vertices faces matrix V D g
                Hv Hm) as (new_coords & _ & _ & Hrun).
    rewrite Hrun. unfold bindM at 1. unfold flips_winding. cbv zeta.
    erewrite bindM_run; [| reflexivity]. unfold lift, slice2. rewrite Hm.
    cbn [bind]. unfold mm at 1. cbn [shape transpose rev app].
    rewrite !Nat.min_r by lia.
    destruct (Nat.eqb_spec (D + 1) 3) as [Heq | _]; [lia |].
    reflexivity.
Qed.

End MeshTransformFacts.

Lemma flips_winding_determinant_witness :
  flips_winding corner_collaborators mirror_matrix tt = (Ok true, tt).
Proof.
  rewrite (@flips_winding_determinant corner_collaborators mirror_matrix 4 4 tt
             eq_refl ltac:(lia) ltac:(lia) corner_triangles_proper).
  destruct (Rlt_dec (det3 mirror_matrix) 0) as [_ | Hn]; [reflexivity |].
  destruct (Hn mirror_matrix_det).
Defined.

Lemma transform_mesh_affine_coordinates_witness :
  exists new_coords new_faces,
    transform_mesh_affine corner_collaborators corner_verts corner_faces
      mirror_matrix tt = (Ok (new_coords, new_faces), tt) /\
    shape new_coords = [3; 3] /\
    (forall v d, v < 3 -> d < 3 ->
       get new_coords [v; d] =
       (rsum (map (fun l => get mirror_matrix [d; l] * get corner_verts [v; l])%R
                  (seq 0 3))
        + get mirror_matrix [d; 3%nat])%R) /\
    shape new_faces = [1; 3].
Proof.
  apply (@transform_mesh_affine_coordinates corner_collaborators corner_verts
           corner_faces mirror_matrix 3 3 tt eq_refl eq_refl);
    [lia | cbn; lia].
Defined.

Lemma transform_mesh_affine_faces_witness :
  exists new_coords new_faces,
    transform_mesh_affine corner_collaborators corner_verts corner_faces
      mirror_matrix tt = (Ok (new_coords, new_faces), tt) /\
    shape new_faces = [1; 3] /\
    get new_faces [0; 0] = 2%Z /\
    get new_faces [0; 1] = 1%Z /\
    get new_faces [0; 2] = 0%Z.
Proof.
  destruct (@transform_mesh_affine_faces corner_collaborators corner_verts
              corner_faces mirror_matrix 3 3 1 3 tt eq_refl eq_refl
              ltac:(lia) eq_refl corner_triangles_proper)
    as (new_coords & new_faces & Hrun & Hflip & _).
  destruct (Hflip mirror_matrix_det) as [Hs Hg].
  exists new_coords, new_faces. split; [exact Hrun |]. split; [exact Hs |].
  rewrite !Hg by lia. repeat split; reflexivity.
Defined.

Lemma transform_mesh_affine_errors_witness :
  transform_mesh_affine corner_collaborators corner_verts corner_faces
    line_matrix tt =
    (Err (ValueError "Transformation matrix should be affine. "), tt) /\
  transform_mesh_affine corner_collaborators line_verts corner_faces
    line_matrix tt =
    (Err (RuntimeError "mat1 and mat2 shapes cannot be multiplied"), tt).
Proof.
  split.
  - apply (proj1 (proj2 (@transform_mesh_affine_errors corner_collaborators
                           corner_verts corner_faces line_matrix tt))
             3 3 eq_refl).
    discriminate.
  - apply (proj2 (proj2 (@transform_mesh_affine_errors corner_collaborators
                           line_verts corner_faces line_matrix tt))
             2 1 eq_refl eq_refl).
    lia.
Defined.

End MeshTransform.
